(** * Orbit engine: the physics handlers of [PhysicsSimulator]

    A shallow embedding of the simulation core of the orbit sandbox: the
    per-step [beforeUpdate] handler (gravity, locked-velocity reset, escape
    culling, hover selection), the [collisionStart] and [collisionActive]
    handlers, the orbital diagnostics, and the edit form (field handlers and
    the [Done] commit); then the rest of the component: the creation of
    planets, the pointer handlers and the buttons, and the component as a
    machine that takes one event at a time, with the invariants it keeps.

    Numbers are JavaScript numbers, that is IEEE 754 binary64 values: they
    are Rocq's primitive floats, whose [+ - * /], [sqrt] and comparisons are
    the same correctly rounded operations, with the same infinities and NaN.
    Bodies are JavaScript objects: they live in a heap keyed by object
    identity, and the engine's world lists the identities it contains. *)

From Stdlib Require Import Floats String Ascii DecimalString List Bool Arith Lia.
From stdpp Require Import base option list gmap.
Import ListNotations.

(** * JavaScript values *)

Module JS.

(** Truthiness of a number: [0], [-0] and [NaN] are falsy. *)
Definition truthy_number (n : float) : bool :=
  negb (PrimFloat.is_zero n || PrimFloat.is_nan n).

(** Truthiness of a string: only the empty string is falsy. *)
Definition truthy_string (s : string) : bool :=
  match s with
  | EmptyString => false
  | String _ _ => true
  end.

(** Truthiness of an optional boolean field ([undefined] is falsy). *)
Definition truthy_flag (o : option bool) : bool :=
  match o with
  | Some true => true
  | _ => false
  end.

(** [s || d] for an optional string. *)
Definition or_string (s : option string) (d : string) : string :=
  match s with
  | Some s' => if truthy_string s' then s' else d
  | None => d
  end.

(** [o ?? d] for an optional boolean. *)
Definition nullish_flag (o : option bool) (d : bool) : bool :=
  match o with
  | Some b => b
  | None => d
  end.

(** [Number.isFinite]. *)
Definition is_finite (n : float) : bool :=
  negb (PrimFloat.is_nan n || PrimFloat.is_infinity n).

(** A finite number strictly above zero. *)
Definition is_positive_finite (n : float) : bool :=
  PrimFloat.ltb 0 n && negb (PrimFloat.is_infinity n).

End JS.

(** * The part of Matter.js the simulator calls *)

Module Matter.

Module Vector.
Record t : Type := mk { x : float; y : float }.
Definition zero : t := {| x := 0; y := 0 |}.
End Vector.

Module Body.

(** [Matter.Body] with the fields [ExtendedBody] adds.  Only the fields the
    handlers read or write are kept; [circleRadius] is [None] when the
    field is [undefined] or [null]. *)
Record t : Type := mk {
  id : nat;
  isStatic : bool;
  position : Vector.t;
  velocity : Vector.t;
  mass : float;
  inverseMass : float;
  density : float;
  area : float;
  circleRadius : option float;
  fillStyle : option string;
  isSun : option bool;
  name : option string;
  isLocked : option bool;
  lockedVelocity : option Vector.t;
  color : option string;
  deltaTime : float
}.

Definition with_velocity (v : Vector.t) (b : t) : t :=
  mk (id b) (isStatic b) (position b) v (mass b) (inverseMass b) (density b)
     (area b) (circleRadius b) (fillStyle b) (isSun b) (name b) (isLocked b)
     (lockedVelocity b) (color b) (deltaTime b).

Definition with_mass (m : float) (b : t) : t :=
  mk (id b) (isStatic b) (position b) (velocity b) m (inverseMass b) (density b)
     (area b) (circleRadius b) (fillStyle b) (isSun b) (name b) (isLocked b)
     (lockedVelocity b) (color b) (deltaTime b).

Definition with_inverseMass (m : float) (b : t) : t :=
  mk (id b) (isStatic b) (position b) (velocity b) (mass b) m (density b)
     (area b) (circleRadius b) (fillStyle b) (isSun b) (name b) (isLocked b)
     (lockedVelocity b) (color b) (deltaTime b).

Definition with_density (d : float) (b : t) : t :=
  mk (id b) (isStatic b) (position b) (velocity b) (mass b) (inverseMass b) d
     (area b) (circleRadius b) (fillStyle b) (isSun b) (name b) (isLocked b)
     (lockedVelocity b) (color b) (deltaTime b).

Definition with_area (a : float) (b : t) : t :=
  mk (id b) (isStatic b) (position b) (velocity b) (mass b) (inverseMass b)
     (density b) a (circleRadius b) (fillStyle b) (isSun b) (name b)
     (isLocked b) (lockedVelocity b) (color b) (deltaTime b).

Definition with_circleRadius (r : option float) (b : t) : t :=
  mk (id b) (isStatic b) (position b) (velocity b) (mass b) (inverseMass b)
     (density b) (area b) r (fillStyle b) (isSun b) (name b) (isLocked b)
     (lockedVelocity b) (color b) (deltaTime b).

Definition with_fillStyle (c : option string) (b : t) : t :=
  mk (id b) (isStatic b) (position b) (velocity b) (mass b) (inverseMass b)
     (density b) (area b) (circleRadius b) c (isSun b) (name b) (isLocked b)
     (lockedVelocity b) (color b) (deltaTime b).

Definition with_name (n : option string) (b : t) : t :=
  mk (id b) (isStatic b) (position b) (velocity b) (mass b) (inverseMass b)
     (density b) (area b) (circleRadius b) (fillStyle b) (isSun b) n
     (isLocked b) (lockedVelocity b) (color b) (deltaTime b).

Definition with_isLocked (l : option bool) (b : t) : t :=
  mk (id b) (isStatic b) (position b) (velocity b) (mass b) (inverseMass b)
     (density b) (area b) (circleRadius b) (fillStyle b) (isSun b) (name b) l
     (lockedVelocity b) (color b) (deltaTime b).

Definition with_lockedVelocity (v : option Vector.t) (b : t) : t :=
  mk (id b) (isStatic b) (position b) (velocity b) (mass b) (inverseMass b)
     (density b) (area b) (circleRadius b) (fillStyle b) (isSun b) (name b)
     (isLocked b) v (color b) (deltaTime b).

Definition with_color (c : option string) (b : t) : t :=
  mk (id b) (isStatic b) (position b) (velocity b) (mass b) (inverseMass b)
     (density b) (area b) (circleRadius b) (fillStyle b) (isSun b) (name b)
     (isLocked b) (lockedVelocity b) c (deltaTime b).

Definition with_deltaTime (d : float) (b : t) : t :=
  mk (id b) (isStatic b) (position b) (velocity b) (mass b) (inverseMass b)
     (density b) (area b) (circleRadius b) (fillStyle b) (isSun b) (name b)
     (isLocked b) (lockedVelocity b) (color b) d.

(** [Body._baseDelta = 1000 / 60], the step length the library counts
    velocities in; a new body has it as its [deltaTime]. *)
Definition _baseDelta : float := (1000 / 60)%float.

(** Modelled from the library's source (Matter.js 0.20.0, the version the
    README names): [Matter.Body.setVelocity(body, velocity)] is library
    code, absent from the repository.  The spec reads its calls as
    assignments ("zeroes velocity immediately", "restores [velocity =
    lockedVelocity]"); the library does not assign.  With [timeScale =
    body.deltaTime / Body._baseDelta] it stores [positionPrev = position - velocity *
    timeScale] and reads the velocity back from the two positions, as
    [(position - positionPrev) / timeScale]: the stored velocity has gone
    through the rounding of [position - velocity * timeScale].
    [positionPrev] and [speed], which it writes too, are fields the
    simulator never reads and are not kept. *)
Definition setVelocity (body : t) (velocity : Vector.t) : t :=
  let timeScale := (deltaTime body / _baseDelta)%float in
  let positionPrev :=
    {| Vector.x := (Vector.x (position body) - Vector.x velocity * timeScale)%float;
       Vector.y := (Vector.y (position body) - Vector.y velocity * timeScale)%float |} in
  with_velocity
    {| Vector.x :=
         ((Vector.x (position body) - Vector.x positionPrev) / timeScale)%float;
       Vector.y :=
         ((Vector.y (position body) - Vector.y positionPrev) / timeScale)%float |}
    body.

(** Modelled from the spec: [Matter.Body.setMass(body, mass)] is library
    code, absent from the repository.  The spec reads its calls as
    assignments to the body's mass ("re-apply the pre-edit mass"); the
    library stores with the mass its inverse and the density that goes
    with the body's current area.  The moment of inertia it rescales as
    well is on a field the simulator never reads. *)
Definition setMass (body : t) (m : float) : t :=
  with_density (m / area body)%float
    (with_inverseMass (1 / m)%float (with_mass m body)).

(** Modelled from the spec: [Matter.Body.scale(body, scaleX, scaleY)] is
    library code, absent from the repository; the spec says of it that
    "the underlying shape-scale operation recomputes mass as a side
    effect".  The library rescales the outline about the body's position,
    takes the area of the scaled outline (the old area times
    [|scaleX * scaleY|]), sets the mass to [density * area] through
    [setMass], and multiplies [circleRadius] by the factor when the body is
    a circle scaled evenly (the field is nulled when the two factors are
    not [===]). *)
Definition scale (body : t) (scaleX scaleY : float) : t :=
  let area' := (area body * PrimFloat.abs (scaleX * scaleY))%float in
  let scaled := setMass (with_area area' body) (density body * area')%float in
  match circleRadius scaled with
  | Some r =>
      if JS.truthy_number r then
        if PrimFloat.eqb scaleX scaleY
        then with_circleRadius (Some (r * scaleX)%float) scaled
        else with_circleRadius None scaled
      else scaled
  | None => scaled
  end.

End Body.

Module Composite.

(** Modelled from the spec: [Matter.World.remove(world, body)] is library
    code, absent from the repository; the spec has "removal is immediate
    and synchronous".  The bodies of a composite are kept in an array of
    object references; the removal splices out the first index holding
    the reference and does nothing when there is none. *)
Fixpoint remove (bodies : list nat) (body : nat) : list nat :=
  match bodies with
  | [] => []
  | r :: rest => if Nat.eqb r body then rest else r :: remove rest body
  end.

End Composite.

End Matter.

Import Matter.

(** * The simulator's own data *)

Module OrbitalVelocity.
Record t : Type := mk { radial : float; tangential : float }.
End OrbitalVelocity.

(** The snapshot of the selected body that the panel shows. *)
Module CelestialBodyProperties.
Record t : Type := mk {
  id : nat;
  name : string;
  mass : float;
  size : float;
  color : string;
  orbitalVelocity : OrbitalVelocity.t;
  isSun : option bool;
  isLocked : option bool
}.
End CelestialBodyProperties.

(** The buffered fields of the edit form. *)
Module EditingValues.
Record t : Type := mk {
  name : string;
  mass : float;
  size : float;
  color : string;
  isLocked : bool
}.

Definition with_name (n : string) (e : t) : t :=
  mk n (mass e) (size e) (color e) (isLocked e).
Definition with_mass (m : float) (e : t) : t :=
  mk (name e) m (size e) (color e) (isLocked e).
Definition with_size (s : float) (e : t) : t :=
  mk (name e) (mass e) s (color e) (isLocked e).
Definition with_color (c : string) (e : t) : t :=
  mk (name e) (mass e) (size e) c (isLocked e).
Definition with_isLocked (l : bool) (e : t) : t :=
  mk (name e) (mass e) (size e) (color e) l.
End EditingValues.

(** What the pointer contributes to a step: whether the button is down, and
    what [Matter.Query.point] returns at the pointer's position for the
    bodies of the step's snapshot.  (The mouse constraint exists, with a
    position, from the moment the engine runs.) *)
Module Pointer.
Record t : Type := mk { isMouseDown : bool; bodiesAtPoint : list nat }.
End Pointer.

(** The component's state: the heap of body objects, the bodies of
    [engine.world] in composite order, the React state ([selectedBody],
    [isEditing], [isHoldingPlanet], [editingValues]), the ref that mirrors
    the selection for the engine's handlers, and the body the mouse
    constraint currently holds. *)
Module Sim.
Record t : Type := mk {
  heap : gmap nat Body.t;
  world : list nat;
  selectedBody : option CelestialBodyProperties.t;
  selectedBodyRef : option CelestialBodyProperties.t;
  isEditing : bool;
  isHoldingPlanet : bool;
  editingValues : option EditingValues.t;
  mouseConstraintBody : option nat
}.

Definition with_heap (h : gmap nat Body.t) (s : t) : t :=
  mk h (world s) (selectedBody s) (selectedBodyRef s) (isEditing s)
     (isHoldingPlanet s) (editingValues s) (mouseConstraintBody s).
Definition with_world (w : list nat) (s : t) : t :=
  mk (heap s) w (selectedBody s) (selectedBodyRef s) (isEditing s)
     (isHoldingPlanet s) (editingValues s) (mouseConstraintBody s).
Definition setSelectedBody (v : option CelestialBodyProperties.t) (s : t) : t :=
  mk (heap s) (world s) v (selectedBodyRef s) (isEditing s)
     (isHoldingPlanet s) (editingValues s) (mouseConstraintBody s).
Definition setIsEditing (v : bool) (s : t) : t :=
  mk (heap s) (world s) (selectedBody s) (selectedBodyRef s) v
     (isHoldingPlanet s) (editingValues s) (mouseConstraintBody s).
Definition setIsHoldingPlanet (v : bool) (s : t) : t :=
  mk (heap s) (world s) (selectedBody s) (selectedBodyRef s) (isEditing s)
     v (editingValues s) (mouseConstraintBody s).
Definition setEditingValues (v : option EditingValues.t) (s : t) : t :=
  mk (heap s) (world s) (selectedBody s) (selectedBodyRef s) (isEditing s)
     (isHoldingPlanet s) v (mouseConstraintBody s).

(** The effect that runs after a render copies the selection into the ref. *)
Definition syncRefs (s : t) : t :=
  mk (heap s) (world s) (selectedBody s) (selectedBody s) (isEditing s)
     (isHoldingPlanet s) (editingValues s) (mouseConstraintBody s).

(** [body.field = ...] on the object [r]; nothing happens to a reference
    that holds no object. *)
Definition update (r : nat) (f : Body.t -> Body.t) (s : t) : t :=
  match heap s !! r with
  | Some b => with_heap (<[r := f b]> (heap s)) s
  | None => s
  end.

(** [Matter.World.remove(engine.world, body)]. *)
Definition remove (r : nat) (s : t) : t :=
  with_world (Composite.remove (world s) r) s.

(** [Matter.Composite.allBodies(engine.world)]: a fresh array of the
    world's bodies; later removals do not change it. *)
Definition allBodies (s : t) : list nat := world s.

End Sim.

(** * Physics constants *)

Definition GRAVITY_CONSTANT : float := 0.5.
Definition SUN_MASS : float := 10000.
Definition SUN_RADIUS : float := 40.

(** * Orbital diagnostics *)

(** [calculateOrbitalVelocity]: the radial and tangential components of the
    body's velocity about the sun; zero for a locked or a static body. *)
Definition calculateOrbitalVelocity (body sun : Body.t) : OrbitalVelocity.t :=
  let dx := (Vector.x (Body.position body) - Vector.x (Body.position sun))%float in
  let dy := (Vector.y (Body.position body) - Vector.y (Body.position sun))%float in
  let distance := PrimFloat.sqrt (dx * dx + dy * dy)%float in
  if JS.truthy_flag (Body.isLocked body) || Body.isStatic body then
    {| OrbitalVelocity.radial := 0; OrbitalVelocity.tangential := 0 |}
  else
    let radialX := (dx / distance)%float in
    let radialY := (dy / distance)%float in
    let radialVelocity :=
      (Vector.x (Body.velocity body) * radialX
       + Vector.y (Body.velocity body) * radialY)%float in
    let tangentialVelocity :=
      (Vector.x (Body.velocity body) * radialY
       - Vector.y (Body.velocity body) * radialX)%float in
    {| OrbitalVelocity.radial := radialVelocity;
       OrbitalVelocity.tangential := tangentialVelocity |}.

(** [calculateGravitationalForce]: [F = G * M * m / r^2]. *)
Definition calculateGravitationalForce (body sun : Body.t) : float :=
  let dx := (Vector.x (Body.position sun) - Vector.x (Body.position body))%float in
  let dy := (Vector.y (Body.position sun) - Vector.y (Body.position body))%float in
  let distance := PrimFloat.sqrt (dx * dx + dy * dy)%float in
  let force :=
    ((GRAVITY_CONSTANT * Body.mass sun * Body.mass body)
     / (distance * distance))%float in
  force.

(** What a row of the panel shows: a fixed text, or a number printed with
    [toFixed(2)]. *)
Inductive Shown : Type :=
| Text (s : string)
| ToFixed2 (n : float).

(** The value of the "Radial Velocity" row. *)
Definition radialVelocityRow
  (selectedBody : CelestialBodyProperties.t) (isHoldingPlanet : bool) : Shown :=
  if JS.truthy_flag (CelestialBodyProperties.isSun selectedBody) then Text "0.00"
  else if isHoldingPlanet
          || JS.truthy_flag (CelestialBodyProperties.isLocked selectedBody)
       then Text "0.00"
       else ToFixed2 (OrbitalVelocity.radial
                        (CelestialBodyProperties.orbitalVelocity selectedBody)).

(** The value of the "Tangential Velocity" row. *)
Definition tangentialVelocityRow
  (selectedBody : CelestialBodyProperties.t) (isHoldingPlanet : bool) : Shown :=
  if JS.truthy_flag (CelestialBodyProperties.isSun selectedBody) then Text "0.00"
  else if isHoldingPlanet
          || JS.truthy_flag (CelestialBodyProperties.isLocked selectedBody)
       then Text "0.00"
       else ToFixed2 (PrimFloat.abs
                        (OrbitalVelocity.tangential
                           (CelestialBodyProperties.orbitalVelocity selectedBody))).

(** * The engine's handlers *)

(** [Math.atan2], [Math.cos] and [Math.sin] belong to the host; the
    handlers are stated over whatever the host provides. *)
Module Math.
Record t : Type := mk {
  atan2 : float -> float -> float;
  cos : float -> float;
  sin : float -> float
}.
End Math.

(** [body.isSun] read through a reference. *)
Definition isSunAt (s : Sim.t) (r : nat) : bool :=
  match Sim.heap s !! r with
  | Some b => JS.truthy_flag (Body.isSun b)
  | None => false
  end.

(** [allBodies.find(body => body.isSun)]. *)
Definition findSun (s : Sim.t) (allBodies : list nat) : option nat :=
  List.find (isSunAt s) allBodies.

(** [allBodies.find(b => b.id === id)]. *)
Definition findById (s : Sim.t) (allBodies : list nat) (id : nat) : option nat :=
  List.find
    (fun r => match Sim.heap s !! r with
              | Some b => Nat.eqb (Body.id b) id
              | None => false
              end)
    allBodies.

(** [selectedBodyRef.current && selectedBodyRef.current.id === body.id]. *)
Definition refSelects (s : Sim.t) (body : Body.t) : bool :=
  match Sim.selectedBodyRef s with
  | Some sel => Nat.eqb (CelestialBodyProperties.id sel) (Body.id body)
  | None => false
  end.

(** The body of the gravity loop, on the two objects it reads. *)
Definition applyGravity (M : Math.t) (sun body : Body.t) : Body.t :=
  let dx := (Vector.x (Body.position sun) - Vector.x (Body.position body))%float in
  let dy := (Vector.y (Body.position sun) - Vector.y (Body.position body))%float in
  let distance := PrimFloat.sqrt (dx * dx + dy * dy)%float in
  let force :=
    ((GRAVITY_CONSTANT * Body.mass sun * Body.mass body)
     / (distance * distance))%float in
  let angle := Math.atan2 M dy dx in
  let currentVx := Vector.x (Body.velocity body) in
  let currentVy := Vector.y (Body.velocity body) in
  let acceleration := (force / Body.mass body)%float in
  let accelerationX := (Math.cos M angle * acceleration)%float in
  let accelerationY := (Math.sin M angle * acceleration)%float in
  Body.setVelocity body
    {| Vector.x := (currentVx + accelerationX)%float;
       Vector.y := (currentVy + accelerationY)%float |}.

(** One turn of [allBodies.forEach] in the gravity loop: the sun itself
    and locked planets are skipped. *)
Definition gravityEach (M : Math.t) (sun : nat) (s : Sim.t) (body : nat) : Sim.t :=
  if Nat.eqb body sun then s
  else
    match Sim.heap s !! body, Sim.heap s !! sun with
    | Some b, Some sunBody =>
        if JS.truthy_flag (Body.isLocked b) then s
        else Sim.with_heap (<[body := applyGravity M sunBody b]> (Sim.heap s)) s
    | _, _ => s
    end.

(** One turn of the second loop: a locked body is reset to zero velocity
    through [Matter.Body.setVelocity]; a body that is neither the sun nor
    locked is removed from the world when it is further than 5000 from
    the sun, and the selection is cleared when the ref names it. *)
Definition lockedAndEscapeEach (sun : nat) (s : Sim.t) (body : nat) : Sim.t :=
  match Sim.heap s !! body with
  | None => s
  | Some b =>
      let s1 :=
        if JS.truthy_flag (Body.isLocked b)
        then Sim.update body (fun o => Body.setVelocity o Vector.zero) s
        else s in
      if negb (JS.truthy_flag (Body.isSun b))
         && negb (JS.truthy_flag (Body.isLocked b))
      then
        match Sim.heap s1 !! sun with
        | None => s1
        | Some sunBody =>
            let dx := (Vector.x (Body.position b)
                       - Vector.x (Body.position sunBody))%float in
            let dy := (Vector.y (Body.position b)
                       - Vector.y (Body.position sunBody))%float in
            let distance := PrimFloat.sqrt (dx * dx + dy * dy)%float in
            if PrimFloat.ltb 5000 distance then
              let s2 := Sim.remove body s1 in
              if refSelects s2 b then Sim.setSelectedBody None s2 else s2
            else s1
        end
      else s1
  end.

(** The snapshot the hover block and the click handler build. *)
Definition hoverSnapshot (bodyUnderMouse sun : Body.t) : CelestialBodyProperties.t :=
  {| CelestialBodyProperties.id := Body.id bodyUnderMouse;
     CelestialBodyProperties.name := JS.or_string (Body.name bodyUnderMouse) "Unknown";
     CelestialBodyProperties.mass := Body.mass bodyUnderMouse;
     CelestialBodyProperties.size :=
       match Body.circleRadius bodyUnderMouse with
       | Some r => (r * 2)%float
       | None => PrimFloat.nan
       end;
     CelestialBodyProperties.color :=
       match Body.fillStyle bodyUnderMouse with
       | Some c => if JS.truthy_string c then c else "?"
       | None => "?"
       end;
     CelestialBodyProperties.orbitalVelocity :=
       calculateOrbitalVelocity bodyUnderMouse sun;
     CelestialBodyProperties.isSun := Body.isSun bodyUnderMouse;
     CelestialBodyProperties.isLocked := None |}.

(** The last block of [beforeUpdate]: while the button is down, a planet
    under the pointer that the ref does not name becomes the selection. *)
Definition hoverSelect (pointer : Pointer.t) (sun : nat) (s : Sim.t) : Sim.t :=
  if Pointer.isMouseDown pointer then
    match head (Pointer.bodiesAtPoint pointer) with
    | None => s
    | Some r =>
        match Sim.heap s !! r, Sim.heap s !! sun with
        | Some bodyUnderMouse, Some sunBody =>
            if negb (JS.truthy_flag (Body.isSun bodyUnderMouse))
               && negb (refSelects s bodyUnderMouse)
            then Sim.setSelectedBody (Some (hoverSnapshot bodyUnderMouse sunBody)) s
            else s
        | _, _ => s
        end
    end
  else s.

(** The [beforeUpdate] handler: the per-step code of the simulator. *)
Definition beforeUpdate (M : Math.t) (pointer : Pointer.t) (s : Sim.t) : Sim.t :=
  let allBodies := Sim.allBodies s in
  match findSun s allBodies with
  | None => s
  | Some sun =>
      let s1 := fold_left (gravityEach M sun) allBodies s in
      let s2 := fold_left (lockedAndEscapeEach sun) allBodies s1 in
      hoverSelect pointer sun s2
  end.

(** [Matter.World.remove] of a planet that hit the sun, and the clearing
    of the selection that goes with it. *)
Definition destroyPlanet (planet : nat) (p : Body.t) (s : Sim.t) : Sim.t :=
  let s1 := Sim.remove planet s in
  if refSelects s1 p then Sim.setSelectedBody None s1 else s1.

(** One pair of a [collisionStart] event. *)
Definition collisionStartEach (s : Sim.t) (pair : nat * nat) : Sim.t :=
  let (bodyA, bodyB) := pair in
  match Sim.heap s !! bodyA, Sim.heap s !! bodyB with
  | Some a, Some b =>
      if JS.truthy_flag (Body.isSun a) && negb (JS.truthy_flag (Body.isSun b))
      then destroyPlanet bodyB b s
      else if JS.truthy_flag (Body.isSun b) && negb (JS.truthy_flag (Body.isSun a))
      then destroyPlanet bodyA a s
      else s
  | _, _ => s
  end.

(** The [collisionStart] handler, over the pairs of the event. *)
Definition collisionStart (pairs : list (nat * nat)) (s : Sim.t) : Sim.t :=
  fold_left collisionStartEach pairs s.

(** [if (body.isLocked) Matter.Body.setVelocity(body, { x: 0, y: 0 })]. *)
Definition pinIfLocked (r : nat) (s : Sim.t) : Sim.t :=
  match Sim.heap s !! r with
  | Some b =>
      if JS.truthy_flag (Body.isLocked b)
      then Sim.update r (fun o => Body.setVelocity o Vector.zero) s
      else s
  | None => s
  end.

(** One pair of a [collisionActive] event. *)
Definition collisionActiveEach (s : Sim.t) (pair : nat * nat) : Sim.t :=
  let (bodyA, bodyB) := pair in
  pinIfLocked bodyB (pinIfLocked bodyA s).

(** The [collisionActive] handler, over the pairs of the event. *)
Definition collisionActive (pairs : list (nat * nat)) (s : Sim.t) : Sim.t :=
  fold_left collisionActiveEach pairs s.

(** The 50 ms poll that refreshes the panel's snapshot of the selected
    body and records whether the mouse constraint holds it. *)
Definition pollSelected (s : Sim.t) : Sim.t :=
  match Sim.selectedBody s with
  | None => s
  | Some selectedBody =>
      let allBodies := Sim.allBodies s in
      match findSun s allBodies with
      | None => s
      | Some sun =>
          match findById s allBodies (CelestialBodyProperties.id selectedBody) with
          | Some r =>
              match Sim.heap s !! r, Sim.heap s !! sun with
              | Some body, Some sunBody =>
                  let isCurrentlyHeld :=
                    match Sim.mouseConstraintBody s with
                    | Some held => Nat.eqb held r
                    | None => false
                    end in
                  let orbitalVelocity := calculateOrbitalVelocity body sunBody in
                  Sim.setSelectedBody
                    (Some
                       {| CelestialBodyProperties.id := Body.id body;
                          CelestialBodyProperties.name :=
                            JS.or_string (Body.name body) "Unknown";
                          CelestialBodyProperties.mass :=
                            CelestialBodyProperties.mass selectedBody;
                          CelestialBodyProperties.size :=
                            match Body.circleRadius body with
                            | Some rad => (rad * 2)%float
                            | None => PrimFloat.nan
                            end;
                          CelestialBodyProperties.color :=
                            JS.or_string (Body.color body)
                              (JS.or_string (Body.fillStyle body) "#FFFFFF");
                          CelestialBodyProperties.orbitalVelocity := orbitalVelocity;
                          CelestialBodyProperties.isSun := Body.isSun body;
                          CelestialBodyProperties.isLocked :=
                            Some (JS.nullish_flag (Body.isLocked body) false) |})
                    (Sim.setIsHoldingPlanet isCurrentlyHeld s)
              | _, _ => s
              end
          | None => Sim.setIsHoldingPlanet false (Sim.setSelectedBody None s)
          end
      end
  end.

(** * The edit form *)

(** The "Locked" block, the same in the [Done] commit and in the
    write-through checkbox handler: locking saves the velocity and hands
    the library the zero velocity; unlocking hands it a saved velocity
    and forgets it. *)
Definition applyLocked (isLocked : bool) (body : Body.t) : Body.t :=
  if isLocked then
    let b1 :=
      Body.with_lockedVelocity
        (Some {| Vector.x := Vector.x (Body.velocity body);
                 Vector.y := Vector.y (Body.velocity body) |}) body in
    let b2 := Body.with_isLocked (Some true) b1 in
    Body.setVelocity b2 Vector.zero
  else
    let b1 := Body.with_isLocked (Some false) body in
    match Body.lockedVelocity b1 with
    | Some v => Body.with_lockedVelocity None (Body.setVelocity b1 v)
    | None => b1
    end.

(** [body.circleRadius || body.radius || 1]; a Matter body has no
    [radius] field. *)
Definition oldRadiusOf (body : Body.t) : float :=
  match Body.circleRadius body with
  | Some r => if JS.truthy_number r then r else 1%float
  | None => 1%float
  end.

(** The [Edit] button: the form's buffer starts from the snapshot. *)
Definition editClick (s : Sim.t) : Sim.t :=
  match Sim.selectedBody s with
  | None => s
  | Some selectedBody =>
      Sim.setIsEditing true
        (Sim.setEditingValues
           (Some
              {| EditingValues.name := CelestialBodyProperties.name selectedBody;
                 EditingValues.mass := CelestialBodyProperties.mass selectedBody;
                 EditingValues.size := CelestialBodyProperties.size selectedBody;
                 EditingValues.color := CelestialBodyProperties.color selectedBody;
                 EditingValues.isLocked :=
                   JS.nullish_flag (CelestialBodyProperties.isLocked selectedBody) false |})
           s)
  end.

(** The field handlers of the buffered form.  The number inputs hand over
    [parseFloat(e.target.value)], which is NaN for a text that is not a
    number (the empty field among them). *)
Definition bufferField (f : EditingValues.t -> EditingValues.t) (s : Sim.t) : Sim.t :=
  match Sim.editingValues s with
  | Some editingValues => Sim.setEditingValues (Some (f editingValues)) s
  | None => s
  end.

Definition nameChange (value : string) : Sim.t -> Sim.t :=
  bufferField (EditingValues.with_name value).
Definition massChange (parsed : float) : Sim.t -> Sim.t :=
  bufferField (EditingValues.with_mass parsed).
Definition colorChange (value : string) : Sim.t -> Sim.t :=
  bufferField (EditingValues.with_color value).
Definition lockedChange (checked : bool) : Sim.t -> Sim.t :=
  bufferField (EditingValues.with_isLocked checked).
Definition sizeChange (parsed : float) : Sim.t -> Sim.t :=
  bufferField (EditingValues.with_size parsed).

(** What the [Done] button does to the body it finds. *)
Definition commitToBody
  (selectedBody : CelestialBodyProperties.t) (editingValues : EditingValues.t)
  (body : Body.t) : Body.t :=
  let sunSelected := JS.truthy_flag (CelestialBodyProperties.isSun selectedBody) in
  (* Name *)
  let b1 := Body.with_name (Some (EditingValues.name editingValues)) body in
  (* Mass (only for sun) *)
  let b2 :=
    if sunSelected then
      Body.with_inverseMass (1 / EditingValues.mass editingValues)%float
        (Body.setMass b1 (EditingValues.mass editingValues))
    else b1 in
  (* Color *)
  let b3 :=
    Body.with_color (Some (EditingValues.color editingValues))
      (Body.with_fillStyle (Some (EditingValues.color editingValues)) b2) in
  (* Locked *)
  let b4 :=
    if negb sunSelected
    then applyLocked (EditingValues.isLocked editingValues) b3
    else b3 in
  (* Size *)
  let oldRadius := oldRadiusOf b4 in
  let newRadius := (EditingValues.size editingValues / 2)%float in
  let scale := (newRadius / oldRadius)%float in
  let b5 := Body.scale b4 scale scale in
  let b6 := Body.with_circleRadius (Some newRadius) b5 in
  (* Restore the mass to keep it independent of size *)
  if negb sunSelected then Body.setMass b6 (Body.mass b6) else b6.

(** [{...selectedBody, ...editingValues}]. *)
Definition mergeEdits
  (selectedBody : CelestialBodyProperties.t) (editingValues : EditingValues.t)
  : CelestialBodyProperties.t :=
  {| CelestialBodyProperties.id := CelestialBodyProperties.id selectedBody;
     CelestialBodyProperties.name := EditingValues.name editingValues;
     CelestialBodyProperties.mass := EditingValues.mass editingValues;
     CelestialBodyProperties.size := EditingValues.size editingValues;
     CelestialBodyProperties.color := EditingValues.color editingValues;
     CelestialBodyProperties.orbitalVelocity :=
       CelestialBodyProperties.orbitalVelocity selectedBody;
     CelestialBodyProperties.isSun := CelestialBodyProperties.isSun selectedBody;
     CelestialBodyProperties.isLocked := Some (EditingValues.isLocked editingValues) |}.

(** The [Done] button: the buffered fields are written to the body whose
    id is the selection's, the snapshot takes them over, and the form
    closes. *)
Definition doneClick (s : Sim.t) : Sim.t :=
  match Sim.selectedBody s with
  | None => s
  | Some selectedBody =>
      let s1 :=
        match Sim.editingValues s with
        | Some editingValues =>
            let s' :=
              match findById s (Sim.allBodies s)
                      (CelestialBodyProperties.id selectedBody) with
              | Some r => Sim.update r (commitToBody selectedBody editingValues) s
              | None => s
              end in
            Sim.setSelectedBody (Some (mergeEdits selectedBody editingValues)) s'
        | None => s
        end in
      Sim.setEditingValues None (Sim.setIsEditing false s1)
  end.

(** ** The write-through form

    The sibling variant of the simulator has no buffer to commit: each
    field handler writes to the body as the field changes, and [Done] only
    closes the form. *)
Module WriteThrough.

(** The size field's write to the body: the mass and its inverse are read
    before the shape is scaled and put back after. *)
Definition resizeBody (size : float) (body : Body.t) : Body.t :=
  let currentMass := Body.mass body in
  let currentInverseMass := Body.inverseMass body in
  let oldRadius := oldRadiusOf body in
  let newRadius := (size / 2)%float in
  let scale := (newRadius / oldRadius)%float in
  let b1 := Body.scale body scale scale in
  let b2 := Body.with_circleRadius (Some newRadius) b1 in
  Body.with_inverseMass currentInverseMass (Body.setMass b2 currentMass).

(** The mass field's write to the body. *)
Definition remassBody (mass : float) (body : Body.t) : Body.t :=
  Body.with_inverseMass (1 / mass)%float (Body.setMass body mass).

(** A field handler: the buffer and the snapshot take the value, and the
    body whose id is the selection's is written. *)
Definition writeField
  (inBuffer : EditingValues.t -> EditingValues.t)
  (inSnapshot : CelestialBodyProperties.t -> CelestialBodyProperties.t)
  (onBody : Body.t -> Body.t) (s : Sim.t) : Sim.t :=
  match Sim.editingValues s, Sim.selectedBody s with
  | Some editingValues, Some selectedBody =>
      let s1 :=
        Sim.setSelectedBody (Some (inSnapshot selectedBody))
          (Sim.setEditingValues (Some (inBuffer editingValues)) s) in
      match findById s (Sim.allBodies s) (CelestialBodyProperties.id selectedBody) with
      | Some r => Sim.update r onBody s1
      | None => s1
      end
  | _, _ => s
  end.

Definition massChange (parsed : float) : Sim.t -> Sim.t :=
  writeField (EditingValues.with_mass parsed)
    (fun p => CelestialBodyProperties.mk
                (CelestialBodyProperties.id p) (CelestialBodyProperties.name p)
                parsed (CelestialBodyProperties.size p)
                (CelestialBodyProperties.color p)
                (CelestialBodyProperties.orbitalVelocity p)
                (CelestialBodyProperties.isSun p) (CelestialBodyProperties.isLocked p))
    (remassBody parsed).

Definition lockedChange (checked : bool) : Sim.t -> Sim.t :=
  writeField (EditingValues.with_isLocked checked)
    (fun p => CelestialBodyProperties.mk
                (CelestialBodyProperties.id p) (CelestialBodyProperties.name p)
                (CelestialBodyProperties.mass p) (CelestialBodyProperties.size p)
                (CelestialBodyProperties.color p)
                (CelestialBodyProperties.orbitalVelocity p)
                (CelestialBodyProperties.isSun p) (Some checked))
    (applyLocked checked).

Definition sizeChange (parsed : float) : Sim.t -> Sim.t :=
  writeField (EditingValues.with_size parsed)
    (fun p => CelestialBodyProperties.mk
                (CelestialBodyProperties.id p) (CelestialBodyProperties.name p)
                (CelestialBodyProperties.mass p) parsed
                (CelestialBodyProperties.color p)
                (CelestialBodyProperties.orbitalVelocity p)
                (CelestialBodyProperties.isSun p) (CelestialBodyProperties.isLocked p))
    (resizeBody parsed).

End WriteThrough.

(** * Predicates of the statements *)

(** [b'] is [b] up to its velocity. *)
Definition sameButVelocity (b b' : Body.t) : Prop :=
  Body.with_velocity (Body.velocity b) b' = b.

(** Every object of [h] is still in [h'], up to its velocity. *)
Definition heapFrame (h h' : gmap nat Body.t) : Prop :=
  forall r b, h !! r = Some b ->
    exists b', h' !! r = Some b' /\ sameButVelocity b b'.

(** A state whose world lists each body once and only bodies that exist. *)
Definition wellFormed (s : Sim.t) : Prop :=
  NoDup (Sim.world s)
  /\ forall r, r ∈ Sim.world s -> is_Some (Sim.heap s !! r).

(** The escape test of the second loop, on the two objects it reads. *)
Definition beyondEscape (body sunBody : Body.t) : bool :=
  let dx := (Vector.x (Body.position body)
             - Vector.x (Body.position sunBody))%float in
  let dy := (Vector.y (Body.position body)
             - Vector.y (Body.position sunBody))%float in
  let distance := PrimFloat.sqrt (dx * dx + dy * dy)%float in
  PrimFloat.ltb 5000 distance.

(** A body on which the library's velocity round trip is exact at zero:
    its position is finite and its step length gives a finite
    [timeScale] above zero.  (At a position that is not finite
    [position - position] is NaN, and so is [0 / timeScale] for a
    [timeScale] of zero.) *)
Definition steady (b : Body.t) : bool :=
  JS.is_finite (Vector.x (Body.position b))
  && JS.is_finite (Vector.y (Body.position b))
  && JS.is_positive_finite (Body.deltaTime b / Body._baseDelta).

(** A double that is an infinity or NaN. *)
Definition unbounded (x : float) : Prop :=
  Prim2SF x = S754_nan \/ exists sg, Prim2SF x = S754_infinity sg.

(** A number of the IEEE specification without its sign. *)
Definition unsigned (p : spec_float) : spec_float :=
  match p with
  | S754_zero _ => S754_zero false
  | S754_infinity _ => S754_infinity false
  | S754_nan => S754_nan
  | S754_finite _ m e => S754_finite false m e
  end.

(** [q] is [p] with the other sign, or both are zeros. *)
Definition mirrored (p q : spec_float) : Prop :=
  q = SFopp p \/ (exists s s', p = S754_zero s /\ q = S754_zero s').

(** * Example states *)

(** The host's functions at the arguments the examples reach, where the
    language standard fixes the result: [atan2(+0, x)] is [+0] for [x]
    positive or [+0], [cos(0)] is [1] and [sin(0)] is [0].  Elsewhere the
    examples never look, and this stand-in answers NaN. *)
Definition hostOnAxis : Math.t :=
  {| Math.atan2 := fun y x =>
       if PrimFloat.is_zero y && negb (PrimFloat.get_sign y)
          && (PrimFloat.ltb 0 x || (PrimFloat.is_zero x && negb (PrimFloat.get_sign x)))
       then 0%float else PrimFloat.nan;
     Math.cos := fun a => if PrimFloat.is_zero a then 1%float else PrimFloat.nan;
     Math.sin := fun a => if PrimFloat.is_zero a then a else PrimFloat.nan |}.

(** The sun as the component creates it: static, at the centre of the
    canvas, with [SUN_MASS] and [SUN_RADIUS]; the area is that of the
    polygon Matter draws for the circle. *)
Definition theSun : Body.t :=
  {| Body.id := 0;
     Body.isStatic := true;
     Body.position := {| Vector.x := 400; Vector.y := 400 |};
     Body.velocity := Vector.zero;
     Body.mass := SUN_MASS;
     Body.inverseMass := (1 / SUN_MASS)%float;
     Body.density := (SUN_MASS / 4978)%float;
     Body.area := 4978;
     Body.circleRadius := Some SUN_RADIUS;
     Body.fillStyle := Some "#FFD700"%string;
     Body.isSun := Some true;
     Body.name := Some "Sun"%string;
     Body.isLocked := None;
     Body.lockedVelocity := None;
     Body.color := Some "#FFD700"%string;
     Body.deltaTime := Body._baseDelta |}.

(** A planet as [createPlanet] leaves it: a circle of radius [size] whose
    mass is [size * 2]. *)
Definition planet
  (planetNumber : nat) (position velocity : Vector.t) (size area : float) : Body.t :=
  {| Body.id := planetNumber;
     Body.isStatic := false;
     Body.position := position;
     Body.velocity := velocity;
     Body.mass := (size * 2)%float;
     Body.inverseMass := (1 / (size * 2))%float;
     Body.density := (size * 2 / area)%float;
     Body.area := area;
     Body.circleRadius := Some size;
     Body.fillStyle := Some "#3366cc"%string;
     Body.isSun := Some false;
     Body.name := Some "Planet"%string;
     Body.isLocked := None;
     Body.lockedVelocity := None;
     Body.color := Some "#3366cc"%string;
     Body.deltaTime := Body._baseDelta |}.

(** The panel's snapshot of a body, as the click handler takes it. *)
Definition snapshotOf (body sun : Body.t) : CelestialBodyProperties.t :=
  {| CelestialBodyProperties.id := Body.id body;
     CelestialBodyProperties.name := JS.or_string (Body.name body) "Unknown";
     CelestialBodyProperties.mass := Body.mass body;
     CelestialBodyProperties.size :=
       match Body.circleRadius body with
       | Some r => (r * 2)%float
       | None => PrimFloat.nan
       end;
     CelestialBodyProperties.color :=
       JS.or_string (Body.color body) (JS.or_string (Body.fillStyle body) "#FFFFFF");
     CelestialBodyProperties.orbitalVelocity := calculateOrbitalVelocity body sun;
     CelestialBodyProperties.isSun := Body.isSun body;
     CelestialBodyProperties.isLocked := Body.isLocked body |}.

Definition pointerUp : Pointer.t :=
  {| Pointer.isMouseDown := false; Pointer.bodiesAtPoint := [] |}.

(** Planet 1 rests 150 to the left of the sun; planet 2 is locked, far
    out, and has picked up a velocity; planet 3 is free, 5001 away, and
    selected. *)
Definition inner : Body.t :=
  planet 1 {| Vector.x := 250; Vector.y := 400 |} Vector.zero 15 689.
Definition lockedFar : Body.t :=
  Body.with_lockedVelocity (Some {| Vector.x := 1; Vector.y := 2 |})
    (Body.with_isLocked (Some true)
       (planet 2 {| Vector.x := 7400; Vector.y := 400 |}
          {| Vector.x := 3; Vector.y := 4 |} 10 294)).
Definition runaway : Body.t :=
  planet 3 {| Vector.x := (-4601); Vector.y := 400 |}
    {| Vector.x := (-9); Vector.y := 0 |} 12 432.

Definition system : Sim.t :=
  {| Sim.heap := <[0 := theSun]> (<[1 := inner]> (<[2 := lockedFar]> (<[3 := runaway]> ∅)));
     Sim.world := [0; 1; 2; 3];
     Sim.selectedBody := Some (snapshotOf runaway theSun);
     Sim.selectedBodyRef := Some (snapshotOf runaway theSun);
     Sim.isEditing := false;
     Sim.isHoldingPlanet := false;
     Sim.editingValues := None;
     Sim.mouseConstraintBody := None |}.

(** A sun and one resting planet of the given size and outline area, 150
    to its left. *)
Definition sunAndPlanet (size area : float) : Sim.t :=
  {| Sim.heap :=
       <[0 := theSun]>
         (<[1 := planet 1 {| Vector.x := 250; Vector.y := 400 |} Vector.zero size area]> ∅);
     Sim.world := [0; 1];
     Sim.selectedBody := None;
     Sim.selectedBodyRef := None;
     Sim.isEditing := false;
     Sim.isHoldingPlanet := false;
     Sim.editingValues := None;
     Sim.mouseConstraintBody := None |}.

(** A locked, selected planet that overlaps the sun's disc. *)
Definition lockedTouching : Body.t :=
  Body.with_lockedVelocity (Some {| Vector.x := 0; Vector.y := 6 |})
    (Body.with_isLocked (Some true)
       (planet 2 {| Vector.x := 445; Vector.y := 400 |}
          {| Vector.x := 3; Vector.y := 4 |} 10 294)).

Definition contact : Sim.t :=
  {| Sim.heap := <[0 := theSun]> (<[1 := inner]> (<[2 := lockedTouching]> ∅));
     Sim.world := [0; 1; 2];
     Sim.selectedBody := Some (snapshotOf lockedTouching theSun);
     Sim.selectedBodyRef := Some (snapshotOf lockedTouching theSun);
     Sim.isEditing := false;
     Sim.isHoldingPlanet := false;
     Sim.editingValues := None;
     Sim.mouseConstraintBody := None |}.

(** The same, before the render that lets the ref follow the selection. *)
Definition staleContact : Sim.t :=
  Sim.mk (Sim.heap contact) (Sim.world contact) (Sim.selectedBody contact)
    None false false None None.

(** A planet that sits on the sun's centre. *)
Definition swallowed : Body.t :=
  planet 1 {| Vector.x := 400; Vector.y := 400 |} Vector.zero 15 689.

Definition eclipse : Sim.t :=
  {| Sim.heap := <[0 := theSun]> (<[1 := swallowed]> ∅);
     Sim.world := [0; 1];
     Sim.selectedBody := None;
     Sim.selectedBodyRef := None;
     Sim.isEditing := false;
     Sim.isHoldingPlanet := false;
     Sim.editingValues := None;
     Sim.mouseConstraintBody := None |}.

(** Planet 1, moving, grabbed by the mouse constraint and selected. *)
Definition grabbed : Body.t :=
  planet 1 {| Vector.x := 250; Vector.y := 400 |} {| Vector.x := 2; Vector.y := 5 |} 15 689.

Definition holding : Sim.t :=
  {| Sim.heap := <[0 := theSun]> (<[1 := grabbed]> ∅);
     Sim.world := [0; 1];
     Sim.selectedBody := Some (snapshotOf grabbed theSun);
     Sim.selectedBodyRef := Some (snapshotOf grabbed theSun);
     Sim.isEditing := false;
     Sim.isHoldingPlanet := false;
     Sim.editingValues := None;
     Sim.mouseConstraintBody := Some 1 |}.

(** The state after a click on a body: the snapshot is taken and the ref
    follows at the next render. *)
Definition pick (body : Body.t) (s : Sim.t) : Sim.t :=
  Sim.syncRefs (Sim.setSelectedBody (Some (snapshotOf body theSun)) s).

Definition sunPicked : Sim.t := pick theSun (sunAndPlanet 15 689).
Definition planetPicked : Sim.t := pick inner (sunAndPlanet 15 689).

(** * The rest of the component

    What the physics handlers above do not cover: the panel's position
    rows, the creation of planets, the pointer handlers, the buttons, and
    the component as a whole, as a machine that takes one event at a
    time. *)

(** ** The panel's position rows *)

(** [Math.PI], the double nearest to pi. *)
Definition Math_PI : float := 0x1.921fb54442d18p+1.

Module PlanetPosition.
Record t : Type := mk { distance : float; angle : float }.
End PlanetPosition.

(** [calculatePlanetPosition]: the distance from the sun and the angle in
    degrees, flipped so that it grows counterclockwise on the canvas.
    [remainder] is JavaScript's [%] on numbers, the host's like
    [Math.atan2]. *)
Definition calculatePlanetPosition
  (M : Math.t) (remainder : float -> float -> float) (body sun : Body.t)
  : PlanetPosition.t :=
  let dx := (Vector.x (Body.position body) - Vector.x (Body.position sun))%float in
  let dy := (Vector.y (Body.position body) - Vector.y (Body.position sun))%float in
  let distance := PrimFloat.sqrt (dx * dx + dy * dy)%float in
  let angle := (Math.atan2 M dy dx * (180 / Math_PI))%float in
  {| PlanetPosition.distance := distance;
     PlanetPosition.angle := remainder (360 - angle)%float 360%float |}.

(** ** Planet colours *)

(** The digit of [d] below sixteen, as [Number.prototype.toString(16)]
    writes it. *)
Definition hexDigit (d : N) : ascii :=
  nth (N.to_nat d)
    ["0"; "1"; "2"; "3"; "4"; "5"; "6"; "7"; "8"; "9";
     "a"; "b"; "c"; "d"; "e"; "f"]%char "0"%char.

Fixpoint hexDigits (fuel : nat) (n : N) : string :=
  match fuel with
  | O => EmptyString
  | S fuel' =>
      if N.eqb n 0 then EmptyString
      else (hexDigits fuel' (N.div n 16)
            ++ String (hexDigit (N.modulo n 16)) EmptyString)%string
  end.

(** [n.toString(16)] for a non-negative integer [n]: no leading zero,
    and ["0"] for zero.  A number of [k] bits has at most [k] digits. *)
Definition toString16 (n : N) : string :=
  if N.eqb n 0 then "0"%string else hexDigits (N.to_nat (N.size n)) n.

Fixpoint repeatChar (n : nat) (c : ascii) : string :=
  match n with
  | O => EmptyString
  | S n' => String c (repeatChar n' c)
  end.

(** [s.padStart(targetLength, c)] for a one-character pad. *)
Definition padStart (targetLength : nat) (c : ascii) (s : string) : string :=
  (repeatChar (targetLength - String.length s) c ++ s)%string.

(** [`#${n.toString(16).padStart(6, '0')}`], where [n] is what
    [Math.floor(Math.random() * 16777215)] gave. *)
Definition planetColor (n : N) : string :=
  String "#"%char (padStart 6 "0"%char (toString16 n)).

(** The sibling variants write the colour without the padding. *)
Definition planetColorUnpadded (n : N) : string :=
  String "#"%char (toString16 n).

(** The value of a hexadecimal digit, and of a string of them. *)
Definition hexValue (c : ascii) : option N :=
  let k := N_of_ascii c in
  if (48 <=? k)%N && (k <=? 57)%N then Some (k - 48)%N
  else if (97 <=? k)%N && (k <=? 102)%N then Some (k - 87)%N
  else None.

Fixpoint parseHexFrom (acc : N) (s : string) : option N :=
  match s with
  | EmptyString => Some acc
  | String c rest =>
      match hexValue c with
      | Some d => parseHexFrom (16 * acc + d)%N rest
      | None => None
      end
  end.

(** The number a colour of the form [#rrggbb] stands for. *)
Definition colorValue (color : string) : option N :=
  match color with
  | String "#"%char digits => parseHexFrom 0%N digits
  | _ => None
  end.

(** ** Creating bodies *)

Definition with_id (n : nat) (b : Body.t) : Body.t :=
  Body.mk n (Body.isStatic b) (Body.position b) (Body.velocity b) (Body.mass b)
    (Body.inverseMass b) (Body.density b) (Body.area b) (Body.circleRadius b)
    (Body.fillStyle b) (Body.isSun b) (Body.name b) (Body.isLocked b)
    (Body.lockedVelocity b) (Body.color b) (Body.deltaTime b).

Definition with_isSun (f : option bool) (b : Body.t) : Body.t :=
  Body.mk (Body.id b) (Body.isStatic b) (Body.position b) (Body.velocity b)
    (Body.mass b) (Body.inverseMass b) (Body.density b) (Body.area b)
    (Body.circleRadius b) (Body.fillStyle b) f (Body.name b) (Body.isLocked b)
    (Body.lockedVelocity b) (Body.color b) (Body.deltaTime b).

Module Bodies.

(** Modelled from the library's contract: [Matter.Bodies.circle(x, y,
    radius, options)] is library code, absent from the repository.  It
    makes a body at [(x, y)] whose outline is a regular polygon inscribed
    in the circle, with [circleRadius] the radius; [outlineArea] is the
    area the library computes for that polygon.  The options that the
    simulator passes are the arguments: [id], [isStatic], [mass],
    [velocity] and [render.fillStyle].  The mass is [options.mass], or
    when that is falsy the mass the library had given the body (infinite
    for a static body, density 0.001 times the area otherwise; the
    literal below is the double that [0.001] denotes), and it is stored
    with its inverse and its density as by [setMass]. *)
Definition circle
  (outlineArea : float -> float) (x y radius : float)
  (id : nat) (isStatic : bool) (mass : float) (velocity : Vector.t)
  (fillStyle : string) : Body.t :=
  let area := outlineArea radius in
  let m :=
    if JS.truthy_number mass then mass
    else if isStatic then PrimFloat.infinity
    else (0x1.0624dd2f1a9fcp-10 * area)%float in
  {| Body.id := id;
     Body.isStatic := isStatic;
     Body.position := {| Vector.x := x; Vector.y := y |};
     Body.velocity := velocity;
     Body.mass := m;
     Body.inverseMass := (1 / m)%float;
     Body.density := (m / area)%float;
     Body.area := area;
     Body.circleRadius := Some radius;
     Body.fillStyle := Some fillStyle;
     Body.isSun := None;
     Body.name := None;
     Body.isLocked := None;
     Body.lockedVelocity := None;
     Body.color := None;
     Body.deltaTime := Body._baseDelta |}.

End Bodies.

(** What a call of [createPlanet] takes from outside: the four results of
    [Math.random()] in the order of the calls (the default distance, the
    default size, the angle, and the colour after [Math.floor] of its
    product with 16777215), and the id [Matter] gives the new body before
    the simulator overwrites it. *)
Module Draws.
Record t : Type := mk {
  distance : float;
  size : float;
  angle : float;
  color : N;
  nextId : nat
}.
End Draws.

(** [`Planet ${planetNumber}`]. *)
Definition planetName (planetNumber : nat) : string :=
  ("Planet " ++ NilEmpty.string_of_uint (Nat.to_uint planetNumber))%string.

(** [createPlanet(distance, size, planetNumberOverride)], for the value
    [nextPlanetNumber] that the callback closed over.  The result is the
    new body, and whether [setNextPlanetNumber(prev => prev + 1)] was
    called. *)
Definition createPlanet
  (M : Math.t) (outlineArea : float -> float) (draws : Draws.t)
  (distance size : option float) (planetNumberOverride : option nat)
  (nextPlanetNumber : nat) : Body.t * bool :=
  let distance := default (150 + Draws.distance draws * 150)%float distance in
  let size := default (8 + Draws.size draws * 12)%float size in
  let planetNumber := default nextPlanetNumber planetNumberOverride in
  let counted :=
    match planetNumberOverride with
    | None => true
    | Some _ => false
    end in
  let angle := (Draws.angle draws * Math_PI * 2)%float in
  let x := (400 + Math.cos M angle * distance)%float in
  let y := (400 + Math.sin M angle * distance)%float in
  let orbitSpeed := PrimFloat.sqrt ((GRAVITY_CONSTANT * SUN_MASS) / distance)%float in
  let vx := (Math.sin M angle * orbitSpeed * 1.5)%float in
  let vy := (- Math.cos M angle * orbitSpeed * 1.5)%float in
  let color := planetColor (Draws.color draws) in
  let planet :=
    Bodies.circle outlineArea x y size (Draws.nextId draws) false (size * 2)%float
      {| Vector.x := vx; Vector.y := vy |} color in
  (Body.with_color (Some color)
     (with_id planetNumber
        (Body.with_name (Some (planetName planetNumber))
           (Body.with_circleRadius (Some size)
              (with_isSun (Some false) planet)))),
   counted).

(** The sun as the mount effect creates it. *)
Definition createSun (outlineArea : float -> float) : Body.t :=
  Body.with_color (Some "#FFD700"%string)
    (Body.with_name (Some "Sun"%string)
       (with_isSun (Some true)
          (Bodies.circle outlineArea 400 400 SUN_RADIUS 0 true SUN_MASS
             Vector.zero "#FFD700"))).

(** ** The first variant's planets

    The earliest variant of the simulator has no [planetNumberOverride]:
    [createPlanet] always numbers the planet by the [nextPlanetNumber] it
    closed over.  It also sends the planet round the other way, writes
    the colour without padding, and sets no [color] field.  The counter
    update that every call asks for takes effect at the next render and
    is not part of the result. *)
Definition createPlanetFirst
  (M : Math.t) (outlineArea : float -> float) (draws : Draws.t)
  (distance size : option float) (nextPlanetNumber : nat) : Body.t :=
  let distance := default (150 + Draws.distance draws * 150)%float distance in
  let size := default (8 + Draws.size draws * 12)%float size in
  let planetNumber := nextPlanetNumber in
  let angle := (Draws.angle draws * Math_PI * 2)%float in
  let x := (400 + Math.cos M angle * distance)%float in
  let y := (400 + Math.sin M angle * distance)%float in
  let orbitSpeed := PrimFloat.sqrt ((GRAVITY_CONSTANT * SUN_MASS) / distance)%float in
  let vx := (- Math.sin M angle * orbitSpeed * 1.5)%float in
  let vy := (Math.cos M angle * orbitSpeed * 1.5)%float in
  let color := planetColorUnpadded (Draws.color draws) in
  let planet :=
    Bodies.circle outlineArea x y size (Draws.nextId draws) false (size * 2)%float
      {| Vector.x := vx; Vector.y := vy |} color in
  with_id planetNumber
    (Body.with_name (Some (planetName planetNumber))
       (Body.with_circleRadius (Some size)
          (with_isSun (Some false) planet))).

(** The world the first variant's mount effect builds: the four calls of
    [createPlanet] are made by one render's callback, whose
    [nextPlanetNumber] is the initial 1. *)
Definition mountFirst
  (M : Math.t) (outlineArea : float -> float) (d1 d2 d3 d4 : Draws.t) : Sim.t :=
  let sun :=
    with_isSun (Some true)
      (Bodies.circle outlineArea 400 400 SUN_RADIUS 0 true SUN_MASS
         Vector.zero "#FFD700") in
  let planetOf d distance size :=
    createPlanetFirst M outlineArea d (Some distance) (Some size) 1 in
  {| Sim.heap :=
       <[0 := sun]>
         (<[1 := planetOf d1 100%float 10%float]>
            (<[2 := planetOf d2 150%float 15%float]>
               (<[3 := planetOf d3 200%float 16%float]>
                  (<[4 := planetOf d4 250%float 12%float]> ∅))));
     Sim.world := [0; 1; 2; 3; 4];
     Sim.selectedBody := None;
     Sim.selectedBodyRef := None;
     Sim.isEditing := false;
     Sim.isHoldingPlanet := false;
     Sim.editingValues := None;
     Sim.mouseConstraintBody := None |}.

(** ** The component

    The state the physics handlers do not read: the ref that mirrors
    [isEditing], the [isMouseDown] flag of the mount effect, the collision
    mask of the mouse constraint, the planet counter, and the value of the
    counter that the callback in [createPlanetRef] closed over. *)
Module App.
Record t : Type := mk {
  sim : Sim.t;
  isEditingRef : bool;
  isMouseDown : bool;
  collisionFilterMask : N;
  nextPlanetNumber : nat;
  createPlanetRef : nat
}.

Definition with_sim (s : Sim.t) (a : t) : t :=
  mk s (isEditingRef a) (isMouseDown a) (collisionFilterMask a)
     (nextPlanetNumber a) (createPlanetRef a).
Definition with_isMouseDown (v : bool) (a : t) : t :=
  mk (sim a) (isEditingRef a) v (collisionFilterMask a)
     (nextPlanetNumber a) (createPlanetRef a).
Definition with_collisionFilterMask (v : N) (a : t) : t :=
  mk (sim a) (isEditingRef a) (isMouseDown a) v
     (nextPlanetNumber a) (createPlanetRef a).
Definition setNextPlanetNumber (f : nat -> nat) (a : t) : t :=
  mk (sim a) (isEditingRef a) (isMouseDown a) (collisionFilterMask a)
     (f (nextPlanetNumber a)) (createPlanetRef a).

(** A handler that only touches the simulation state. *)
Definition on_sim (f : Sim.t -> Sim.t) (a : t) : t := with_sim (f (sim a)) a.

(** The effect that runs after a render: the refs take the current
    selection, editing flag and [createPlanet] callback. *)
Definition render (a : t) : t :=
  mk (Sim.syncRefs (sim a)) (Sim.isEditing (sim a)) (isMouseDown a)
     (collisionFilterMask a) (nextPlanetNumber a) (nextPlanetNumber a).

End App.

Definition MASK_ALL : N := 0xFFFFFFFF.
Definition MASK_NONE : N := 0x00000000.

(** [grabModeRef.current]: the ref is created [true] and never written. *)
Definition grabModeRef : bool := true.

(** The canvas's own [mousedown] and [mouseup] listeners. *)
Definition canvasMouseDown (a : App.t) : App.t :=
  let a1 := App.with_isMouseDown true a in
  if grabModeRef && bool_decide (is_Some (Sim.selectedBodyRef (App.sim a)))
  then App.on_sim (Sim.setIsHoldingPlanet true) a1
  else a1.

Definition canvasMouseUp (a : App.t) : App.t :=
  App.on_sim (Sim.setIsHoldingPlanet false) (App.with_isMouseDown false a).

(** [setIsEditing(false); setEditingValues(null)]. *)
Definition closeForm (s : Sim.t) : Sim.t :=
  Sim.setEditingValues None (Sim.setIsEditing false s).

(** The [mousedown] handler of the mouse constraint: a click on a body
    selects it, a click on empty space clears the selection; an edit in
    progress is dropped when the click leaves the edited body; and the
    constraint's mask is cleared for the sun and for a locked body. *)
Definition constraintMouseDown (bodiesAtPoint : list nat) (a : App.t) : App.t :=
  let s := App.sim a in
  let allBodies := Sim.allBodies s in
  let clicked :=
    match head bodiesAtPoint, findSun s allBodies with
    | Some clicked, Some sun =>
        match Sim.heap s !! clicked, Sim.heap s !! sun with
        | Some clickedBody, Some sunBody => Some (clickedBody, sunBody)
        | _, _ => None
        end
    | _, _ => None
    end in
  match clicked with
  | Some (clickedBody, sunBody) =>
      let leavesEdited :=
        App.isEditingRef a
        && match Sim.selectedBodyRef s with
           | Some sel => negb (Nat.eqb (CelestialBodyProperties.id sel) (Body.id clickedBody))
           | None => false
           end in
      let s1 := if leavesEdited then closeForm s else s in
      let s2 := Sim.setSelectedBody (Some (snapshotOf clickedBody sunBody)) s1 in
      App.with_collisionFilterMask
        (if JS.truthy_flag (Body.isSun clickedBody)
            || JS.truthy_flag (Body.isLocked clickedBody)
         then MASK_NONE else MASK_ALL)
        (App.with_sim s2 a)
  | None =>
      let s1 := Sim.setSelectedBody None s in
      App.with_sim (if App.isEditingRef a then closeForm s1 else s1) a
  end.

(** [updateMouseConstraint], the [afterUpdate] handler. *)
Definition afterUpdate (a : App.t) : App.t :=
  App.with_collisionFilterMask MASK_ALL a.

(** The [Delete] button. *)
Definition deleteClick (s : Sim.t) : Sim.t :=
  match Sim.selectedBody s with
  | None => s
  | Some selectedBody =>
      match findById s (Sim.allBodies s) (CelestialBodyProperties.id selectedBody) with
      | Some body => closeForm (Sim.setSelectedBody None (Sim.remove body s))
      | None => s
      end
  end.

(** A button of the "All Planets" list. *)
Definition planetClick (planet : nat) (s : Sim.t) : Sim.t :=
  match findSun s (Sim.allBodies s) with
  | Some sun =>
      match Sim.heap s !! planet, Sim.heap s !! sun with
      | Some planetBody, Some sunBody =>
          let s1 := if Sim.isEditing s then closeForm s else s in
          Sim.setSelectedBody (Some (snapshotOf planetBody sunBody)) s1
      | _, _ => s
      end
  | None => s
  end.

(** [Matter.Composite.add(engine.world, [body])] for a new object: it
    gets an identity no object has, and goes to the end of the world. *)
Definition addBody (body : Body.t) (s : Sim.t) : Sim.t :=
  let r := fresh (dom (Sim.heap s)) in
  Sim.with_world (Sim.world s ++ [r]) (Sim.with_heap (<[r := body]> (Sim.heap s)) s).

(** The [Add Planet] button. *)
Definition addPlanetClick
  (M : Math.t) (outlineArea : float -> float) (draws : Draws.t) (a : App.t) : App.t :=
  let (planet, counted) :=
    createPlanet M outlineArea draws None None None (App.createPlanetRef a) in
  let a1 := if counted then App.setNextPlanetNumber S a else a in
  App.on_sim (addBody planet) a1.

Definition with_position (p : Vector.t) (b : Body.t) : Body.t :=
  Body.mk (Body.id b) (Body.isStatic b) p (Body.velocity b) (Body.mass b)
    (Body.inverseMass b) (Body.density b) (Body.area b) (Body.circleRadius b)
    (Body.fillStyle b) (Body.isSun b) (Body.name b) (Body.isLocked b)
    (Body.lockedVelocity b) (Body.color b) (Body.deltaTime b).

(** Between the handlers Matter's engine moves the bodies (integration,
    collision response, the pull of the mouse constraint).  That is
    library code; all that is assumed of it is that it writes positions,
    velocities and the step length [deltaTime] that [Body.update] records
    on a body, and nothing else: [motion] is whatever it makes of each
    body, in that order. *)
Definition engineUpdate
  (motion : nat -> Body.t -> Vector.t * Vector.t * float) (s : Sim.t) : Sim.t :=
  Sim.with_heap
    (map_imap
       (fun r b =>
          Some (Body.with_deltaTime (snd (motion r b))
                  (with_position (fst (fst (motion r b)))
                     (Body.with_velocity (snd (fst (motion r b))) b))))
       (Sim.heap s))
    s.

(** Matter's mouse constraint takes or lets go of a body. *)
Definition constraintHolds (body : option nat) (s : Sim.t) : Sim.t :=
  Sim.mk (Sim.heap s) (Sim.world s) (Sim.selectedBody s) (Sim.selectedBodyRef s)
    (Sim.isEditing s) (Sim.isHoldingPlanet s) (Sim.editingValues s) body.

(** What can happen to the mounted component. *)
Inductive Event : Type :=
| EngineUpdate (motion : nat -> Body.t -> Vector.t * Vector.t * float)
| BeforeUpdate (bodiesAtPoint : list nat)
| CollisionStart (pairs : list (nat * nat))
| CollisionActive (pairs : list (nat * nat))
| AfterUpdate
| ConstraintHolds (body : option nat)
| ConstraintMouseDown (bodiesAtPoint : list nat)
| CanvasMouseDown
| CanvasMouseUp
| Poll
| EditButton
| NameInput (value : string)
| MassInput (parsed : float)
| ColorInput (value : string)
| LockedInput (checked : bool)
| SizeInput (parsed : float)
| DoneButton
| DeleteButton
| PlanetButton (planet : nat)
| AddPlanetButton (draws : Draws.t).

(** [selectedBody.isSun] of the panel's snapshot. *)
Definition sunSelected (s : Sim.t) : bool :=
  match Sim.selectedBody s with
  | Some sel => JS.truthy_flag (CelestialBodyProperties.isSun sel)
  | None => false
  end.

(** The handler of an event.  A control reacts only while it is
    rendered: the form's fields and [Done] while [isEditing], [Edit] and
    [Delete] while not, [Delete] not for the sun, and a list button for
    a body that is not the sun (the list is that of the last render, so
    the body of a button may have left the world since). *)
Definition handle
  (M : Math.t) (outlineArea : float -> float) (e : Event) (a : App.t) : App.t :=
  let s := App.sim a in
  let whileEditing (f : Sim.t -> Sim.t) :=
    if Sim.isEditing s then App.on_sim f a else a in
  match e with
  | BeforeUpdate bodiesAtPoint =>
      App.on_sim
        (beforeUpdate M {| Pointer.isMouseDown := App.isMouseDown a;
                           Pointer.bodiesAtPoint := bodiesAtPoint |}) a
  | EngineUpdate motion => App.on_sim (engineUpdate motion) a
  | CollisionStart pairs => App.on_sim (collisionStart pairs) a
  | CollisionActive pairs => App.on_sim (collisionActive pairs) a
  | AfterUpdate => afterUpdate a
  | ConstraintHolds body => App.on_sim (constraintHolds body) a
  | ConstraintMouseDown bodiesAtPoint => constraintMouseDown bodiesAtPoint a
  | CanvasMouseDown => canvasMouseDown a
  | CanvasMouseUp => canvasMouseUp a
  | Poll => App.on_sim pollSelected a
  | EditButton => if Sim.isEditing s then a else App.on_sim editClick a
  | NameInput value => whileEditing (nameChange value)
  | MassInput parsed => whileEditing (massChange parsed)
  | ColorInput value => whileEditing (colorChange value)
  | LockedInput checked => whileEditing (lockedChange checked)
  | SizeInput parsed => whileEditing (sizeChange parsed)
  | DoneButton => whileEditing doneClick
  | DeleteButton =>
      if Sim.isEditing s || sunSelected s then a else App.on_sim deleteClick a
  | PlanetButton planet =>
      if negb (isSunAt s planet) then App.on_sim (planetClick planet) a else a
  | AddPlanetButton draws => addPlanetClick M outlineArea draws a
  end.

(** An event is handled, and the component renders before the next. *)
Definition dispatch
  (M : Math.t) (outlineArea : float -> float) (a : App.t) (e : Event) : App.t :=
  App.render (handle M outlineArea e a).

Definition run
  (M : Math.t) (outlineArea : float -> float) (events : list Event) (a : App.t)
  : App.t :=
  fold_left (dispatch M outlineArea) events a.

(** The component once mounted: the sun, the four planets of the mount
    effect at distances 100, 150, 200 and 250, and the counter at 5. *)
Definition mount
  (M : Math.t) (outlineArea : float -> float) (d1 d2 d3 d4 : Draws.t) : App.t :=
  let planetOf d distance size number :=
    fst (createPlanet M outlineArea d (Some distance) (Some size) (Some number) 1) in
  {| App.sim :=
       {| Sim.heap :=
            <[0 := createSun outlineArea]>
              (<[1 := planetOf d1 100%float 10%float 1]>
                 (<[2 := planetOf d2 150%float 15%float 2]>
                    (<[3 := planetOf d3 200%float 16%float 3]>
                       (<[4 := planetOf d4 250%float 12%float 4]> ∅))));
          Sim.world := [0; 1; 2; 3; 4];
          Sim.selectedBody := None;
          Sim.selectedBodyRef := None;
          Sim.isEditing := false;
          Sim.isHoldingPlanet := false;
          Sim.editingValues := None;
          Sim.mouseConstraintBody := None |};
     App.isEditingRef := false;
     App.isMouseDown := false;
     App.collisionFilterMask := MASK_ALL;
     App.nextPlanetNumber := 5;
     App.createPlanetRef := 5 |}.

(** ** The diagnostic of the sibling variants *)

(** [calculateOrbitalVelocity] as the sibling variants of the simulator
    have it: there is no guard for locked or static bodies, and the
    tangential component is taken with the other orientation. *)
Definition calculateOrbitalVelocityUnguarded (body sun : Body.t) : OrbitalVelocity.t :=
  let dx := (Vector.x (Body.position body) - Vector.x (Body.position sun))%float in
  let dy := (Vector.y (Body.position body) - Vector.y (Body.position sun))%float in
  let distance := PrimFloat.sqrt (dx * dx + dy * dy)%float in
  let radialX := (dx / distance)%float in
  let radialY := (dy / distance)%float in
  let radialVelocity :=
    (Vector.x (Body.velocity body) * radialX
     + Vector.y (Body.velocity body) * radialY)%float in
  let tangentialVelocity :=
    (Vector.x (Body.velocity body) * (- radialY)
     + Vector.y (Body.velocity body) * radialX)%float in
  {| OrbitalVelocity.radial := radialVelocity;
     OrbitalVelocity.tangential := tangentialVelocity |}.

(** The suffix of the "Tangential Velocity" row for a planet that is
    neither held nor locked. *)
Definition tangentialSuffix (tangential : float) : string :=
  if PrimFloat.ltb 0 tangential then "(ccw)" else "(cw)".

(** ** Edits of the write-through form *)

(** What is typed into the write-through form's number fields. *)
Inductive FieldEdit : Type :=
| MassEdit (parsed : float)
| SizeEdit (parsed : float).

Definition writeEdit (e : FieldEdit) : Sim.t -> Sim.t :=
  match e with
  | MassEdit parsed => WriteThrough.massChange parsed
  | SizeEdit parsed => WriteThrough.sizeChange parsed
  end.

(** The mass last typed, and the radius that goes with the size last
    typed, if any. *)
Definition lastMass (edits : list FieldEdit) (mass : float) : float :=
  fold_left
    (fun m e => match e with MassEdit parsed => parsed | SizeEdit _ => m end)
    edits mass.

Definition lastRadius (edits : list FieldEdit) (radius : option float) : option float :=
  fold_left
    (fun r e => match e with SizeEdit parsed => Some (parsed / 2)%float | MassEdit _ => r end)
    edits radius.

(** ** What a step keeps and removes *)

(** The test of the escape branch of [beforeUpdate], on the state the
    handler starts from: the body is not the sun, is not locked, and is
    further than 5000 from the sun. *)
Definition escapes (s : Sim.t) (sun r : nat) : bool :=
  match Sim.heap s !! r, Sim.heap s !! sun with
  | Some b, Some sunBody =>
      negb (JS.truthy_flag (Body.isSun b))
      && negb (JS.truthy_flag (Body.isLocked b))
      && beyondEscape b sunBody
  | _, _ => false
  end.

(** The body a pair of a [collisionStart] event destroys, if any. *)
Definition victim (s : Sim.t) (pair : nat * nat) : option nat :=
  let (bodyA, bodyB) := pair in
  match Sim.heap s !! bodyA, Sim.heap s !! bodyB with
  | Some a, Some b =>
      if JS.truthy_flag (Body.isSun a) && negb (JS.truthy_flag (Body.isSun b))
      then Some bodyB
      else if JS.truthy_flag (Body.isSun b) && negb (JS.truthy_flag (Body.isSun a))
      then Some bodyA
      else None
  | _, _ => None
  end.

(** [h'] has the objects of [h] and no other, each up to its velocity. *)
Definition onlyVelocities (h h' : gmap nat Body.t) : Prop :=
  forall r,
    match h !! r, h' !! r with
    | Some b, Some b' => sameButVelocity b b'
    | None, None => True
    | _, _ => False
    end.

(** The fields of the state that the two loops never write. *)
Definition formOf (s : Sim.t) :=
  (Sim.isEditing s, Sim.editingValues s, Sim.isHoldingPlanet s,
   Sim.mouseConstraintBody s, Sim.selectedBodyRef s).

(** [body.isLocked] read through a reference. *)
Definition isLockedAt (s : Sim.t) (r : nat) : bool :=
  match Sim.heap s !! r with
  | Some b => JS.truthy_flag (Body.isLocked b)
  | None => false
  end.

(** The events whose handlers can remove or unlock a locked planet: a
    collision that starts, and the [Done] and [Delete] buttons. *)
Definition sparesLocked (e : Event) : bool :=
  match e with
  | CollisionStart _ | DoneButton | DeleteButton => false
  | _ => true
  end.

(** The locked bodies of the world stay in it, locked. *)
Definition lockedKept (s s' : Sim.t) : Prop :=
  forall x, x ∈ Sim.world s -> isLockedAt s x = true ->
    x ∈ Sim.world s' /\ isLockedAt s' x = true.

(** The inputs of the edit form. *)
Definition isFormInput (e : Event) : bool :=
  match e with
  | NameInput _ | MassInput _ | ColorInput _ | LockedInput _ | SizeInput _ => true
  | _ => false
  end.

(** ** Invariants of the component *)

(** No two body objects share an id. *)
Definition idsUnique (h : gmap nat Body.t) : Prop :=
  forall r1 r2 b1 b2,
    h !! r1 = Some b1 -> h !! r2 = Some b2 -> Body.id b1 = Body.id b2 -> r1 = r2.

(** Every id is below the planet counter. *)
Definition idsBelow (n : nat) (h : gmap nat Body.t) : Prop :=
  forall r b, h !! r = Some b -> Body.id b < n.

(** The snapshot's [isSun] is that of the body with the snapshot's id. *)
Definition snapshotAgrees
  (h : gmap nat Body.t) (sel : option CelestialBodyProperties.t) : Prop :=
  forall p r b,
    sel = Some p -> h !! r = Some b -> Body.id b = CelestialBodyProperties.id p ->
    JS.truthy_flag (Body.isSun b) = JS.truthy_flag (CelestialBodyProperties.isSun p).

(** The snapshot's id is below the planet counter. *)
Definition snapshotBelow (n : nat) (sel : option CelestialBodyProperties.t) : Prop :=
  forall p, sel = Some p -> CelestialBodyProperties.id p < n.

(** The object [0] is the sun, with id 0, it is in the world, and no
    other object is a sun. *)
Definition oneSun (s : Sim.t) : Prop :=
  0 ∈ Sim.world s
  /\ (exists sunBody, Sim.heap s !! 0 = Some sunBody /\ Body.id sunBody = 0)
  /\ forall r, isSunAt s r = true <-> r = 0.

(** The invariant, on the simulation state, for a planet counter [n]. *)
Definition good (n : nat) (s : Sim.t) : Prop :=
  wellFormed s
  /\ idsUnique (Sim.heap s)
  /\ idsBelow n (Sim.heap s)
  /\ snapshotAgrees (Sim.heap s) (Sim.selectedBody s)
  /\ snapshotBelow n (Sim.selectedBody s)
  /\ oneSun s.

Definition invariant (a : App.t) : Prop :=
  good (App.nextPlanetNumber a) (App.sim a)
  /\ App.createPlanetRef a = App.nextPlanetNumber a.

(** What the component goes by to tell bodies apart: the id, and whether
    the body is a sun. *)
Definition ident (b : Body.t) : nat * bool :=
  (Body.id b, JS.truthy_flag (Body.isSun b)).

(** [h'] has the objects of [h] and no other, with the same identities. *)
Definition sameIdentities (h h' : gmap nat Body.t) : Prop :=
  forall r, ident <$> h' !! r = ident <$> h !! r.

(** A change of the simulation state that makes no object, changes no
    identity, only removes from the world, removes no sun, and leaves as
    selection, if any, the former one or a snapshot of an object. *)
Definition stepOk (s s' : Sim.t) : Prop :=
  sameIdentities (Sim.heap s) (Sim.heap s')
  /\ (NoDup (Sim.world s) -> NoDup (Sim.world s'))
  /\ (forall x, x ∈ Sim.world s' -> x ∈ Sim.world s)
  /\ (forall x, x ∈ Sim.world s -> isSunAt s x = true -> x ∈ Sim.world s')
  /\ (forall p', Sim.selectedBody s' = Some p' ->
        (exists p, Sim.selectedBody s = Some p
                   /\ CelestialBodyProperties.id p' = CelestialBodyProperties.id p
                   /\ JS.truthy_flag (CelestialBodyProperties.isSun p')
                      = JS.truthy_flag (CelestialBodyProperties.isSun p))
        \/ (exists r b, Sim.heap s !! r = Some b
                        /\ CelestialBodyProperties.id p' = Body.id b
                        /\ JS.truthy_flag (CelestialBodyProperties.isSun p')
                           = JS.truthy_flag (Body.isSun b))).

(** The ids of the bodies of the world, in composite order. *)
Definition worldIds (s : Sim.t) : list nat :=
  omap (fun r => Body.id <$> Sim.heap s !! r) (Sim.world s).

(** The component around the example states, rendered. *)
Definition appOf (s : Sim.t) (nextPlanetNumber : nat) : App.t :=
  App.render
    {| App.sim := s;
       App.isEditingRef := false;
       App.isMouseDown := false;
       App.collisionFilterMask := MASK_ALL;
       App.nextPlanetNumber := nextPlanetNumber;
       App.createPlanetRef := nextPlanetNumber |}.

(** The engine lets every body drift by its velocity. *)
Definition drift (r : nat) (b : Body.t) : Vector.t * Vector.t * float :=
  ({| Vector.x := (Vector.x (Body.position b) + Vector.x (Body.velocity b))%float;
      Vector.y := (Vector.y (Body.position b) + Vector.y (Body.velocity b))%float |},
   Body.velocity b,
   Body.deltaTime b).

(** Planet 1 runs at [(2, 0)] into planet 2, which is locked and rests 25
    to its right: the two discs, of radius 15 and 10, touch. *)
Definition striker : Body.t :=
  planet 1 {| Vector.x := 250; Vector.y := 400 |} {| Vector.x := 2; Vector.y := 0 |}
    15 689.
Definition lockedNear : Body.t :=
  Body.with_lockedVelocity (Some {| Vector.x := 0; Vector.y := 3 |})
    (Body.with_isLocked (Some true)
       (planet 2 {| Vector.x := 275; Vector.y := 400 |} Vector.zero 10 294)).

Definition firstContact : Sim.t :=
  {| Sim.heap := <[0 := theSun]> (<[1 := striker]> (<[2 := lockedNear]> ∅));
     Sim.world := [0; 1; 2];
     Sim.selectedBody := None;
     Sim.selectedBodyRef := None;
     Sim.isEditing := false;
     Sim.isHoldingPlanet := false;
     Sim.editingValues := None;
     Sim.mouseConstraintBody := None |}.

(** The engine's collision response in the step where that contact
    starts: planet 2, which is not static, is pushed on at [(1, 0)]. *)
Definition recoil (r : nat) (b : Body.t) : Vector.t * Vector.t * float :=
  if Nat.eqb r 2
  then (Body.position b, {| Vector.x := 1; Vector.y := 0 |}, Body.deltaTime b)
  else (Body.position b, Body.velocity b, Body.deltaTime b).

(** A locked planet that the engine has carried off to infinity. *)
Definition lockedAdrift : Body.t :=
  Body.with_isLocked (Some true)
    (planet 2 {| Vector.x := infinity; Vector.y := 400 |} Vector.zero 10 294).

(** Planet 1 on its way at [(0.1, 0.7)], the doubles nearest to them,
    and selected. *)
Definition cruising : Body.t :=
  planet 1 {| Vector.x := 250; Vector.y := 400 |}
    {| Vector.x := 0x1.999999999999ap-4; Vector.y := 0x1.6666666666666p-1 |} 15 689.


(** The outline area of the examples: that of the circle itself, with
    3.14 for pi. *)
Definition roughArea (radius : float) : float :=
  (0x1.91eb851eb851fp+1 * radius * radius)%float.

(** The locked planet of [contact] is being edited when it hits the sun. *)
Definition editingContact : App.t := appOf (editClick contact) 3.

Definition orphanedEdit : App.t :=
  dispatch hostOnAxis roughArea editingContact (CollisionStart [(0, 2)]).

(** * Frames: what the handlers leave alone *)

Lemma sameButVelocity_refl b : sameButVelocity b b.
Proof. destruct b; reflexivity. Qed.

Lemma sameButVelocity_trans b1 b2 b3 :
  sameButVelocity b1 b2 -> sameButVelocity b2 b3 -> sameButVelocity b1 b3.
Proof.
  unfold sameButVelocity; intros H12 H23.
  rewrite <- H12 at 2. rewrite <- H23. reflexivity.
Qed.

Lemma sameButVelocity_setVelocity b v : sameButVelocity b (Body.setVelocity b v).
Proof. destruct b; reflexivity. Qed.

Lemma sameButVelocity_fields b b' :
  sameButVelocity b b' ->
  Body.id b' = Body.id b /\ Body.isStatic b' = Body.isStatic b
  /\ Body.position b' = Body.position b /\ Body.mass b' = Body.mass b
  /\ Body.isSun b' = Body.isSun b /\ Body.isLocked b' = Body.isLocked b
  /\ Body.circleRadius b' = Body.circleRadius b.
Proof. unfold sameButVelocity; intros <-; repeat split. Qed.

Lemma heapFrame_refl h : heapFrame h h.
Proof. intros r b Hr; exists b; split; [done | apply sameButVelocity_refl]. Qed.

Lemma heapFrame_trans h1 h2 h3 :
  heapFrame h1 h2 -> heapFrame h2 h3 -> heapFrame h1 h3.
Proof.
  intros H12 H23 r b Hr.
  destruct (H12 r b Hr) as (b2 & Hb2 & E2).
  destruct (H23 r b2 Hb2) as (b3 & Hb3 & E3).
  exists b3; split; [done | by eapply sameButVelocity_trans].
Qed.

Lemma heapFrame_insert h r b b' :
  h !! r = Some b -> sameButVelocity b b' -> heapFrame h (<[r := b']> h).
Proof.
  intros Hr E x bx Hx. destruct (decide (r = x)) as [-> | Hne].
  - rewrite lookup_insert_eq. exists b'; split; [done | congruence].
  - rewrite lookup_insert_ne by done. exists bx; split; [done | apply sameButVelocity_refl].
Qed.

(** ** The gravity loop *)

Section GravityLoop.
Variable M : Math.t.
Variable sun : nat.

Lemma gravityEach_rest s r :
  Sim.world (gravityEach M sun s r) = Sim.world s
  /\ Sim.selectedBody (gravityEach M sun s r) = Sim.selectedBody s
  /\ Sim.selectedBodyRef (gravityEach M sun s r) = Sim.selectedBodyRef s.
Proof.
  unfold gravityEach. destruct (Nat.eqb r sun); [done |].
  destruct (Sim.heap s !! r) as [b |]; [| done].
  destruct (Sim.heap s !! sun) as [sb |]; [| done].
  destruct (JS.truthy_flag (Body.isLocked b)); done.
Qed.

Lemma gravityEach_other s r x :
  x <> r -> Sim.heap (gravityEach M sun s r) !! x = Sim.heap s !! x.
Proof.
  intros Hne. unfold gravityEach. destruct (Nat.eqb r sun); [done |].
  destruct (Sim.heap s !! r) as [b |]; [| done].
  destruct (Sim.heap s !! sun) as [sb |]; [| done].
  destruct (JS.truthy_flag (Body.isLocked b)); [done |].
  simpl. by rewrite lookup_insert_ne.
Qed.

Lemma gravityEach_sun s r :
  Sim.heap (gravityEach M sun s r) !! sun = Sim.heap s !! sun.
Proof.
  destruct (decide (sun = r)) as [<- | Hne].
  - unfold gravityEach. by rewrite Nat.eqb_refl.
  - by apply gravityEach_other.
Qed.


Lemma gravityEach_frame s r :
  heapFrame (Sim.heap s) (Sim.heap (gravityEach M sun s r)).
Proof.
  unfold gravityEach. destruct (Nat.eqb r sun); [apply heapFrame_refl |].
  destruct (Sim.heap s !! r) as [b |] eqn:Hr; [| apply heapFrame_refl].
  destruct (Sim.heap s !! sun) as [sb |]; [| apply heapFrame_refl].
  destruct (JS.truthy_flag (Body.isLocked b)); [apply heapFrame_refl |].
  simpl. eapply heapFrame_insert; [done |].
  unfold applyGravity. apply sameButVelocity_setVelocity.
Qed.

Lemma gravityLoop_rest l s :
  Sim.world (fold_left (gravityEach M sun) l s) = Sim.world s
  /\ Sim.selectedBody (fold_left (gravityEach M sun) l s) = Sim.selectedBody s
  /\ Sim.selectedBodyRef (fold_left (gravityEach M sun) l s) = Sim.selectedBodyRef s.
Proof.
  revert s; induction l as [| r l IH]; intros s; simpl; [done |].
  destruct (IH (gravityEach M sun s r)) as (-> & -> & ->).
  apply gravityEach_rest.
Qed.


Lemma gravityLoop_sun l s :
  Sim.heap (fold_left (gravityEach M sun) l s) !! sun = Sim.heap s !! sun.
Proof.
  revert s; induction l as [| r l IH]; intros s; simpl; [done |].
  rewrite IH. apply gravityEach_sun.
Qed.

Lemma gravityLoop_frame l s :
  heapFrame (Sim.heap s) (Sim.heap (fold_left (gravityEach M sun) l s)).
Proof.
  revert s; induction l as [| r l IH]; intros s; simpl; [apply heapFrame_refl |].
  eapply heapFrame_trans; [apply gravityEach_frame | apply IH].
Qed.


End GravityLoop.

(** ** Removal from the world *)

Lemma remove_subset l r x : x ∈ Composite.remove l r -> x ∈ l.
Proof.
  induction l as [| a l IH]; simpl; [done |].
  destruct (Nat.eqb a r).
  - intros H; by apply elem_of_cons; right.
  - intros H; apply elem_of_cons in H as [-> | H].
    + apply elem_of_cons; by left.
    + apply elem_of_cons; right; by apply IH.
Qed.

Lemma remove_other l r x : x ∈ l -> x <> r -> x ∈ Composite.remove l r.
Proof.
  intros Hin Hne. induction l as [| a l IH]; simpl; [done |].
  destruct (Nat.eqb_spec a r) as [-> | Har].
  - apply elem_of_cons in Hin as [-> | Hin]; [done | done].
  - apply elem_of_cons in Hin as [-> | Hin].
    + apply elem_of_cons; by left.
    + apply elem_of_cons; right; by apply IH.
Qed.

Lemma remove_NoDup l r : NoDup l -> NoDup (Composite.remove l r).
Proof.
  induction 1 as [| a l Ha Hnd IH]; simpl; [constructor |].
  destruct (Nat.eqb a r); [done |].
  constructor; [| done]. intros H; apply Ha. by eapply remove_subset.
Qed.

Lemma remove_gone l r : NoDup l -> r ∉ Composite.remove l r.
Proof.
  induction 1 as [| a l Ha Hnd IH]; simpl; [apply not_elem_of_nil |].
  destruct (Nat.eqb_spec a r) as [-> | Har]; [done |].
  apply not_elem_of_cons; split; [congruence | done].
Qed.

(** ** The locked-velocity and escape loop *)

Lemma beyondEscape_frame b b' sb sb' :
  sameButVelocity b b' -> sameButVelocity sb sb' ->
  beyondEscape b' sb' = beyondEscape b sb.
Proof.
  intros Hb Hs. unfold beyondEscape.
  destruct (sameButVelocity_fields _ _ Hb) as (_ & _ & -> & _).
  destruct (sameButVelocity_fields _ _ Hs) as (_ & _ & -> & _).
  reflexivity.
Qed.

Lemma update_other r f s x :
  x <> r -> Sim.heap (Sim.update r f s) !! x = Sim.heap s !! x.
Proof.
  intros Hne. unfold Sim.update. destruct (Sim.heap s !! r); [| done].
  simpl. by rewrite lookup_insert_ne.
Qed.

Lemma update_self r f s b :
  Sim.heap s !! r = Some b -> Sim.heap (Sim.update r f s) !! r = Some (f b).
Proof.
  intros Hr. unfold Sim.update. rewrite Hr. simpl. by rewrite lookup_insert_eq.
Qed.

Lemma update_rest r f s :
  Sim.world (Sim.update r f s) = Sim.world s
  /\ Sim.selectedBody (Sim.update r f s) = Sim.selectedBody s
  /\ Sim.selectedBodyRef (Sim.update r f s) = Sim.selectedBodyRef s
  /\ Sim.editingValues (Sim.update r f s) = Sim.editingValues s
  /\ Sim.isEditing (Sim.update r f s) = Sim.isEditing s.
Proof. unfold Sim.update. destruct (Sim.heap s !! r); done. Qed.

Lemma update_frame r s v :
  heapFrame (Sim.heap s)
    (Sim.heap (Sim.update r (fun o => Body.setVelocity o v) s)).
Proof.
  unfold Sim.update. destruct (Sim.heap s !! r) as [b |] eqn:Hr;
    [| apply heapFrame_refl].
  simpl. eapply heapFrame_insert; [done | apply sameButVelocity_setVelocity].
Qed.

Section EscapeLoop.
Variable sun : nat.

(** What one turn does, case by case. *)
Lemma lockedAndEscapeEach_cases s r :
  let s' := lockedAndEscapeEach sun s r in
  Sim.selectedBodyRef s' = Sim.selectedBodyRef s
  /\ heapFrame (Sim.heap s) (Sim.heap s')
  /\ (forall x, x <> r -> Sim.heap s' !! x = Sim.heap s !! x)
  /\ ((Sim.world s' = Sim.world s /\ Sim.selectedBody s' = Sim.selectedBody s)
      \/ (Sim.world s' = Composite.remove (Sim.world s) r
          /\ Sim.heap s' = Sim.heap s
          /\ (Sim.selectedBody s' = Sim.selectedBody s
              \/ Sim.selectedBody s' = None)
          /\ exists b sb, Sim.heap s !! r = Some b
               /\ Sim.heap s !! sun = Some sb
               /\ JS.truthy_flag (Body.isSun b) = false
               /\ JS.truthy_flag (Body.isLocked b) = false
               /\ beyondEscape b sb = true)).
Proof.
  unfold lockedAndEscapeEach.
  destruct (Sim.heap s !! r) as [b |] eqn:Hr.
  2:{ simpl. repeat split; [apply heapFrame_refl | by left]. }
  destruct (JS.truthy_flag (Body.isLocked b)) eqn:Hl.
  - rewrite andb_false_r. cbv zeta.
    destruct (update_rest r (fun o => Body.setVelocity o Vector.zero) s)
      as (Hw & Hsel & Href & _).
    repeat split; [done | apply update_frame | | by left].
    intros x Hx; by apply update_other.
  - rewrite andb_true_r. cbv zeta.
    destruct (JS.truthy_flag (Body.isSun b)) eqn:Hsun; simpl.
    { repeat split; [apply heapFrame_refl | by left]. }
    destruct (Sim.heap s !! sun) as [sb |] eqn:Hs.
    2:{ repeat split; [apply heapFrame_refl | by left]. }
    fold (beyondEscape b sb).
    destruct (beyondEscape b sb) eqn:Hfar.
    2:{ repeat split; [apply heapFrame_refl | by left]. }
    destruct (refSelects (Sim.remove r s) b); simpl.
    + repeat split; [apply heapFrame_refl |]. right.
      repeat split; [by right |]. by exists b, sb.
    + repeat split; [apply heapFrame_refl |]. right.
      repeat split; [by left |]. by exists b, sb.
Qed.

(** A locked body is reset by its own turn and stays in the world. *)
Lemma lockedAndEscapeEach_locked s r b :
  Sim.heap s !! r = Some b -> JS.truthy_flag (Body.isLocked b) = true ->
  Sim.heap (lockedAndEscapeEach sun s r) !! r
  = Some (Body.setVelocity b Vector.zero)
  /\ Sim.world (lockedAndEscapeEach sun s r) = Sim.world s.
Proof.
  intros Hr Hl. unfold lockedAndEscapeEach. rewrite Hr, Hl, andb_false_r.
  split; [| apply update_rest].
  exact (update_self r (fun o => Body.setVelocity o Vector.zero) s b Hr).
Qed.

(** A planet beyond the escape distance is removed by its own turn, and
    the selection is cleared when the ref names it. *)
Lemma lockedAndEscapeEach_escape s r b sb :
  Sim.heap s !! r = Some b -> Sim.heap s !! sun = Some sb ->
  JS.truthy_flag (Body.isSun b) = false ->
  JS.truthy_flag (Body.isLocked b) = false ->
  beyondEscape b sb = true ->
  Sim.world (lockedAndEscapeEach sun s r) = Composite.remove (Sim.world s) r
  /\ (refSelects s b = true ->
      Sim.selectedBody (lockedAndEscapeEach sun s r) = None).
Proof.
  intros Hr Hs Hsun Hl Hfar. unfold lockedAndEscapeEach.
  rewrite Hr, Hl, Hsun. simpl. rewrite Hs.
  fold (beyondEscape b sb). rewrite Hfar.
  replace (refSelects (Sim.remove r s) b) with (refSelects s b) by reflexivity.
  destruct (refSelects s b); simpl; split; done.
Qed.

Lemma escapeLoop_ref l s :
  Sim.selectedBodyRef (fold_left (lockedAndEscapeEach sun) l s)
  = Sim.selectedBodyRef s.
Proof.
  revert s; induction l as [| r l IH]; intros s; simpl; [done |].
  rewrite IH. apply lockedAndEscapeEach_cases.
Qed.

Lemma escapeLoop_other l s x :
  x ∉ l ->
  Sim.heap (fold_left (lockedAndEscapeEach sun) l s) !! x = Sim.heap s !! x.
Proof.
  revert s; induction l as [| r l IH]; intros s Hx; simpl; [done |].
  apply not_elem_of_cons in Hx as [Hne Hx].
  rewrite IH by done. by apply lockedAndEscapeEach_cases.
Qed.

Lemma escapeLoop_subset l s x :
  x ∈ Sim.world (fold_left (lockedAndEscapeEach sun) l s) -> x ∈ Sim.world s.
Proof.
  revert s; induction l as [| r l IH]; intros s; simpl; [done |].
  intros Hx. apply IH in Hx.
  destruct (lockedAndEscapeEach_cases s r) as (_ & _ & _ & [[Hw _] | (Hw & _)]);
    rewrite Hw in Hx; [done | by eapply remove_subset].
Qed.

Lemma escapeLoop_cleared l s :
  Sim.selectedBody s = None ->
  Sim.selectedBody (fold_left (lockedAndEscapeEach sun) l s) = None.
Proof.
  revert s; induction l as [| r l IH]; intros s Hsel; simpl; [done |].
  apply IH.
  destruct (lockedAndEscapeEach_cases s r)
    as (_ & _ & _ & [[_ Hs] | (_ & _ & [Hs | Hs] & _)]); congruence.
Qed.

End EscapeLoop.

Section EscapeLoopBodies.
Variable sun : nat.

Lemma escapeLoop_locked_kept l s x b :
  x ∈ Sim.world s -> Sim.heap s !! x = Some b ->
  JS.truthy_flag (Body.isLocked b) = true ->
  x ∈ Sim.world (fold_left (lockedAndEscapeEach sun) l s).
Proof.
  revert s b; induction l as [| r l IH]; intros s b Hin Hx Hl; simpl; [done |].
  destruct (lockedAndEscapeEach_cases sun s r) as (_ & Hfr & _ & Hcase).
  destruct (Hfr x b Hx) as (b' & Hb' & E).
  destruct (sameButVelocity_fields _ _ E) as (_ & _ & _ & _ & _ & El & _).
  apply (IH _ b'); [| done | congruence].
  destruct Hcase as [[Hw _] | (Hw & _ & _ & b0 & sb & Hr & _ & _ & Hl0 & _)];
    rewrite Hw; [done |].
  apply remove_other; [done |]. intros ->. congruence.
Qed.

Lemma escapeLoop_pinned l s r b :
  NoDup l -> r ∈ l -> Sim.heap s !! r = Some b ->
  JS.truthy_flag (Body.isLocked b) = true ->
  Sim.heap (fold_left (lockedAndEscapeEach sun) l s) !! r
  = Some (Body.setVelocity b Vector.zero).
Proof.
  revert s; induction l as [| r' l IH]; intros s Hnd Hin Hr Hl; simpl.
  - by apply elem_of_nil in Hin.
  - apply NoDup_cons in Hnd as [Hr' Hnd].
    apply elem_of_cons in Hin as [-> | Hin].
    + rewrite escapeLoop_other by done. by apply lockedAndEscapeEach_locked.
    + apply IH; try done.
      destruct (lockedAndEscapeEach_cases sun s r') as (_ & _ & Hoth & _).
      rewrite Hoth; [done | intros ->; contradiction].
Qed.

Lemma escapeLoop_removed l s r b sb :
  NoDup (Sim.world s) -> r ∈ l ->
  Sim.heap s !! r = Some b -> Sim.heap s !! sun = Some sb ->
  JS.truthy_flag (Body.isSun b) = false ->
  JS.truthy_flag (Body.isLocked b) = false ->
  beyondEscape b sb = true ->
  (r ∉ Sim.world (fold_left (lockedAndEscapeEach sun) l s))
  /\ (refSelects s b = true ->
      Sim.selectedBody (fold_left (lockedAndEscapeEach sun) l s) = None).
Proof.
  revert s sb; induction l as [| r' l IH];
    intros s sb Hnd Hin Hr Hs Hsun Hl Hfar; simpl.
  - by apply elem_of_nil in Hin.
  - destruct (decide (r' = r)) as [-> | Hne].
    + destruct (lockedAndEscapeEach_escape sun s r b sb) as [Hw Hsel]; try done.
      split.
      * intros Hx. apply escapeLoop_subset in Hx. rewrite Hw in Hx.
        by apply (remove_gone (Sim.world s) r).
      * intros Href. apply escapeLoop_cleared. by apply Hsel.
    + apply elem_of_cons in Hin as [-> | Hin]; [done |].
      destruct (lockedAndEscapeEach_cases sun s r')
        as (Href & Hfr & Hoth & Hcase).
      destruct (Hfr sun sb Hs) as (sb' & Hs' & E).
      destruct (IH (lockedAndEscapeEach sun s r') sb') as [Hgone Hsel];
        try done.
      * destruct Hcase as [[Hw _] | (Hw & _)]; rewrite Hw;
          [done | by apply remove_NoDup].
      * rewrite Hoth by congruence. done.
      * rewrite <- Hfar. apply beyondEscape_frame;
          [apply sameButVelocity_refl | done].
      * split; [done |]. intros Hr0. apply Hsel.
        unfold refSelects in *. by rewrite Href.
Qed.

End EscapeLoopBodies.

(** ** The hover block *)

Lemma hoverSelect_rest pointer sun s :
  Sim.heap (hoverSelect pointer sun s) = Sim.heap s
  /\ Sim.world (hoverSelect pointer sun s) = Sim.world s.
Proof.
  unfold hoverSelect. destruct (Pointer.isMouseDown pointer); [| done].
  destruct (head (Pointer.bodiesAtPoint pointer)) as [r |]; [| done].
  destruct (Sim.heap s !! r) as [b |]; [| done].
  destruct (Sim.heap s !! sun) as [sb |]; [| done].
  destruct (negb (JS.truthy_flag (Body.isSun b)) && negb (refSelects s b)); done.
Qed.

(** The hover block leaves the selection as it is, or selects a body whose
    id the ref does not hold. *)
Lemma hoverSelect_selection pointer sun s :
  Sim.selectedBody (hoverSelect pointer sun s) = Sim.selectedBody s
  \/ (Pointer.isMouseDown pointer = true
      /\ exists sel, Sim.selectedBody (hoverSelect pointer sun s) = Some sel
           /\ forall cur, Sim.selectedBodyRef s = Some cur ->
                CelestialBodyProperties.id cur <> CelestialBodyProperties.id sel).
Proof.
  unfold hoverSelect. destruct (Pointer.isMouseDown pointer); [| by left].
  destruct (head (Pointer.bodiesAtPoint pointer)) as [r |]; [| by left].
  destruct (Sim.heap s !! r) as [b |]; [| by left].
  destruct (Sim.heap s !! sun) as [sb |]; [| by left].
  destruct (JS.truthy_flag (Body.isSun b)); simpl; [by left |].
  destruct (refSelects s b) eqn:Href; simpl; [by left |].
  right. split; [done |]. eexists; split; [done |].
  intros cur Hcur. unfold refSelects in Href. rewrite Hcur in Href.
  simpl. by apply Nat.eqb_neq.
Qed.

(** ** Bodies the second loop leaves as they are *)



(** ** The collision handlers *)

Lemma destroyPlanet_cases planet p s :
  Sim.heap (destroyPlanet planet p s) = Sim.heap s
  /\ Sim.selectedBodyRef (destroyPlanet planet p s) = Sim.selectedBodyRef s
  /\ Sim.world (destroyPlanet planet p s) = Composite.remove (Sim.world s) planet
  /\ (Sim.selectedBody (destroyPlanet planet p s) = Sim.selectedBody s
      \/ Sim.selectedBody (destroyPlanet planet p s) = None)
  /\ (refSelects s p = true -> Sim.selectedBody (destroyPlanet planet p s) = None).
Proof.
  unfold destroyPlanet.
  replace (refSelects (Sim.remove planet s) p) with (refSelects s p) by reflexivity.
  destruct (refSelects s p); simpl; repeat split; auto; done.
Qed.

Lemma collisionStartEach_cases s pair :
  Sim.heap (collisionStartEach s pair) = Sim.heap s
  /\ Sim.selectedBodyRef (collisionStartEach s pair) = Sim.selectedBodyRef s
  /\ (NoDup (Sim.world s) -> NoDup (Sim.world (collisionStartEach s pair)))
  /\ (forall x, x ∈ Sim.world (collisionStartEach s pair) -> x ∈ Sim.world s)
  /\ (Sim.selectedBody s = None ->
      Sim.selectedBody (collisionStartEach s pair) = None).
Proof.
  destruct pair as [bodyA bodyB]. unfold collisionStartEach.
  destruct (Sim.heap s !! bodyA) as [a |]; [| done].
  destruct (Sim.heap s !! bodyB) as [b |]; [| done].
  destruct (JS.truthy_flag (Body.isSun a) && negb (JS.truthy_flag (Body.isSun b))).
  - destruct (destroyPlanet_cases bodyB b s) as (Hh & Hr & Hw & Hs & _).
    rewrite Hh, Hr, Hw. repeat split.
    + apply remove_NoDup.
    + intros x; apply remove_subset.
    + intros Hn. destruct Hs; congruence.
  - destruct (JS.truthy_flag (Body.isSun b) && negb (JS.truthy_flag (Body.isSun a)));
      [| done].
    destruct (destroyPlanet_cases bodyA a s) as (Hh & Hr & Hw & Hs & _).
    rewrite Hh, Hr, Hw. repeat split.
    + apply remove_NoDup.
    + intros x; apply remove_subset.
    + intros Hn. destruct Hs; congruence.
Qed.

Lemma collisionStart_rest pairs s :
  Sim.heap (collisionStart pairs s) = Sim.heap s
  /\ Sim.selectedBodyRef (collisionStart pairs s) = Sim.selectedBodyRef s
  /\ (forall x, x ∈ Sim.world (collisionStart pairs s) -> x ∈ Sim.world s)
  /\ (Sim.selectedBody s = None -> Sim.selectedBody (collisionStart pairs s) = None).
Proof.
  unfold collisionStart. revert s; induction pairs as [| p pairs IH];
    intros s; simpl; [done |].
  destruct (collisionStartEach_cases s p) as (Hh & Hr & _ & Hsub & Hsel).
  destruct (IH (collisionStartEach s p)) as (Hh' & Hr' & Hsub' & Hsel').
  rewrite Hh', Hr'. repeat split; auto.
Qed.

(** A pair of the sun and a planet, in either order, destroys the planet. *)
Lemma collisionStartEach_destroys s sunRef planet sb p :
  Sim.heap s !! sunRef = Some sb -> Sim.heap s !! planet = Some p ->
  JS.truthy_flag (Body.isSun sb) = true ->
  JS.truthy_flag (Body.isSun p) = false ->
  forall pair, pair = (sunRef, planet) \/ pair = (planet, sunRef) ->
  collisionStartEach s pair = destroyPlanet planet p s.
Proof.
  intros Hs Hp Hsun Hpl pair [-> | ->]; unfold collisionStartEach;
    rewrite Hs, Hp, Hsun, Hpl; reflexivity.
Qed.

Lemma pinIfLocked_frame r s :
  heapFrame (Sim.heap s) (Sim.heap (pinIfLocked r s)).
Proof.
  unfold pinIfLocked. destruct (Sim.heap s !! r) as [b |]; [| apply heapFrame_refl].
  destruct (JS.truthy_flag (Body.isLocked b));
    [apply update_frame | apply heapFrame_refl].
Qed.

(** ** The example states are well formed *)

Lemma system_wellFormed : wellFormed system.
Proof.
  split; [compute_done | intros r Hr; vm_compute in Hr |- *].
  repeat (apply elem_of_cons in Hr as [-> | Hr]; [by eexists |]).
  by apply elem_of_nil in Hr.
Qed.

(** * The gravity pass (C1) *)




(** The same at the step length of the running simulation, where the
    library's [timeScale] is [0.5]: the resting planet is handed
    [0.2222222222222222] and keeps [0.22222222222222854]. *)
Example gravity_step_at_half_speed :
  let stepped := Body.with_deltaTime (Body._baseDelta * 0.5) inner in
  (Body.deltaTime stepped / Body._baseDelta)%float = 0.5%float
  /\ Body.velocity (applyGravity hostOnAxis theSun stepped)
     = {| Vector.x := 0x1.c71c71c71c8p-3; Vector.y := 0 |}.
Proof. split; reflexivity. Qed.

(** * Escape culling (C5) *)

(** C5.  In every run of [beforeUpdate] that finds the sun, a planet that
    is not locked and whose distance from the sun exceeds 5000 is out of
    the world when the handler returns; when the ref named it, the handler
    clears the selection, so that afterwards the selection is empty (it is
    whenever the pointer's button is up) or is a body under the pointer
    with another id.  A locked planet is still in the world when the
    handler returns, whatever its distance. *)
Theorem beforeUpdate_escape
  (M : Math.t) (pointer : Pointer.t) (s : Sim.t) (sun r : nat)
  (sunBody b : Body.t) :
  wellFormed s ->
  findSun s (Sim.allBodies s) = Some sun ->
  Sim.heap s !! sun = Some sunBody ->
  r ∈ Sim.world s ->
  Sim.heap s !! r = Some b ->
  JS.truthy_flag (Body.isSun b) = false ->
  (JS.truthy_flag (Body.isLocked b) = false ->
   beyondEscape b sunBody = true ->
   (r ∉ Sim.world (beforeUpdate M pointer s))
   /\ (refSelects s b = true ->
       (Pointer.isMouseDown pointer = false ->
        Sim.selectedBody (beforeUpdate M pointer s) = None)
       /\ (forall sel, Sim.selectedBody (beforeUpdate M pointer s) = Some sel ->
           CelestialBodyProperties.id sel <> Body.id b)))
  /\ (JS.truthy_flag (Body.isLocked b) = true ->
      r ∈ Sim.world (beforeUpdate M pointer s)).
Proof.
  intros [Hnd Hwf] Hfind Hs Hin Hr Hsun.
  unfold beforeUpdate. rewrite Hfind. unfold Sim.allBodies in *.
  set (s1 := fold_left (gravityEach M sun) (Sim.world s) s).
  set (s2 := fold_left (lockedAndEscapeEach sun) (Sim.world s) s1).
  destruct (gravityLoop_rest M sun (Sim.world s) s) as (Hw1 & _ & Hr1).
  destruct (gravityLoop_frame M sun (Sim.world s) s r b Hr) as (b1 & Hb1 & E1).
  destruct (sameButVelocity_fields _ _ E1) as (Eid & _ & _ & _ & Esun & El & _).
  pose proof (gravityLoop_sun M sun (Sim.world s) s) as Hs1. rewrite Hs in Hs1.
  fold s1 in Hw1, Hr1, Hb1, Hs1.
  destruct (hoverSelect_rest pointer sun s2) as [_ Hw3]. rewrite Hw3.
  split.
  - intros Hl Hfar.
    destruct (escapeLoop_removed sun (Sim.world s) s1 r b1 sunBody) as [Hgone Hsel];
      try congruence.
    { rewrite <- Hfar. apply beyondEscape_frame; [done | apply sameButVelocity_refl]. }
    split; [exact Hgone |]. intros Href.
    assert (Hnone : Sim.selectedBody s2 = None).
    { apply Hsel. unfold refSelects in *. rewrite Hr1, Eid. exact Href. }
    destruct (hoverSelect_selection pointer sun s2) as [Hsame | (Hdown & sel & Hnew & Hid)].
    + rewrite Hsame, Hnone. split; [done | intros sel Habs; discriminate Habs].
    + split; [intros Hup; congruence |].
      intros sel' Hsel'. rewrite Hnew in Hsel'. injection Hsel' as <-.
      unfold s2 in Hid. rewrite escapeLoop_ref, Hr1 in Hid.
      unfold refSelects in Href.
      destruct (Sim.selectedBodyRef s) as [cur |]; [| discriminate Href].
      apply Nat.eqb_eq in Href. specialize (Hid cur eq_refl). congruence.
  - intros Hl. apply (escapeLoop_locked_kept sun (Sim.world s) s1 r b1);
      [by rewrite Hw1 | done | congruence].
Qed.

Lemma beforeUpdate_escape_witness :
  (3 ∉ Sim.world (beforeUpdate hostOnAxis pointerUp system))
  /\ Sim.selectedBody (beforeUpdate hostOnAxis pointerUp system) = None
  /\ 2 ∈ Sim.world (beforeUpdate hostOnAxis pointerUp system).
Proof.
  pose proof (beforeUpdate_escape hostOnAxis pointerUp system 0 3 theSun runaway
                system_wellFormed eq_refl eq_refl ltac:(compute_done)
                eq_refl eq_refl) as [Hfree _].
  pose proof (beforeUpdate_escape hostOnAxis pointerUp system 0 2 theSun lockedFar
                system_wellFormed eq_refl eq_refl ltac:(compute_done)
                eq_refl eq_refl) as [_ Hlocked].
  destruct (Hfree eq_refl eq_refl) as [Hgone Hsel].
  destruct (Hsel eq_refl) as [Hnone _].
  exact (conj Hgone (conj (Hnone eq_refl) (Hlocked eq_refl))).
Defined.

(** * Collision with the sun (C6) *)

Lemma collisionStart_destroys_some pairs s sunRef planet sb p :
  NoDup (Sim.world s) ->
  Sim.heap s !! sunRef = Some sb -> Sim.heap s !! planet = Some p ->
  JS.truthy_flag (Body.isSun sb) = true ->
  JS.truthy_flag (Body.isSun p) = false ->
  (exists pair, pair ∈ pairs
                /\ (pair = (sunRef, planet) \/ pair = (planet, sunRef))) ->
  (planet ∉ Sim.world (collisionStart pairs s))
  /\ (refSelects s p = true -> Sim.selectedBody (collisionStart pairs s) = None).
Proof.
  intros Hnd Hs Hp Hsun Hpl (pair & Hin & Hpair).
  revert s Hnd Hs Hp. induction pairs as [| p0 pairs IH]; intros s Hnd Hs Hp.
  - by apply elem_of_nil in Hin.
  - unfold collisionStart; simpl. fold (collisionStart pairs (collisionStartEach s p0)).
    destruct (collisionStart_rest pairs (collisionStartEach s p0))
      as (_ & _ & Hsub & Hsel).
    destruct (decide (p0 = (sunRef, planet) \/ p0 = (planet, sunRef))) as [Hhit | Hmiss].
    + rewrite (collisionStartEach_destroys s sunRef planet sb p Hs Hp Hsun Hpl p0 Hhit)
        in Hsub, Hsel |- *.
      destruct (destroyPlanet_cases planet p s) as (_ & _ & Hw & _ & Hclear).
      split.
      * intros Hx. apply Hsub in Hx. rewrite Hw in Hx.
        by apply (remove_gone (Sim.world s) planet).
      * intros Href. apply Hsel. by apply Hclear.
    + apply elem_of_cons in Hin as [-> | Hin]; [contradiction |].
      destruct (collisionStartEach_cases s p0) as (Hh & Href & Hnd' & _ & _).
      destruct (IH Hin (collisionStartEach s p0)) as [Hgone Hclear];
        [by apply Hnd' | by rewrite Hh | by rewrite Hh |].
      split; [done |]. intros Hr0. apply Hclear.
      unfold refSelects in *. by rewrite Href.
Qed.

(** C6.  When a [collisionStart] event carries the pair of the sun and a
    planet, in either order, the planet is out of the world when the
    handler returns, whether or not it is locked, and when the ref named
    it the selection is cleared by the same run of the handler. *)
Theorem collisionStart_destroys_planet
  (pairs : list (nat * nat)) (s : Sim.t) (sunRef planet : nat) (sb p : Body.t) :
  NoDup (Sim.world s) ->
  Sim.heap s !! sunRef = Some sb ->
  Sim.heap s !! planet = Some p ->
  JS.truthy_flag (Body.isSun sb) = true ->
  JS.truthy_flag (Body.isSun p) = false ->
  (sunRef, planet) ∈ pairs \/ (planet, sunRef) ∈ pairs ->
  (planet ∉ Sim.world (collisionStart pairs s))
  /\ (refSelects s p = true -> Sim.selectedBody (collisionStart pairs s) = None).
Proof.
  intros Hnd Hs Hp Hsun Hpl Hin.
  apply (collisionStart_destroys_some pairs s sunRef planet sb p); try done.
  destruct Hin as [Hin | Hin]; eexists; (split; [exact Hin |]); [by left | by right].
Qed.

Lemma collisionStart_destroys_planet_witness :
  JS.truthy_flag (Body.isLocked lockedTouching) = true
  /\ (2 ∉ Sim.world (collisionStart [(2, 0)] contact))
  /\ Sim.selectedBody (collisionStart [(2, 0)] contact) = None.
Proof.
  split; [reflexivity |].
  destruct (collisionStart_destroys_planet [(2, 0)] contact 0 2 theSun lockedTouching
              ltac:(compute_done) eq_refl eq_refl eq_refl eq_refl
              ltac:(right; compute_done)) as [Hgone Hsel].
  exact (conj Hgone (Hsel eq_refl)).
Defined.

(** * Facts about double-precision arithmetic *)

Lemma float_of_spec (x : float) (p : spec_float) : Prim2SF x = p -> x = SF2Prim p.
Proof. intros <-. symmetry. apply SF2Prim_Prim2SF. Qed.

Lemma Prim2SF_zero : Prim2SF 0 = S754_zero false.
Proof. reflexivity. Qed.

Lemma Prim2SF_infinity : Prim2SF infinity = S754_infinity false.
Proof. reflexivity. Qed.

(** There is one NaN. *)
Lemma is_nan_eq x : PrimFloat.is_nan x = true -> x = nan.
Proof.
  unfold PrimFloat.is_nan. rewrite FloatAxioms.eqb_spec. intros H.
  apply (float_of_spec x S754_nan).
  destruct (Prim2SF x) as [sg | sg | | sg m e]; try reflexivity; exfalso.
  - discriminate H.
  - destruct sg; discriminate H.
  - unfold SFeqb, SFcompare in H. rewrite Z.compare_refl in H.
    assert (E : PosDef.Pos.compare_cont Eq m m = Eq) by apply Pos.compare_cont_refl.
    rewrite E in H. destruct sg; discriminate H.
Qed.

Lemma finite_cases x :
  JS.is_finite x = true ->
  (exists sg, Prim2SF x = S754_zero sg)
  \/ (exists sg m e, Prim2SF x = S754_finite sg m e).
Proof.
  unfold JS.is_finite, PrimFloat.is_nan, PrimFloat.is_infinity.
  rewrite !FloatAxioms.eqb_spec, FloatAxioms.abs_spec, Prim2SF_infinity.
  destruct (Prim2SF x) as [sg | sg | | sg m e]; intros H.
  - left; eauto.
  - destruct sg; discriminate H.
  - discriminate H.
  - right; eauto.
Qed.

Lemma positive_finite_cases x :
  JS.is_positive_finite x = true -> exists m e, Prim2SF x = S754_finite false m e.
Proof.
  unfold JS.is_positive_finite, PrimFloat.is_infinity.
  rewrite FloatAxioms.ltb_spec, FloatAxioms.eqb_spec, FloatAxioms.abs_spec,
    Prim2SF_infinity, Prim2SF_zero.
  destruct (Prim2SF x) as [sg | sg | | sg m e]; intros H; try discriminate H.
  - destruct sg; discriminate H.
  - destruct sg; [discriminate H | eauto].
Qed.

(** A positive finite number over zero is [+Infinity]: nothing is raised. *)
Lemma div_positive_by_zero x :
  JS.is_positive_finite x = true -> (x / 0)%float = infinity.
Proof.
  intros H. destruct (positive_finite_cases x H) as (m & e & E).
  apply (float_of_spec _ (S754_infinity false)).
  rewrite div_spec, E, Prim2SF_zero. reflexivity.
Qed.

(** A finite number minus itself is [+0]. *)
Lemma sub_diag_finite x : JS.is_finite x = true -> (x - x)%float = 0%float.
Proof.
  intros H. apply (float_of_spec _ (S754_zero false)). rewrite sub_spec.
  destruct (finite_cases x H) as [[sg E] | (sg & m & e & E)]; rewrite E.
  - destruct sg; reflexivity.
  - unfold SF64sub, SFsub. rewrite Z.sub_diag. reflexivity.
Qed.

Lemma nan_div_l y : (nan / y)%float = nan.
Proof. apply (float_of_spec _ S754_nan). rewrite div_spec. reflexivity. Qed.

Lemma nan_mul_l y : (nan * y)%float = nan.
Proof. apply (float_of_spec _ S754_nan). rewrite mul_spec. reflexivity. Qed.

(** ** The round trip of [Matter.Body.setVelocity] *)

Lemma zero_mul_positive ts :
  JS.is_positive_finite ts = true -> (0 * ts)%float = 0%float.
Proof.
  intros H. destruct (positive_finite_cases ts H) as (m & e & E).
  apply (float_of_spec _ (S754_zero false)).
  rewrite mul_spec, E, Prim2SF_zero. reflexivity.
Qed.

Lemma zero_div_positive ts :
  JS.is_positive_finite ts = true -> (0 / ts)%float = 0%float.
Proof.
  intros H. destruct (positive_finite_cases ts H) as (m & e & E).
  apply (float_of_spec _ (S754_zero false)).
  rewrite div_spec, E, Prim2SF_zero. reflexivity.
Qed.

Lemma sub_zero_finite x : JS.is_finite x = true -> (x - 0)%float = x.
Proof.
  intros H. apply Prim2SF_inj. rewrite sub_spec, Prim2SF_zero.
  destruct (finite_cases x H) as [[sg E] | (sg & m & e & E)]; rewrite E;
    [destruct sg |]; reflexivity.
Qed.

(** At a finite position and with a finite [timeScale] above zero, the
    library stores a zero velocity as [(0, 0)]. *)
Lemma setVelocity_zero b :
  steady b = true -> Body.velocity (Body.setVelocity b Vector.zero) = Vector.zero.
Proof.
  unfold steady. intros H.
  apply andb_true_iff in H as [H Hts]. apply andb_true_iff in H as [Hx Hy].
  unfold Body.setVelocity, Vector.zero.
  cbn [Body.velocity Body.with_velocity Vector.x Vector.y].
  rewrite (zero_mul_positive _ Hts), (sub_zero_finite _ Hx), (sub_zero_finite _ Hy),
    (sub_diag_finite _ Hx), (sub_diag_finite _ Hy), (zero_div_positive _ Hts).
  reflexivity.
Qed.

(** The quotient of [Infinity] by anything is an infinity or NaN, and so
    are its products and its sums with anything. *)
Lemma infinity_div_unbounded m : unbounded (infinity / m)%float.
Proof.
  unfold unbounded. rewrite div_spec, Prim2SF_infinity.
  destruct (Prim2SF m); simpl; eauto.
Qed.

Lemma mul_unbounded c y : unbounded y -> unbounded (c * y)%float.
Proof.
  unfold unbounded. rewrite mul_spec.
  intros [-> | [sg ->]]; destruct (Prim2SF c); simpl; eauto.
Qed.

Lemma add_unbounded v y : unbounded y -> unbounded (v + y)%float.
Proof.
  unfold unbounded. rewrite add_spec.
  intros [-> | [sg ->]]; destruct (Prim2SF v) as [s0 | s0 | | s0 m0 e0]; simpl;
    eauto.
  destruct s0, sg; eauto.
Qed.

(** The round trip through the position gives an infinity or NaN back as
    it is. *)
Lemma round_trip_unbounded p w ts :
  JS.is_finite p = true -> JS.is_positive_finite ts = true -> unbounded w ->
  ((p - (p - w * ts)) / ts)%float = w.
Proof.
  intros Hp Hts Hw. destruct (positive_finite_cases ts Hts) as (m & e & Ets).
  apply Prim2SF_inj. rewrite div_spec, !sub_spec, mul_spec, Ets.
  destruct Hw as [-> | [sg ->]];
    destruct (finite_cases p Hp) as [[s0 ->] | (s0 & m0 & e0 & ->)];
    try reflexivity; destruct sg; reflexivity.
Qed.

(** * Coincident centres (C3) *)

(** C3, as amended.  For a body whose centre is the sun's, the force
    computation raises nothing, and it clamps nothing either: the
    distance it computes is [0], and the force is [+Infinity] whenever
    [G * M_sun * m_body] is positive and finite.  The gravity loop
    computes the same force, so the velocity it stores is built from the
    acceleration [Infinity / m_body]: that velocity goes to
    [Matter.Body.setVelocity], whose round trip through the position
    keeps it as it is, as long as the body's [timeScale] is finite and
    above zero. *)
Theorem coincident_force_is_infinite (M : Math.t) (body sun : Body.t) :
  Body.position body = Body.position sun ->
  JS.is_finite (Vector.x (Body.position sun)) = true ->
  JS.is_finite (Vector.y (Body.position sun)) = true ->
  JS.is_positive_finite (GRAVITY_CONSTANT * Body.mass sun * Body.mass body) = true ->
  let stored :=
    {| Vector.x :=
         (Vector.x (Body.velocity body)
          + Math.cos M (Math.atan2 M 0 0) * (infinity / Body.mass body))%float;
       Vector.y :=
         (Vector.y (Body.velocity body)
          + Math.sin M (Math.atan2 M 0 0) * (infinity / Body.mass body))%float |} in
  calculateGravitationalForce body sun = infinity
  /\ applyGravity M sun body = Body.setVelocity body stored
  /\ (JS.is_positive_finite (Body.deltaTime body / Body._baseDelta) = true ->
      Body.velocity (applyGravity M sun body) = stored).
Proof.
  intros Hpos Hx Hy Hnum stored.
  assert (Hforce :
    ((GRAVITY_CONSTANT * Body.mass sun * Body.mass body)
     / (PrimFloat.sqrt (0 * 0 + 0 * 0) * PrimFloat.sqrt (0 * 0 + 0 * 0)))%float
    = infinity).
  { change (PrimFloat.sqrt (0 * 0 + 0 * 0) * PrimFloat.sqrt (0 * 0 + 0 * 0))%float
      with 0%float.
    by apply div_positive_by_zero. }
  assert (Hgravity : applyGravity M sun body = Body.setVelocity body stored).
  { unfold applyGravity. rewrite Hpos.
    rewrite !(sub_diag_finite _ Hx), !(sub_diag_finite _ Hy).
    cbv zeta. rewrite Hforce. reflexivity. }
  split; [| split; [exact Hgravity |]].
  - unfold calculateGravitationalForce. rewrite Hpos.
    rewrite !(sub_diag_finite _ Hx), !(sub_diag_finite _ Hy).
    cbv zeta. exact Hforce.
  - intros Hts. rewrite Hgravity. unfold Body.setVelocity, stored.
    cbn [Body.velocity Body.with_velocity Vector.x Vector.y].
    rewrite Hpos.
    rewrite (round_trip_unbounded _ _ _ Hx Hts),
      (round_trip_unbounded _ _ _ Hy Hts); [reflexivity | |];
      apply add_unbounded, mul_unbounded, infinity_div_unbounded.
Qed.

Lemma coincident_force_is_infinite_witness :
  calculateGravitationalForce swallowed theSun = infinity
  /\ Body.velocity (applyGravity hostOnAxis theSun swallowed)
     = {| Vector.x := (0 + 1 * (infinity / 30))%float;
          Vector.y := (0 + 0 * (infinity / 30))%float |}.
Proof.
  destruct (coincident_force_is_infinite hostOnAxis swallowed theSun)
    as (Hforce & _ & Hstored); [reflexivity .. |].
  split; [exact Hforce | apply Hstored; reflexivity].
Defined.

(** C3 as stated fails: with the planet on the sun's centre the force is
    not finite, and the step stores a velocity that is not finite. *)
Lemma coincident_force_not_finite :
  Body.position swallowed = Body.position theSun
  /\ JS.is_finite (calculateGravitationalForce swallowed theSun) = false
  /\ Body.velocity <$> Sim.heap (beforeUpdate hostOnAxis pointerUp eclipse) !! 1
     = Some {| Vector.x := infinity; Vector.y := nan |}.
Proof. repeat split; reflexivity. Qed.

(** * The orbital diagnostic (C7, C10) *)

(** C10.  For a static body, the sun among them, [calculateOrbitalVelocity]
    returns exactly [(0, 0)]: the guard comes before the division by the
    distance, so a zero distance divides nothing. *)
Theorem static_body_diagnostic_zero (body sun : Body.t) :
  Body.isStatic body = true ->
  calculateOrbitalVelocity body sun
  = {| OrbitalVelocity.radial := 0; OrbitalVelocity.tangential := 0 |}.
Proof.
  intros Hstatic. unfold calculateOrbitalVelocity.
  rewrite Hstatic, orb_true_r. reflexivity.
Qed.

Lemma static_body_diagnostic_zero_witness :
  calculateOrbitalVelocity theSun theSun
  = {| OrbitalVelocity.radial := 0; OrbitalVelocity.tangential := 0 |}.
Proof. apply (static_body_diagnostic_zero theSun theSun). reflexivity. Defined.

(** C7, as amended.  For a locked body [calculateOrbitalVelocity] returns
    exactly [(0, 0)], whatever velocity the body stores.  Being held is
    not something the function sees: for a body that is neither locked nor
    static it returns the two projections of the stored velocity, held or
    not.  It is the panel that shows ["0.00"] in both velocity rows while
    the planet is held or locked. *)
Theorem locked_diagnostic_zero_held_rows_zero :
  (forall body sun,
     JS.truthy_flag (Body.isLocked body) = true ->
     calculateOrbitalVelocity body sun
     = {| OrbitalVelocity.radial := 0; OrbitalVelocity.tangential := 0 |})
  /\ (forall body sun,
        JS.truthy_flag (Body.isLocked body) = false ->
        Body.isStatic body = false ->
        let dx := (Vector.x (Body.position body) - Vector.x (Body.position sun))%float in
        let dy := (Vector.y (Body.position body) - Vector.y (Body.position sun))%float in
        let distance := PrimFloat.sqrt (dx * dx + dy * dy)%float in
        calculateOrbitalVelocity body sun
        = {| OrbitalVelocity.radial :=
               (Vector.x (Body.velocity body) * (dx / distance)
                + Vector.y (Body.velocity body) * (dy / distance))%float;
             OrbitalVelocity.tangential :=
               (Vector.x (Body.velocity body) * (dy / distance)
                - Vector.y (Body.velocity body) * (dx / distance))%float |})
  /\ (forall selectedBody isHoldingPlanet,
        isHoldingPlanet
        || JS.truthy_flag (CelestialBodyProperties.isLocked selectedBody) = true ->
        radialVelocityRow selectedBody isHoldingPlanet = Text "0.00"
        /\ tangentialVelocityRow selectedBody isHoldingPlanet = Text "0.00").
Proof.
  split; [| split].
  - intros body sun Hl. unfold calculateOrbitalVelocity. rewrite Hl. reflexivity.
  - intros body sun Hl Hs. unfold calculateOrbitalVelocity. rewrite Hl, Hs. reflexivity.
  - intros sel held H. unfold radialVelocityRow, tangentialVelocityRow. rewrite H.
    destruct (JS.truthy_flag (CelestialBodyProperties.isSun sel)); split; reflexivity.
Qed.

Lemma locked_diagnostic_zero_held_rows_zero_witness :
  calculateOrbitalVelocity lockedFar theSun
  = {| OrbitalVelocity.radial := 0; OrbitalVelocity.tangential := 0 |}
  /\ calculateOrbitalVelocity grabbed theSun
     = {| OrbitalVelocity.radial := (2 * (-150 / 150) + 5 * (0 / 150))%float;
          OrbitalVelocity.tangential := (2 * (0 / 150) - 5 * (-150 / 150))%float |}
  /\ radialVelocityRow (snapshotOf grabbed theSun) true = Text "0.00"
  /\ tangentialVelocityRow (snapshotOf grabbed theSun) true = Text "0.00".
Proof.
  destruct locked_diagnostic_zero_held_rows_zero as (Hlocked & Hfree & Hrows).
  split; [| split].
  - apply (Hlocked lockedFar theSun). reflexivity.
  - apply (Hfree grabbed theSun); reflexivity.
  - apply (Hrows (snapshotOf grabbed theSun) true). reflexivity.
Defined.

(** C7 as stated fails for a held body: with planet 1 in the mouse
    constraint's grip, the poll records that it is held and stores the
    diagnostic's result in the snapshot, and that result is [(-2, 5)], not
    [(0, 0)]. *)
Lemma held_planet_diagnostic_nonzero :
  Sim.mouseConstraintBody holding = Some 1
  /\ Sim.isHoldingPlanet (pollSelected holding) = true
  /\ CelestialBodyProperties.orbitalVelocity <$> Sim.selectedBody (pollSelected holding)
     = Some (calculateOrbitalVelocity grabbed theSun)
  /\ calculateOrbitalVelocity grabbed theSun
     = {| OrbitalVelocity.radial := (-2); OrbitalVelocity.tangential := 5 |}
  /\ calculateOrbitalVelocity grabbed theSun
     <> {| OrbitalVelocity.radial := 0; OrbitalVelocity.tangential := 0 |}.
Proof.
  repeat split; try reflexivity.
  intros H. apply (f_equal (fun v => PrimFloat.eqb (OrbitalVelocity.tangential v) 0)) in H.
  vm_compute in H. discriminate H.
Qed.

(** * Lock and unlock (C4) *)

(** The cases [Matter.Body.scale] tells apart on the radius of the body it
    is given: no radius, a falsy radius, and a truthy one with factors
    that are or are not [===]. *)
Ltac scale_cases rad :=
  destruct rad as [rad |]; [| by repeat split];
  destruct (JS.truthy_number rad); [| by repeat split];
  match goal with |- context [if ?c then _ else _] => destruct c end;
  by repeat split.


(** What [Done] writes: the body the selection names becomes
    [commitToBody] of itself. *)
Lemma doneClick_body s sel ev r body :
  Sim.selectedBody s = Some sel ->
  Sim.editingValues s = Some ev ->
  findById s (Sim.allBodies s) (CelestialBodyProperties.id sel) = Some r ->
  Sim.heap s !! r = Some body ->
  Sim.heap (doneClick s) !! r = Some (commitToBody sel ev body).
Proof.
  intros Hsel Hev Hfind Hr. unfold doneClick. rewrite Hsel, Hev, Hfind. simpl.
  by apply update_self.
Qed.

(** What a write-through field handler writes. *)
Lemma writeField_body inBuffer inSnapshot onBody s sel ev r body :
  Sim.selectedBody s = Some sel ->
  Sim.editingValues s = Some ev ->
  findById s (Sim.allBodies s) (CelestialBodyProperties.id sel) = Some r ->
  Sim.heap s !! r = Some body ->
  Sim.heap (WriteThrough.writeField inBuffer inSnapshot onBody s) !! r
  = Some (onBody body).
Proof.
  intros Hsel Hev Hfind Hr. unfold WriteThrough.writeField.
  rewrite Hsel, Hev, Hfind. by apply update_self.
Qed.




(** The same at the step length of the running simulation: the component
    sets [engine.timing.timeScale = 0.5], so a planet that the engine has
    stepped has half of [Body._baseDelta] as its [deltaTime] and the
    library's [timeScale] is [0.5].  Locked and unlocked, the planet is
    left with [(0.10000000000002274, 0.7000000000000455)]. *)
Example lock_unlock_at_half_speed :
  let stepped := Body.with_deltaTime (Body._baseDelta * 0.5) cruising in
  (Body.deltaTime stepped / Body._baseDelta)%float = 0.5%float
  /\ Body.velocity (applyLocked true stepped) = Vector.zero
  /\ Body.velocity (applyLocked false (applyLocked true stepped))
     = {| Vector.x := 0x1.999999999ap-4; Vector.y := 0x1.66666666668p-1 |}.
Proof. repeat split; reflexivity. Qed.

(** Where the round trip is exact the velocity does come back: planet 1
    moves at [(2, 5)]; [Edit], tick "Locked", [Done] stops it and saves
    the velocity; [Edit], untick, [Done] gives the velocity back. *)
Example lock_unlock_through_the_form :
  let locked := doneClick (lockedChange true (editClick holding)) in
  let unlocked := doneClick (lockedChange false (editClick locked)) in
  (Body.velocity <$> Sim.heap locked !! 1 = Some Vector.zero
   /\ (Sim.heap locked !! 1) ≫= Body.lockedVelocity
      = Some {| Vector.x := 2; Vector.y := 5 |}
   /\ (Sim.heap locked !! 1) ≫= Body.isLocked = Some true)
  /\ (Body.velocity <$> Sim.heap unlocked !! 1 = Some {| Vector.x := 2; Vector.y := 5 |}
      /\ (Sim.heap unlocked !! 1) ≫= Body.lockedVelocity = None
      /\ (Sim.heap unlocked !! 1) ≫= Body.isLocked = Some false).
Proof. repeat split; reflexivity. Qed.

(** * Edits of mass and size (C2, C8) *)

Lemma commitToBody_radius sel ev body :
  Body.circleRadius (commitToBody sel ev body)
  = Some (EditingValues.size ev / 2)%float.
Proof.
  unfold commitToBody.
  destruct (JS.truthy_flag (CelestialBodyProperties.isSun sel)); reflexivity.
Qed.

(** What [Done] makes of a body's mass.  For a planet, the density times
    the scaled area, which [Matter.Body.scale] has just stored, is stored
    again; for the sun, the buffered mass goes through the same scaling
    and nothing is stored after it. *)
Lemma commitToBody_mass sel ev body :
  let scale := ((EditingValues.size ev / 2) / oldRadiusOf body)%float in
  Body.mass (commitToBody sel ev body)
  = if JS.truthy_flag (CelestialBodyProperties.isSun sel)
    then (EditingValues.mass ev / Body.area body
          * (Body.area body * PrimFloat.abs (scale * scale)))%float
    else (Body.density body * (Body.area body * PrimFloat.abs (scale * scale)))%float.
Proof.
  destruct body as [id st pos vel m im dens ar rad fs isSun nm lk lv col dt].
  unfold commitToBody, oldRadiusOf, applyLocked, Body.scale.
  destruct (JS.truthy_flag (CelestialBodyProperties.isSun sel)); simpl;
    [scale_cases rad |].
  destruct (EditingValues.isLocked ev); [| destruct lv as [v |]]; simpl;
    scale_cases rad.
Qed.

(** What [Done] makes of the sun's mass when the buffered mass is NaN. *)
Lemma commitToBody_sun_nan_mass sel ev body :
  JS.truthy_flag (CelestialBodyProperties.isSun sel) = true ->
  PrimFloat.is_nan (EditingValues.mass ev) = true ->
  PrimFloat.is_nan (Body.mass (commitToBody sel ev body)) = true.
Proof.
  intros Hsun Hnan. rewrite commitToBody_mass, Hsun.
  rewrite (is_nan_eq _ Hnan), nan_div_l, nan_mul_l. reflexivity.
Qed.

(** C8, as amended.  The form validates nothing.  The mass and size
    fields buffer whatever number [parseFloat] gave, NaN included, and
    leave the body alone; [Done] then writes the buffer to the body the
    selection names: its radius becomes [size / 2] whatever [size] is,
    and the sun's mass is set from the buffered mass, so that a NaN there
    ends as a NaN mass. *)
Theorem doneClick_writes_fields_unvalidated
  (s : Sim.t) (sel : CelestialBodyProperties.t) (ev : EditingValues.t)
  (r : nat) (body : Body.t) :
  Sim.selectedBody s = Some sel ->
  Sim.editingValues s = Some ev ->
  findById s (Sim.allBodies s) (CelestialBodyProperties.id sel) = Some r ->
  Sim.heap s !! r = Some body ->
  (forall parsed,
     Sim.editingValues (massChange parsed s) = Some (EditingValues.with_mass parsed ev)
     /\ Sim.heap (massChange parsed s) = Sim.heap s)
  /\ (forall parsed,
        Sim.editingValues (sizeChange parsed s) = Some (EditingValues.with_size parsed ev)
        /\ Sim.heap (sizeChange parsed s) = Sim.heap s)
  /\ Sim.heap (doneClick s) !! r = Some (commitToBody sel ev body)
  /\ Body.circleRadius (commitToBody sel ev body)
     = Some (EditingValues.size ev / 2)%float
  /\ (JS.truthy_flag (CelestialBodyProperties.isSun sel) = true ->
      PrimFloat.is_nan (EditingValues.mass ev) = true ->
      PrimFloat.is_nan (Body.mass (commitToBody sel ev body)) = true).
Proof.
  intros Hsel Hev Hfind Hr.
  split; [| split; [| split; [| split]]].
  - intros parsed. unfold massChange, bufferField. rewrite Hev. by split.
  - intros parsed. unfold sizeChange, bufferField. rewrite Hev. by split.
  - by apply doneClick_body.
  - apply commitToBody_radius.
  - apply commitToBody_sun_nan_mass.
Qed.

Lemma doneClick_writes_fields_unvalidated_witness :
  Sim.heap (doneClick (massChange nan (editClick sunPicked))) !! 0
  = Some (commitToBody (snapshotOf theSun theSun)
            {| EditingValues.name := "Sun"; EditingValues.mass := nan;
               EditingValues.size := 80; EditingValues.color := "#FFD700";
               EditingValues.isLocked := false |} theSun).
Proof.
  refine (proj1 (proj2 (proj2
            (doneClick_writes_fields_unvalidated
               (massChange nan (editClick sunPicked)) (snapshotOf theSun theSun)
               _ 0 theSun _ _ _ _)))); reflexivity.
Defined.

(** C8 as stated fails.  With the sun selected, an emptied mass field
    parses to NaN and [Done] leaves the sun with a NaN mass; with planet 1
    selected, a size of 0 leaves it with radius 0 and mass 0. *)
Lemma done_applies_invalid_fields :
  (Body.mass <$> Sim.heap sunPicked !! 0 = Some 10000%float
   /\ PrimFloat.is_nan
        <$> (Body.mass
               <$> Sim.heap (doneClick (massChange nan (editClick sunPicked))) !! 0)
      = Some true)
  /\ (Body.circleRadius <$> Sim.heap planetPicked !! 1 = Some (Some 15%float)
      /\ Body.circleRadius
           <$> Sim.heap (doneClick (sizeChange 0 (editClick planetPicked))) !! 1
         = Some (Some 0%float)
      /\ Body.mass
           <$> Sim.heap (doneClick (sizeChange 0 (editClick planetPicked))) !! 1
         = Some 0%float).
Proof. repeat split; reflexivity. Qed.

(** The write-through size handler keeps the mass and its inverse, for
    one edit and for any sequence of edits; its mass handler keeps the
    radius. *)
Lemma resizeBody_keeps_mass size body :
  Body.mass (WriteThrough.resizeBody size body) = Body.mass body
  /\ Body.inverseMass (WriteThrough.resizeBody size body) = Body.inverseMass body.
Proof. split; reflexivity. Qed.

Lemma resizes_keep_mass sizes body :
  Body.mass (fold_left (fun b size => WriteThrough.resizeBody size b) sizes body)
  = Body.mass body.
Proof.
  revert body; induction sizes as [| size sizes IH]; intros body; simpl; [done |].
  rewrite IH. exact (proj1 (resizeBody_keeps_mass size body)).
Qed.

Lemma remassBody_keeps_radius mass body :
  Body.circleRadius (WriteThrough.remassBody mass body) = Body.circleRadius body.
Proof. reflexivity. Qed.

(** The two size edits on the state: the write-through handler leaves the
    body's mass as it was; [Done] leaves a planet with the density times
    the scaled area. *)
Lemma sizeChange_keeps_mass s sel ev r body parsed :
  Sim.selectedBody s = Some sel ->
  Sim.editingValues s = Some ev ->
  findById s (Sim.allBodies s) (CelestialBodyProperties.id sel) = Some r ->
  Sim.heap s !! r = Some body ->
  Body.mass <$> Sim.heap (WriteThrough.sizeChange parsed s) !! r
  = Some (Body.mass body).
Proof.
  intros Hsel Hev Hfind Hr. unfold WriteThrough.sizeChange.
  by erewrite writeField_body.
Qed.

Lemma doneClick_rescales_planet_mass s sel ev r body :
  Sim.selectedBody s = Some sel ->
  Sim.editingValues s = Some ev ->
  findById s (Sim.allBodies s) (CelestialBodyProperties.id sel) = Some r ->
  Sim.heap s !! r = Some body ->
  JS.truthy_flag (CelestialBodyProperties.isSun sel) = false ->
  let scale := ((EditingValues.size ev / 2) / oldRadiusOf body)%float in
  Body.mass <$> Sim.heap (doneClick s) !! r
  = Some (Body.density body * (Body.area body * PrimFloat.abs (scale * scale)))%float.
Proof.
  intros Hsel Hev Hfind Hr Hsun scale.
  erewrite doneClick_body by done. simpl.
  by rewrite commitToBody_mass, Hsun.
Qed.

(** C2 on the [Done] commit.  Planet 1 has radius 15 and mass 30.  [Edit],
    size 60, [Done]: the radius becomes 30 and the mass becomes the
    density times the area scaled by four, not 30, because the mass
    "restored" after the scaling is the body's mass read after the
    scaling.  The write-through handler, given the same edit, reads the
    mass first and leaves it at 30. *)
Theorem done_resize_changes_mass :
  Body.mass <$> Sim.heap planetPicked !! 1 = Some 30%float
  /\ Body.mass <$> Sim.heap (doneClick (sizeChange 60 (editClick planetPicked))) !! 1
     = Some (30 / 689 * (689 * 4))%float
  /\ PrimFloat.ltb 119 (30 / 689 * (689 * 4)) = true
  /\ Body.mass
       <$> Sim.heap (WriteThrough.sizeChange 60 (editClick planetPicked)) !! 1
     = Some 30%float.
Proof. repeat split; reflexivity. Qed.

(** * What a step removes, and what it leaves alone *)

Lemma remove_filter l r :
  NoDup l -> Composite.remove l r = List.filter (fun x => negb (Nat.eqb x r)) l.
Proof.
  induction 1 as [| a l Ha Hnd IH]; simpl; [done |].
  destruct (Nat.eqb_spec a r) as [-> | Hne]; simpl.
  - symmetry. rewrite <- (List.filter_ext_in (fun _ => true)).
    + clear. induction l as [| x l IH]; simpl; [done | by rewrite IH].
    + intros x Hx. destruct (Nat.eqb_spec x r) as [-> | _]; [| done].
      exfalso. apply Ha. by apply list_elem_of_In.
  - by rewrite IH.
Qed.

Lemma filter_filter {A} (f g : A -> bool) l :
  List.filter f (List.filter g l) = List.filter (fun x => g x && f x) l.
Proof.
  induction l as [| x l IH]; simpl; [done |].
  destruct (g x); simpl; [destruct (f x) |]; by rewrite IH.
Qed.

(** Removing from [w], one after the other, the members of [l] that
    satisfy [P] leaves the members of [w] that are not such. *)
Lemma fold_remove_filter (P : nat -> bool) l w :
  NoDup w ->
  fold_left (fun w r => if P r then Composite.remove w r else w) l w
  = List.filter (fun x => negb (existsb (fun r => P r && Nat.eqb x r) l)) w.
Proof.
  revert w; induction l as [| r l IH]; intros w Hnd; simpl.
  - symmetry. clear. induction w as [| x w IH]; simpl; [done | by rewrite IH].
  - destruct (P r) eqn:HP; simpl.
    + rewrite IH by (by apply remove_NoDup).
      rewrite remove_filter by done. rewrite filter_filter.
      apply List.filter_ext. intros x. by rewrite negb_orb.
    + by rewrite IH.
Qed.

Lemma fold_remove_self (P : nat -> bool) w :
  NoDup w ->
  fold_left (fun w r => if P r then Composite.remove w r else w) w w
  = List.filter (fun x => negb (P x)) w.
Proof.
  intros Hnd. rewrite fold_remove_filter by done.
  apply List.filter_ext_in. intros x Hx. f_equal.
  destruct (P x) eqn:HP.
  - apply existsb_exists. exists x. by rewrite HP, Nat.eqb_refl.
  - apply not_true_is_false. intros (r & _ & Hr)%existsb_exists.
    apply andb_true_iff in Hr as [Hr ->%Nat.eqb_eq]. congruence.
Qed.

Lemma onlyVelocities_refl h : onlyVelocities h h.
Proof.
  intros r. destruct (h !! r); [apply sameButVelocity_refl | done].
Qed.

Lemma onlyVelocities_trans h1 h2 h3 :
  onlyVelocities h1 h2 -> onlyVelocities h2 h3 -> onlyVelocities h1 h3.
Proof.
  intros H12 H23 r. specialize (H12 r). specialize (H23 r).
  destruct (h1 !! r), (h2 !! r), (h3 !! r); try done.
  by eapply sameButVelocity_trans.
Qed.

Lemma onlyVelocities_insert h r b b' :
  h !! r = Some b -> sameButVelocity b b' -> onlyVelocities h (<[r := b']> h).
Proof.
  intros Hr E x. destruct (decide (r = x)) as [<- | Hne].
  - by rewrite Hr, lookup_insert_eq.
  - rewrite lookup_insert_ne by done.
    destruct (h !! x); [apply sameButVelocity_refl | done].
Qed.

Lemma onlyVelocities_update r s v :
  onlyVelocities (Sim.heap s)
    (Sim.heap (Sim.update r (fun o => Body.setVelocity o v) s)).
Proof.
  unfold Sim.update. destruct (Sim.heap s !! r) as [b |] eqn:Hr;
    [| apply onlyVelocities_refl].
  simpl. eapply onlyVelocities_insert; [done | apply sameButVelocity_setVelocity].
Qed.

Lemma onlyVelocities_lookup h h' r b' :
  onlyVelocities h h' -> h' !! r = Some b' ->
  exists b, h !! r = Some b /\ sameButVelocity b b'.
Proof.
  intros H Hr. specialize (H r). rewrite Hr in H.
  destruct (h !! r) as [b |]; [by exists b | done].
Qed.

Lemma escapes_onlyVelocities s s' sun r :
  onlyVelocities (Sim.heap s) (Sim.heap s') ->
  escapes s' sun r = escapes s sun r.
Proof.
  intros H. unfold escapes. pose proof (H r) as Hr. pose proof (H sun) as Hs.
  destruct (Sim.heap s !! r) as [b |], (Sim.heap s' !! r) as [b' |]; try done.
  destruct (Sim.heap s !! sun) as [sb |], (Sim.heap s' !! sun) as [sb' |];
    try done.
  rewrite (beyondEscape_frame _ _ _ _ Hr Hs).
  destruct (sameButVelocity_fields _ _ Hr) as (_ & _ & _ & _ & -> & -> & _).
  reflexivity.
Qed.

Lemma isSunAt_onlyVelocities s s' r :
  onlyVelocities (Sim.heap s) (Sim.heap s') -> isSunAt s' r = isSunAt s r.
Proof.
  intros H. unfold isSunAt. specialize (H r).
  destruct (Sim.heap s !! r) as [b |], (Sim.heap s' !! r) as [b' |]; try done.
  by destruct (sameButVelocity_fields _ _ H) as (_ & _ & _ & _ & -> & _).
Qed.

Lemma gravityEach_onlyVelocities M sun s r :
  onlyVelocities (Sim.heap s) (Sim.heap (gravityEach M sun s r)).
Proof.
  unfold gravityEach. destruct (Nat.eqb r sun); [apply onlyVelocities_refl |].
  destruct (Sim.heap s !! r) as [b |] eqn:Hr; [| apply onlyVelocities_refl].
  destruct (Sim.heap s !! sun) as [sb |]; [| apply onlyVelocities_refl].
  destruct (JS.truthy_flag (Body.isLocked b)); [apply onlyVelocities_refl |].
  simpl. eapply onlyVelocities_insert; [done |].
  unfold applyGravity. apply sameButVelocity_setVelocity.
Qed.

Lemma gravityLoop_onlyVelocities M sun l s :
  onlyVelocities (Sim.heap s) (Sim.heap (fold_left (gravityEach M sun) l s)).
Proof.
  revert s; induction l as [| r l IH]; intros s; simpl;
    [apply onlyVelocities_refl |].
  eapply onlyVelocities_trans; [apply gravityEach_onlyVelocities | apply IH].
Qed.

Lemma gravityLoop_form M sun l s :
  formOf (fold_left (gravityEach M sun) l s) = formOf s.
Proof.
  revert s; induction l as [| r l IH]; intros s; simpl; [done |].
  rewrite IH. unfold gravityEach. destruct (Nat.eqb r sun); [done |].
  destruct (Sim.heap s !! r) as [b |]; [| done].
  destruct (Sim.heap s !! sun) as [sb |]; [| done].
  by destruct (JS.truthy_flag (Body.isLocked b)).
Qed.

(** One turn of the second loop, exactly: the objects change in their
    velocities only, and the body of the turn leaves the world when, and
    only when, it passes the escape test. *)
Lemma lockedAndEscapeEach_exact sun s r :
  let s' := lockedAndEscapeEach sun s r in
  onlyVelocities (Sim.heap s) (Sim.heap s')
  /\ formOf s' = formOf s
  /\ Sim.world s'
     = if escapes s sun r then Composite.remove (Sim.world s) r else Sim.world s.
Proof.
  unfold lockedAndEscapeEach, escapes.
  destruct (Sim.heap s !! r) as [b |] eqn:Hr.
  2:{ simpl. split; [apply onlyVelocities_refl | done]. }
  destruct (JS.truthy_flag (Body.isLocked b)) eqn:Hl.
  - rewrite andb_false_r. cbv zeta.
    split; [apply onlyVelocities_update |].
    unfold Sim.update. rewrite Hr. simpl.
    by destruct (Sim.heap s !! sun).
  - rewrite andb_true_r. cbv zeta.
    destruct (JS.truthy_flag (Body.isSun b)); simpl.
    { split; [apply onlyVelocities_refl |]. by destruct (Sim.heap s !! sun). }
    destruct (Sim.heap s !! sun) as [sb |].
    2:{ split; [apply onlyVelocities_refl | done]. }
    fold (beyondEscape b sb). destruct (beyondEscape b sb).
    2:{ split; [apply onlyVelocities_refl | done]. }
    destruct (refSelects (Sim.remove r s) b); simpl;
      (split; [apply onlyVelocities_refl | done]).
Qed.

Lemma escapeLoop_exact sun l s0 s :
  onlyVelocities (Sim.heap s0) (Sim.heap s) ->
  let s' := fold_left (lockedAndEscapeEach sun) l s in
  onlyVelocities (Sim.heap s0) (Sim.heap s')
  /\ formOf s' = formOf s
  /\ Sim.world s'
     = fold_left
         (fun w r => if escapes s0 sun r then Composite.remove w r else w)
         l (Sim.world s).
Proof.
  revert s; induction l as [| r l IH]; intros s H0; simpl; [done |].
  destruct (lockedAndEscapeEach_exact sun s r) as (Hov & Hform & Hw).
  destruct (IH (lockedAndEscapeEach sun s r)) as (Hov' & Hform' & Hw').
  { by eapply onlyVelocities_trans. }
  split; [done |]. split; [congruence |].
  rewrite Hw', Hw. by rewrite (escapes_onlyVelocities s0 s).
Qed.

Lemma hoverSelect_form pointer sun s :
  Sim.heap (hoverSelect pointer sun s) = Sim.heap s
  /\ Sim.world (hoverSelect pointer sun s) = Sim.world s
  /\ formOf (hoverSelect pointer sun s) = formOf s.
Proof.
  unfold hoverSelect. destruct (Pointer.isMouseDown pointer); [| done].
  destruct (head (Pointer.bodiesAtPoint pointer)) as [r |]; [| done].
  destruct (Sim.heap s !! r) as [b |]; [| done].
  destruct (Sim.heap s !! sun) as [sb |]; [| done].
  destruct (negb (JS.truthy_flag (Body.isSun b)) && negb (refSelects s b)); done.
Qed.

(** What a step leaves alone. *)
Lemma beforeUpdate_frames M pointer s :
  onlyVelocities (Sim.heap s) (Sim.heap (beforeUpdate M pointer s))
  /\ formOf (beforeUpdate M pointer s) = formOf s.
Proof.
  unfold beforeUpdate, Sim.allBodies.
  destruct (findSun s (Sim.world s)) as [sun |];
    [| split; [apply onlyVelocities_refl | done]].
  destruct (hoverSelect_form pointer sun
              (fold_left (lockedAndEscapeEach sun) (Sim.world s)
                 (fold_left (gravityEach M sun) (Sim.world s) s)))
    as (-> & _ & ->).
  destruct (escapeLoop_exact sun (Sim.world s) s
              (fold_left (gravityEach M sun) (Sim.world s) s))
    as (Hov & -> & _); [apply gravityLoop_onlyVelocities |].
  split; [done | apply gravityLoop_form].
Qed.

Lemma find_ext_bool {A} (p q : A -> bool) l :
  (forall x, p x = q x) -> List.find p l = List.find q l.
Proof.
  intros H. induction l as [| x l IH]; simpl; [done |]. by rewrite H, IH.
Qed.

Lemma escapes_sun_false s sun r : isSunAt s r = true -> escapes s sun r = false.
Proof.
  unfold isSunAt, escapes. destruct (Sim.heap s !! r) as [b |]; [| done].
  intros ->. by destruct (Sim.heap s !! sun).
Qed.

(** * What a collision removes, and what it leaves alone *)

Lemma collisionStartEach_exact s pair :
  let s' := collisionStartEach s pair in
  Sim.heap s' = Sim.heap s
  /\ formOf s' = formOf s
  /\ Sim.world s'
     = match victim s pair with
       | Some r => Composite.remove (Sim.world s) r
       | None => Sim.world s
       end.
Proof.
  destruct pair as [bodyA bodyB]. unfold collisionStartEach, victim.
  destruct (Sim.heap s !! bodyA) as [a |]; [| done].
  destruct (Sim.heap s !! bodyB) as [b |]; [| done].
  unfold destroyPlanet.
  destruct (JS.truthy_flag (Body.isSun a) && negb (JS.truthy_flag (Body.isSun b))).
  { by destruct (refSelects (Sim.remove bodyB s) b). }
  destruct (JS.truthy_flag (Body.isSun b) && negb (JS.truthy_flag (Body.isSun a)));
    [| done].
  by destruct (refSelects (Sim.remove bodyA s) a).
Qed.

Lemma victim_heap s s' pair : Sim.heap s' = Sim.heap s -> victim s' pair = victim s pair.
Proof. intros H. unfold victim. destruct pair. by rewrite H. Qed.

Lemma collisionStart_exact pairs s :
  let s' := collisionStart pairs s in
  Sim.heap s' = Sim.heap s
  /\ formOf s' = formOf s
  /\ Sim.world s'
     = fold_left Composite.remove (omap (victim s) pairs) (Sim.world s).
Proof.
  unfold collisionStart. revert s; induction pairs as [| pair pairs IH];
    intros s; csimpl; [done |].
  destruct (collisionStartEach_exact s pair) as (Hh & Hf & Hw).
  destruct (IH (collisionStartEach s pair)) as (Hh' & Hf' & Hw').
  split; [congruence |]. split; [congruence |].
  rewrite Hw', Hw.
  replace (omap (victim (collisionStartEach s pair)) pairs)
    with (omap (victim s) pairs).
  2:{ clear -Hh. induction pairs as [| q pairs IH]; csimpl; [done |].
      by rewrite IH, (victim_heap s _ q Hh). }
  by destruct (victim s pair).
Qed.

Lemma fold_remove_all l w :
  NoDup w ->
  fold_left Composite.remove l w
  = List.filter (fun x => negb (existsb (Nat.eqb x) l)) w.
Proof.
  intros Hnd.
  exact (fold_remove_filter (fun _ => true) l w Hnd).
Qed.

Lemma elem_of_filter_bool {A} (f : A -> bool) l x :
  x ∈ List.filter f l <-> x ∈ l /\ f x = true.
Proof. rewrite !list_elem_of_In. apply List.filter_In. Qed.

(** The bodies that a [collisionStart] event leaves in the world. *)
Lemma collisionStart_world_victims pairs s x :
  NoDup (Sim.world s) ->
  x ∈ Sim.world (collisionStart pairs s)
  <-> x ∈ Sim.world s /\ forall pair, pair ∈ pairs -> victim s pair <> Some x.
Proof.
  intros Hnd. destruct (collisionStart_exact pairs s) as (_ & _ & ->).
  rewrite fold_remove_all by done. rewrite elem_of_filter_bool.
  apply and_iff_compat_l. rewrite negb_true_iff. split.
  - intros Hex pair Hin Hv.
    apply not_true_iff_false in Hex. apply Hex.
    apply existsb_exists. exists x. split; [| by rewrite Nat.eqb_refl].
    apply list_elem_of_In. apply list_elem_of_omap. by exists pair.
  - intros Hall. apply not_true_is_false.
    intros (r & Hr & Heq)%existsb_exists.
    apply Nat.eqb_eq in Heq as <-.
    apply list_elem_of_In, list_elem_of_omap in Hr as (pair & Hin & Hv).
    by apply (Hall pair).
Qed.

Lemma victim_cases s a b x :
  victim s (a, b) = Some x ->
  isSunAt s x = false
  /\ ((x = b /\ isSunAt s a = true) \/ (x = a /\ isSunAt s b = true)).
Proof.
  unfold victim, isSunAt.
  destruct (Sim.heap s !! a) as [ba |] eqn:Ha; [| done].
  destruct (Sim.heap s !! b) as [bb |] eqn:Hb; [| done].
  destruct (JS.truthy_flag (Body.isSun ba)) eqn:Hsa,
           (JS.truthy_flag (Body.isSun bb)) eqn:Hsb; simpl; intros [= <-].
  - rewrite Hb, Hsb. split; [done |]. left. done.
  - rewrite Ha, Hsa. split; [done |]. right. done.
Qed.

Lemma victim_of_contact s a b x bx :
  Sim.heap s !! x = Some bx -> isSunAt s x = false ->
  (x = b /\ isSunAt s a = true) \/ (x = a /\ isSunAt s b = true) ->
  victim s (a, b) = Some x.
Proof.
  unfold victim, isSunAt. intros Hx. rewrite Hx. intros Hp [[-> Hs] | [-> Hs]].
  - destruct (Sim.heap s !! a) as [ba |]; [| done].
    rewrite Hx. by rewrite Hs, Hp.
  - rewrite Hx. destruct (Sim.heap s !! b) as [bb |]; [| done].
    by rewrite Hs, Hp.
Qed.

(** X3.  A [collisionStart] event removes a body when, and only when, the
    body is not a sun and a pair of the event puts it against a sun: a
    contact between two planets removes nothing, whether or not one of
    them is locked, and a sun is never removed.  The objects themselves
    and the edit form are not touched. *)
Theorem collisionStart_removes_only_sun_contacts
  (pairs : list (nat * nat)) (s : Sim.t) (x : nat) :
  wellFormed s ->
  (x ∈ Sim.world (collisionStart pairs s)
   <-> x ∈ Sim.world s
       /\ (isSunAt s x = true
           \/ forall a b, (a, b) ∈ pairs ->
                (x = a -> isSunAt s b = false) /\ (x = b -> isSunAt s a = false)))
  /\ Sim.heap (collisionStart pairs s) = Sim.heap s
  /\ formOf (collisionStart pairs s) = formOf s.
Proof.
  intros [Hnd Hobj]. split; [| split; apply collisionStart_exact].
  rewrite collisionStart_world_victims by done. split.
  - intros [Hin Hall]. split; [done |].
    destruct (isSunAt s x) eqn:Hsx; [by left | right].
    destruct (Hobj x Hin) as [bx Hx].
    intros a b Hab. split.
    + intros ->. apply not_true_is_false. intros Hsb.
      apply (Hall (a, b) Hab). eapply victim_of_contact; eauto.
    + intros ->. apply not_true_is_false. intros Hsa.
      apply (Hall (a, b) Hab). eapply victim_of_contact; eauto.
  - intros [Hin Hkeep]. split; [done |]. intros [a b] Hab Hv.
    apply victim_cases in Hv as [Hp Hc].
    destruct Hkeep as [Hsun | Hkeep]; [congruence |].
    destruct (Hkeep a b Hab) as [Ha Hb].
    destruct Hc as [[-> Hs] | [-> Hs]]; [rewrite Hb in Hs | rewrite Ha in Hs]; done.
Qed.

Lemma contact_wellFormed : wellFormed contact.
Proof.
  split; [compute_done | intros r Hr; vm_compute in Hr |- *].
  repeat (apply elem_of_cons in Hr as [-> | Hr]; [by eexists |]).
  by apply elem_of_nil in Hr.
Qed.

Lemma collisionStart_removes_only_sun_contacts_witness :
  (1 ∈ Sim.world (collisionStart [(1, 2); (0, 2)] contact)
   <-> 1 ∈ Sim.world contact
       /\ (isSunAt contact 1 = true
           \/ forall a b, (a, b) ∈ [(1, 2); (0, 2)] ->
                (1 = a -> isSunAt contact b = false)
                /\ (1 = b -> isSunAt contact a = false)))
  /\ Sim.heap (collisionStart [(1, 2); (0, 2)] contact) = Sim.heap contact
  /\ formOf (collisionStart [(1, 2); (0, 2)] contact) = formOf contact.
Proof.
  exact (collisionStart_removes_only_sun_contacts
           [(1, 2); (0, 2)] contact 1 contact_wellFormed).
Defined.

Lemma pinIfLocked_exact r s :
  let s' := pinIfLocked r s in
  onlyVelocities (Sim.heap s) (Sim.heap s')
  /\ Sim.world s' = Sim.world s
  /\ Sim.selectedBody s' = Sim.selectedBody s
  /\ formOf s' = formOf s
  /\ forall x b, Sim.heap s !! x = Some b ->
       JS.truthy_flag (Body.isLocked b) = false \/ x <> r ->
       Sim.heap s' !! x = Some b.
Proof.
  unfold pinIfLocked. destruct (Sim.heap s !! r) as [br |] eqn:Hr.
  2:{ simpl. split; [apply onlyVelocities_refl | done]. }
  destruct (JS.truthy_flag (Body.isLocked br)) eqn:Hl.
  2:{ simpl. split; [apply onlyVelocities_refl | done]. }
  cbv zeta. split; [apply onlyVelocities_update |].
  unfold Sim.update. rewrite Hr. simpl. repeat split.
  intros x b Hx [Hb | Hne].
  - rewrite lookup_insert_ne; [done |]. intros ->. congruence.
  - by rewrite lookup_insert_ne.
Qed.

(** What a [collisionActive] event does. *)
Lemma collisionActive_exact pairs s :
  onlyVelocities (Sim.heap s) (Sim.heap (collisionActive pairs s))
  /\ Sim.world (collisionActive pairs s) = Sim.world s
  /\ Sim.selectedBody (collisionActive pairs s) = Sim.selectedBody s
  /\ formOf (collisionActive pairs s) = formOf s
  /\ forall x b, Sim.heap s !! x = Some b ->
       JS.truthy_flag (Body.isLocked b) = false
       \/ (forall a c, (a, c) ∈ pairs -> x <> a /\ x <> c) ->
       Sim.heap (collisionActive pairs s) !! x = Some b.
Proof.
  unfold collisionActive. revert s; induction pairs as [| [a c] pairs IH];
    intros s; simpl.
  { split; [apply onlyVelocities_refl | done]. }
  destruct (pinIfLocked_exact a s) as (Hov1 & Hw1 & Hs1 & Hf1 & Hk1).
  destruct (pinIfLocked_exact c (pinIfLocked a s)) as (Hov2 & Hw2 & Hs2 & Hf2 & Hk2).
  destruct (IH (pinIfLocked c (pinIfLocked a s))) as (Hov & Hw & Hs & Hf & Hk).
  change (collisionActiveEach s (a, c)) with (pinIfLocked c (pinIfLocked a s)).
  split.
  { eapply onlyVelocities_trans; [exact Hov1 |].
    eapply onlyVelocities_trans; [exact Hov2 | exact Hov]. }
  split; [congruence |]. split; [congruence |]. split; [congruence |].
  intros x b Hx Hcase. apply Hk.
  - apply Hk2; [apply Hk1; [done |] |].
    + destruct Hcase as [Hl | Hout]; [by left | right].
      apply (Hout a c). by left.
    + destruct Hcase as [Hl | Hout]; [by left | right].
      apply (Hout a c). by left.
  - destruct Hcase as [Hl | Hout]; [by left | right].
    intros a' c' Hin. apply Hout. by right.
Qed.

(** X4.  A [collisionActive] event writes nothing but the velocity of the
    locked bodies of its pairs: the world, the selection and the edit form
    stay, every object keeps all but its velocity, and a body that is not
    locked, or that is in no pair of the event, is not touched at all. *)
Theorem collisionActive_touches_only_locked (pairs : list (nat * nat)) (s : Sim.t) :
  onlyVelocities (Sim.heap s) (Sim.heap (collisionActive pairs s))
  /\ Sim.world (collisionActive pairs s) = Sim.world s
  /\ Sim.selectedBody (collisionActive pairs s) = Sim.selectedBody s
  /\ formOf (collisionActive pairs s) = formOf s
  /\ forall x b, Sim.heap s !! x = Some b ->
       JS.truthy_flag (Body.isLocked b) = false
       \/ (forall a c, (a, c) ∈ pairs -> x <> a /\ x <> c) ->
       Sim.heap (collisionActive pairs s) !! x = Some b.
Proof. exact (collisionActive_exact pairs s). Qed.

(** * The poll *)

Lemma find_none_iff {A} (p : A -> bool) l :
  List.find p l = None <-> forall x, x ∈ l -> p x = false.
Proof.
  induction l as [| a l IH]; simpl.
  - split; [intros _ x Hx; by apply elem_of_nil in Hx | done].
  - destruct (p a) eqn:Hp.
    + split; [done |]. intros H. specialize (H a). rewrite Hp in H.
      discriminate H. by left.
    + rewrite IH. split.
      * intros H x [-> | Hx]%elem_of_cons; auto.
      * intros H x Hx. apply H. by right.
Qed.

Lemma find_is_Some {A} (p : A -> bool) l x :
  x ∈ l -> p x = true -> is_Some (List.find p l).
Proof.
  intros Hx Hp. destruct (List.find p l) eqn:E; [by eexists |].
  rewrite find_none_iff in E. rewrite (E x Hx) in Hp. done.
Qed.

(** The poll on a selection whose id no body of the world has. *)
Lemma pollSelected_missing s sel :
  Sim.selectedBody s = Some sel ->
  is_Some (findSun s (Sim.world s)) ->
  (forall r b, r ∈ Sim.world s -> Sim.heap s !! r = Some b ->
               Body.id b <> CelestialBodyProperties.id sel) ->
  pollSelected s = Sim.setIsHoldingPlanet false (Sim.setSelectedBody None s).
Proof.
  intros Hsel [sun Hsun] Hnone. unfold pollSelected, Sim.allBodies.
  rewrite Hsel, Hsun.
  replace (findById s (Sim.world s) (CelestialBodyProperties.id sel))
    with (@None nat); [done |].
  symmetry. apply find_none_iff. intros r Hr.
  destruct (Sim.heap s !! r) as [b |] eqn:Hb; [| done].
  apply Nat.eqb_neq. by eapply Hnone.
Qed.

Lemma collisionStart_selection pairs s :
  Sim.selectedBody (collisionStart pairs s) = Sim.selectedBody s
  \/ Sim.selectedBody (collisionStart pairs s) = None.
Proof.
  revert s; induction pairs as [| [a b] pairs IH]; intros s; [by left |].
  change (collisionStart ((a, b) :: pairs) s)
    with (collisionStart pairs (collisionStartEach s (a, b))).
  assert (Sim.selectedBody (collisionStartEach s (a, b)) = Sim.selectedBody s
          \/ Sim.selectedBody (collisionStartEach s (a, b)) = None) as Hstep.
  { unfold collisionStartEach.
    destruct (Sim.heap s !! a) as [ba |]; [| by left].
    destruct (Sim.heap s !! b) as [bb |]; [| by left].
    destruct (JS.truthy_flag (Body.isSun ba) && negb (JS.truthy_flag (Body.isSun bb))).
    { by destruct (destroyPlanet_cases b bb s) as (_ & _ & _ & [H | H] & _);
        [left | right]. }
    destruct (JS.truthy_flag (Body.isSun bb) && negb (JS.truthy_flag (Body.isSun ba)));
      [| by left].
    by destruct (destroyPlanet_cases a ba s) as (_ & _ & _ & [H | H] & _);
      [left | right]. }
  destruct (IH (collisionStartEach s (a, b))) as [H | H]; [| by right].
  rewrite H. exact Hstep.
Qed.

(** X5.  A planet destroyed by the sun does not stay selected past the
    next poll, even when the ref the collision handler tests did not name
    it: when no other body of the world has its id, the poll that follows
    the collision finds no body for the selection and clears it. *)
Theorem poll_after_collision_clears_selection
  (pairs : list (nat * nat)) (s : Sim.t) (sunRef planet : nat) (sb p : Body.t)
  (sel : CelestialBodyProperties.t) :
  wellFormed s ->
  sunRef ∈ Sim.world s ->
  Sim.heap s !! sunRef = Some sb ->
  Sim.heap s !! planet = Some p ->
  JS.truthy_flag (Body.isSun sb) = true ->
  JS.truthy_flag (Body.isSun p) = false ->
  (sunRef, planet) ∈ pairs \/ (planet, sunRef) ∈ pairs ->
  Sim.selectedBody s = Some sel ->
  CelestialBodyProperties.id sel = Body.id p ->
  (forall r b, r ∈ Sim.world s -> Sim.heap s !! r = Some b ->
               Body.id b = Body.id p -> r = planet) ->
  Sim.selectedBody (pollSelected (collisionStart pairs s)) = None.
Proof.
  intros [Hnd Hobj] Hsin Hs Hp Hsun Hpl Hpair Hsel Hid Huniq.
  destruct (collisionStart_destroys_some pairs s sunRef planet sb p)
    as [Hgone _]; try done.
  { destruct Hpair as [H | H]; eexists; (split; [exact H |]); auto. }
  destruct (collisionStart_exact pairs s) as (Hh & _ & _).
  destruct (collisionStart_selection pairs s) as [Hkeep | Hnone].
  2:{ unfold pollSelected. by rewrite Hnone. }
  rewrite (pollSelected_missing _ sel); [done | congruence | |].
  - unfold findSun. apply (find_is_Some _ _ sunRef).
    + apply collisionStart_world_victims; [done |]. split; [done |].
      intros [a b] _ Hv. apply victim_cases in Hv as [Hv _].
      unfold isSunAt in Hv. rewrite Hs, Hsun in Hv. done.
    + unfold isSunAt. by rewrite Hh, Hs.
  - intros r b Hr Hb Heq. rewrite Hh in Hb.
    pose proof Hr as Hin.
    apply collisionStart_world_victims in Hin as [Hin _]; [| done].
    assert (r = planet) as -> by (eapply Huniq; eauto; congruence).
    contradiction.
Qed.

Lemma poll_after_collision_clears_selection_witness :
  Sim.selectedBody (pollSelected (collisionStart [(0, 2)] staleContact)) = None.
Proof.
  refine (poll_after_collision_clears_selection [(0, 2)] staleContact 0 2
            theSun lockedTouching (snapshotOf lockedTouching theSun)
            _ ltac:(compute_done) eq_refl eq_refl eq_refl eq_refl
            (or_introl (ltac:(compute_done) : (0, 2) ∈ [(0, 2)]))
            eq_refl eq_refl _).
  - exact contact_wellFormed.
  - intros r b Hr Hb Hid. vm_compute in Hr.
    repeat (apply elem_of_cons in Hr as [-> | Hr];
            [vm_compute in Hb; injection Hb as <-; first [done | discriminate Hid] |]).
    by apply elem_of_nil in Hr.
Defined.

(** * More facts about double-precision arithmetic *)

Lemma nan_mul_r x : (x * nan)%float = nan.
Proof.
  apply (float_of_spec _ S754_nan). rewrite mul_spec.
  destruct (Prim2SF x); reflexivity.
Qed.

Lemma binary_round_unsigned prec emax s m e :
  unsigned (binary_round prec emax s m e)
  = unsigned (binary_round prec emax false m e).
Proof.
  unfold binary_round, binary_round_aux.
  destruct (shl_align m e _) as [mz ez].
  destruct (shr_fexp prec emax (Z.pos mz) ez loc_Exact) as [mrs' e'].
  destruct (shr_fexp prec emax _ e' loc_Exact) as [mrs'' e''].
  destruct (shr_m mrs''); [reflexivity | | reflexivity].
  destruct (e'' <=? emax - prec)%Z; reflexivity.
Qed.

Lemma binary_normalize_opp_unsigned prec emax m e :
  unsigned (binary_normalize prec emax (- m) e false)
  = unsigned (binary_normalize prec emax m e false).
Proof.
  destruct m as [| q | q]; simpl; [reflexivity | |].
  - apply binary_round_unsigned.
  - symmetry. apply binary_round_unsigned.
Qed.

(** [y - x] is [x - y] with the other sign. *)
Lemma SFsub_swap_unsigned prec emax x y :
  unsigned (SFsub prec emax y x) = unsigned (SFsub prec emax x y).
Proof.
  destruct x as [sx | sx | | sx mx ex], y as [sy | sy | | sy my ey];
    try reflexivity; try (destruct sx, sy; reflexivity).
  unfold SFsub. rewrite (Z.min_comm ey ex).
  rewrite <- binary_normalize_opp_unsigned. f_equal. f_equal. lia.
Qed.

Lemma SFmul_square_unsigned prec emax p :
  SFmul prec emax p p = SFmul prec emax (unsigned p) (unsigned p).
Proof. destruct p as [s | s | | s m e]; simpl; try reflexivity; by destruct s. Qed.

(** The square of a difference does not depend on the order of the
    operands, bit for bit. *)
Lemma sub_square_swap (a b : float) :
  ((a - b) * (a - b))%float = ((b - a) * (b - a))%float.
Proof.
  apply Prim2SF_inj. rewrite !mul_spec, !sub_spec. unfold SF64mul, SF64sub.
  rewrite (SFmul_square_unsigned _ _ (SFsub _ _ (Prim2SF a) (Prim2SF b))).
  rewrite (SFmul_square_unsigned _ _ (SFsub _ _ (Prim2SF b) (Prim2SF a))).
  by rewrite (SFsub_swap_unsigned _ _ (Prim2SF a) (Prim2SF b)).
Qed.

(** * One distance *)

(** X6.  The simulator computes the planet-sun distance in three places
    with the operands of the subtractions in two different orders; the
    results are the same double.  The force of the panel's "Gravitational
    Force" row is [G * M * m / (d * d)] for the very [d] that the
    "Distance from Sun" row shows, the escape test compares that [d] with
    5000, and the gravity loop accelerates by that force over the planet's
    mass: the velocity it hands to [Matter.Body.setVelocity] is the
    planet's own plus that acceleration along the direction to the sun. *)
Theorem one_distance
  (M : Math.t) (remainder : float -> float -> float) (body sun : Body.t) :
  let d := PlanetPosition.distance (calculatePlanetPosition M remainder body sun) in
  calculateGravitationalForce body sun
  = ((GRAVITY_CONSTANT * Body.mass sun * Body.mass body) / (d * d))%float
  /\ beyondEscape body sun = PrimFloat.ltb 5000 d
  /\ let angle :=
       Math.atan2 M
         (Vector.y (Body.position sun) - Vector.y (Body.position body))%float
         (Vector.x (Body.position sun) - Vector.x (Body.position body))%float in
     applyGravity M sun body
     = Body.setVelocity body
         {| Vector.x :=
              (Vector.x (Body.velocity body)
               + Math.cos M angle
                 * (calculateGravitationalForce body sun / Body.mass body))%float;
            Vector.y :=
              (Vector.y (Body.velocity body)
               + Math.sin M angle
                 * (calculateGravitationalForce body sun / Body.mass body))%float |}.
Proof.
  unfold calculatePlanetPosition, calculateGravitationalForce, beyondEscape,
    applyGravity. cbv zeta. simpl PlanetPosition.distance.
  rewrite (sub_square_swap (Vector.x (Body.position sun))),
    (sub_square_swap (Vector.y (Body.position sun))).
  split; [reflexivity |]. split; reflexivity.
Qed.

(** * The diagnostic at the sun's centre *)

(** X7.  For a body that is neither locked nor static and whose centre
    is the sun's, the orbital diagnostic divides zero by zero: both
    components are NaN, whatever the body's velocity. *)
Theorem coincident_diagnostic_is_nan (body sun : Body.t) :
  JS.truthy_flag (Body.isLocked body) = false ->
  Body.isStatic body = false ->
  Body.position body = Body.position sun ->
  JS.is_finite (Vector.x (Body.position sun)) = true ->
  JS.is_finite (Vector.y (Body.position sun)) = true ->
  calculateOrbitalVelocity body sun
  = {| OrbitalVelocity.radial := nan; OrbitalVelocity.tangential := nan |}.
Proof.
  intros Hl Hst Hpos Hx Hy. unfold calculateOrbitalVelocity.
  rewrite Hl, Hst, Hpos, !(sub_diag_finite _ Hx), !(sub_diag_finite _ Hy).
  cbv zeta. simpl orb. cbv iota.
  change (0 / PrimFloat.sqrt (0 * 0 + 0 * 0))%float with nan.
  by rewrite !nan_mul_r.
Qed.

Lemma coincident_diagnostic_is_nan_witness :
  calculateOrbitalVelocity swallowed theSun
  = {| OrbitalVelocity.radial := nan; OrbitalVelocity.tangential := nan |}.
Proof.
  exact (coincident_diagnostic_is_nan swallowed theSun
           eq_refl eq_refl eq_refl eq_refl eq_refl).
Defined.

(** * Planet colours *)

Lemma string_length_app (s1 s2 : string) :
  String.length (s1 ++ s2) = String.length s1 + String.length s2.
Proof. induction s1 as [| c s1 IH]; simpl; [done | by rewrite IH]. Qed.

Lemma hexValue_hexDigit d : (d < 16)%N -> hexValue (hexDigit d) = Some d.
Proof.
  intros Hd. destruct d as [| p]; [reflexivity |].
  do 4 (destruct p as [p | p |]; try reflexivity); lia.
Qed.

Lemma parseHexFrom_snoc acc s c d :
  hexValue c = Some d ->
  parseHexFrom acc (s ++ String c EmptyString)
  = (fun v => 16 * v + d)%N <$> parseHexFrom acc s.
Proof.
  intros Hc. revert acc; induction s as [| c' s IH]; intros acc; simpl.
  - by rewrite Hc.
  - destruct (hexValue c'); [apply IH | done].
Qed.

Lemma hexDigits_value fuel n :
  (n < 16 ^ N.of_nat fuel)%N -> parseHexFrom 0 (hexDigits fuel n) = Some n.
Proof.
  revert n; induction fuel as [| fuel IH]; intros n Hn.
  - simpl in *. f_equal. lia.
  - simpl. destruct (N.eqb_spec n 0) as [-> | Hne]; [done |].
    rewrite (parseHexFrom_snoc _ _ _ (n mod 16)%N).
    2:{ apply hexValue_hexDigit. by apply N.mod_lt. }
    rewrite IH.
    + simpl. f_equal. symmetry. apply N.div_mod. done.
    + apply N.Div0.div_lt_upper_bound.
      rewrite Nat2N.inj_succ, N.pow_succ_r' in Hn. done.
Qed.

Lemma hexDigits_length fuel n k :
  (n < 16 ^ N.of_nat k)%N -> String.length (hexDigits fuel n) <= k.
Proof.
  revert n k; induction fuel as [| fuel IH]; intros n k Hn; simpl; [lia |].
  destruct (N.eqb_spec n 0) as [-> | Hne]; simpl; [lia |].
  rewrite string_length_app. simpl.
  destruct k as [| k]; [simpl in Hn; lia |].
  specialize (IH (n / 16)%N k).
  rewrite Nat2N.inj_succ, N.pow_succ_r' in Hn.
  assert (n / 16 < 16 ^ N.of_nat k)%N by (by apply N.Div0.div_lt_upper_bound).
  specialize (IH H). lia.
Qed.

Lemma toString16_value n : parseHexFrom 0 (toString16 n) = Some n.
Proof.
  unfold toString16. destruct (N.eqb_spec n 0) as [-> | Hne]; [done |].
  apply hexDigits_value. rewrite N2Nat.id.
  eapply N.lt_le_trans; [apply N.size_gt |].
  apply N.pow_le_mono_l. lia.
Qed.

Lemma toString16_length n k :
  k <> 0 -> (n < 16 ^ N.of_nat k)%N -> String.length (toString16 n) <= k.
Proof.
  intros Hk Hn. unfold toString16.
  destruct (N.eqb_spec n 0) as [-> | Hne]; [simpl; lia |].
  by apply hexDigits_length.
Qed.

Lemma parseHexFrom_zeros k s :
  parseHexFrom 0 (repeatChar k "0" ++ s) = parseHexFrom 0 s.
Proof. induction k as [| k IH]; simpl; done. Qed.

Lemma repeatChar_length k c : String.length (repeatChar k c) = k.
Proof. induction k as [| k IH]; simpl; [done | by rewrite IH]. Qed.

(** X8.  The colour [createPlanet] gives a planet is always of the form
    [#rrggbb]: for every number below [2^24] that the draw can give, the
    string has a [#] and exactly six hexadecimal digits, and the digits
    read back as the number drawn, so that different draws give different
    colours. *)
Theorem planetColor_is_six_digits (n : N) :
  (n < 16777216)%N ->
  String.length (planetColor n) = 7 /\ colorValue (planetColor n) = Some n.
Proof.
  intros Hn. unfold planetColor, colorValue, padStart.
  pose proof (toString16_length n 6 ltac:(done) Hn) as Hlen.
  split.
  - simpl. rewrite string_length_app, repeatChar_length. lia.
  - cbv iota. rewrite parseHexFrom_zeros. apply toString16_value.
Qed.

Lemma planetColor_is_six_digits_witness :
  String.length (planetColor 2748) = 7
  /\ colorValue (planetColor 2748) = Some 2748%N.
Proof. exact (planetColor_is_six_digits 2748 eq_refl). Defined.

(** X9.  Without the padding, as the sibling variants of the simulator
    write it, the colour is too short to be of the form [#rrggbb] for
    every draw below [16^5], one draw in sixteen; it still reads back as
    the number drawn. *)
Theorem planetColorUnpadded_can_be_short (n : N) :
  (n < 1048576)%N ->
  String.length (planetColorUnpadded n) < 7
  /\ colorValue (planetColorUnpadded n) = Some n.
Proof.
  intros Hn. unfold planetColorUnpadded, colorValue.
  pose proof (toString16_length n 5 ltac:(done) Hn) as Hlen.
  split; [simpl; lia | apply toString16_value].
Qed.

Lemma planetColorUnpadded_can_be_short_witness :
  String.length (planetColorUnpadded 2748) < 7
  /\ colorValue (planetColorUnpadded 2748) = Some 2748%N.
Proof. exact (planetColorUnpadded_can_be_short 2748 eq_refl). Defined.

(** * The invariant of the component *)

Lemma sameIdentities_refl h : sameIdentities h h.
Proof. by intros r. Qed.

Lemma sameIdentities_trans h1 h2 h3 :
  sameIdentities h1 h2 -> sameIdentities h2 h3 -> sameIdentities h1 h3.
Proof. intros H12 H23 r. by rewrite H23, H12. Qed.

Lemma sameIdentities_fwd h h' r b :
  sameIdentities h h' -> h !! r = Some b ->
  exists b', h' !! r = Some b' /\ ident b' = ident b.
Proof.
  intros H Hr. specialize (H r). rewrite Hr in H.
  destruct (h' !! r) as [b' |]; simpl in H; [| done].
  exists b'. split; [done | congruence].
Qed.

Lemma sameIdentities_bwd h h' r b' :
  sameIdentities h h' -> h' !! r = Some b' ->
  exists b, h !! r = Some b /\ ident b' = ident b.
Proof.
  intros H Hr. specialize (H r). rewrite Hr in H.
  destruct (h !! r) as [b |]; simpl in H; [| done].
  exists b. split; [done | congruence].
Qed.

Lemma sameIdentities_isSunAt s s' r :
  sameIdentities (Sim.heap s) (Sim.heap s') -> isSunAt s' r = isSunAt s r.
Proof.
  intros H. unfold isSunAt. specialize (H r).
  destruct (Sim.heap s !! r) as [b |], (Sim.heap s' !! r) as [b' |];
    simpl in H; try done.
  unfold ident in H. congruence.
Qed.

Lemma onlyVelocities_identities h h' : onlyVelocities h h' -> sameIdentities h h'.
Proof.
  intros H r. specialize (H r).
  destruct (h !! r) as [b |], (h' !! r) as [b' |]; try done.
  destruct (sameButVelocity_fields _ _ H) as (Hid & _ & _ & _ & Hsun & _).
  simpl. unfold ident. by rewrite Hid, Hsun.
Qed.

Lemma sameIdentities_insert h r b b' :
  h !! r = Some b -> ident b' = ident b -> sameIdentities h (<[r := b']> h).
Proof.
  intros Hr E x. destruct (decide (r = x)) as [<- | Hne].
  - rewrite lookup_insert_eq, Hr. simpl. by rewrite E.
  - by rewrite lookup_insert_ne.
Qed.

Lemma stepOk_refl s : stepOk s s.
Proof.
  split; [apply sameIdentities_refl |]. repeat split; auto.
  intros p' Hp. left. by exists p'.
Qed.

(** A step that only changes the form, the held flag, the ref or what the
    mouse constraint holds. *)
Lemma stepOk_same s s' :
  Sim.heap s' = Sim.heap s -> Sim.world s' = Sim.world s ->
  Sim.selectedBody s' = Sim.selectedBody s -> stepOk s s'.
Proof.
  intros Hh Hw Hsel. unfold stepOk. rewrite Hh, Hw, Hsel.
  split; [apply sameIdentities_refl |]. repeat split; auto.
  intros p' Hp. left. by exists p'.
Qed.

(** A step that selects an object, or nothing. *)
Lemma stepOk_select s s' :
  Sim.heap s' = Sim.heap s -> Sim.world s' = Sim.world s ->
  (forall p', Sim.selectedBody s' = Some p' ->
     exists r b, Sim.heap s !! r = Some b
                 /\ CelestialBodyProperties.id p' = Body.id b
                 /\ CelestialBodyProperties.isSun p' = Body.isSun b) ->
  stepOk s s'.
Proof.
  intros Hh Hw Hsel. unfold stepOk. rewrite Hh, Hw.
  split; [apply sameIdentities_refl |]. repeat split; auto.
  intros p' Hp. right. destruct (Hsel p' Hp) as (r & b & Hr & Hid & Hsun).
  exists r, b. split; [done |]. split; congruence.
Qed.

Lemma good_step n s s' : good n s -> stepOk s s' -> good n s'.
Proof.
  intros ([Hnd Hobj] & Huniq & Hbelow & Hagree & Hsb & Hin0 & (sb & Hs0 & Hid0) & Hone)
         (Hi & Hn & Hs & Hk & Hp).
  assert (Hagree' : snapshotAgrees (Sim.heap s') (Sim.selectedBody s')).
  { intros p' r b' Hsel Hr Hid.
    destruct (sameIdentities_bwd _ _ _ _ Hi Hr) as (b & Hb & E).
    unfold ident in E. injection E as Eid Esun. rewrite Esun.
    destruct (Hp p' Hsel) as [(p & Hsel0 & Hidp & Hsunp) | (r0 & b0 & Hr0 & Hidp & Hsunp)].
    - rewrite Hsunp. eapply Hagree; eauto. congruence.
    - rewrite Hsunp. assert (r = r0) as -> by (eapply Huniq; eauto; congruence).
      congruence. }
  assert (Hsb' : snapshotBelow n (Sim.selectedBody s')).
  { intros p' Hsel.
    destruct (Hp p' Hsel) as [(p & Hsel0 & Hidp & _) | (r0 & b0 & Hr0 & Hidp & _)].
    - rewrite Hidp. by apply Hsb.
    - rewrite Hidp. by eapply Hbelow. }
  split; [split; [auto |] |].
  { intros r Hr. destruct (Hobj r (Hs r Hr)) as [b Hb].
    destruct (sameIdentities_fwd _ _ _ _ Hi Hb) as (b' & Hb' & _). by exists b'. }
  split.
  { intros r1 r2 b1 b2 H1 H2 Hid.
    destruct (sameIdentities_bwd _ _ _ _ Hi H1) as (c1 & Hc1 & E1).
    destruct (sameIdentities_bwd _ _ _ _ Hi H2) as (c2 & Hc2 & E2).
    unfold ident in E1, E2. eapply Huniq; eauto. congruence. }
  split.
  { intros r b' Hr. destruct (sameIdentities_bwd _ _ _ _ Hi Hr) as (b & Hb & E).
    unfold ident in E. injection E as -> _. by eapply Hbelow. }
  split; [done |]. split; [done |].
  split; [apply Hk; [done | by apply Hone] |].
  split.
  { destruct (sameIdentities_fwd _ _ _ _ Hi Hs0) as (sb' & Hs0' & E).
    exists sb'. split; [done |]. unfold ident in E. congruence. }
  intros r. rewrite (sameIdentities_isSunAt s s') by done. apply Hone.
Qed.

Lemma fold_remove_subset (P : nat -> bool) l w x :
  x ∈ fold_left (fun w r => if P r then Composite.remove w r else w) l w -> x ∈ w.
Proof.
  revert w; induction l as [| r l IH]; intros w; simpl; [done |].
  intros Hx. apply IH in Hx. destruct (P r); [by eapply remove_subset | done].
Qed.

Lemma fold_remove_keeps (P : nat -> bool) l w x :
  x ∈ w -> P x = false ->
  x ∈ fold_left (fun w r => if P r then Composite.remove w r else w) l w.
Proof.
  revert w; induction l as [| r l IH]; intros w Hx HP; simpl; [done |].
  apply IH; [| done]. destruct (P r) eqn:HPr; [| done].
  apply remove_other; [done |]. intros ->. congruence.
Qed.

Lemma fold_remove_NoDup (P : nat -> bool) l w :
  NoDup w -> NoDup (fold_left (fun w r => if P r then Composite.remove w r else w) l w).
Proof.
  revert w; induction l as [| r l IH]; intros w Hnd; simpl; [done |].
  apply IH. destruct (P r); [by apply remove_NoDup | done].
Qed.

Lemma escapeLoop_selection sun l s :
  Sim.selectedBody (fold_left (lockedAndEscapeEach sun) l s) = Sim.selectedBody s
  \/ Sim.selectedBody (fold_left (lockedAndEscapeEach sun) l s) = None.
Proof.
  revert s; induction l as [| r l IH]; intros s; simpl; [by left |].
  destruct (IH (lockedAndEscapeEach sun s r)) as [H | H]; [| by right].
  rewrite H.
  destruct (lockedAndEscapeEach_cases sun s r)
    as (_ & _ & _ & [[_ Hs] | (_ & _ & [Hs | Hs] & _)]); auto.
Qed.

Lemma hoverSnapshot_ident b sb :
  CelestialBodyProperties.id (hoverSnapshot b sb) = Body.id b
  /\ CelestialBodyProperties.isSun (hoverSnapshot b sb) = Body.isSun b.
Proof. done. Qed.

Lemma hoverSelect_selected pointer sun s :
  Sim.selectedBody (hoverSelect pointer sun s) = Sim.selectedBody s
  \/ exists r b sb, Sim.heap s !! r = Some b
       /\ Sim.selectedBody (hoverSelect pointer sun s) = Some (hoverSnapshot b sb).
Proof.
  unfold hoverSelect. destruct (Pointer.isMouseDown pointer); [| by left].
  destruct (head (Pointer.bodiesAtPoint pointer)) as [r |]; [| by left].
  destruct (Sim.heap s !! r) as [b |] eqn:Hr; [| by left].
  destruct (Sim.heap s !! sun) as [sb |]; [| by left].
  destruct (negb (JS.truthy_flag (Body.isSun b)) && negb (refSelects s b));
    [| by left].
  right. by exists r, b, sb.
Qed.

Lemma beforeUpdate_stepOk M pointer s : stepOk s (beforeUpdate M pointer s).
Proof.
  pose proof (beforeUpdate_frames M pointer s) as [Hov _].
  split; [by apply onlyVelocities_identities |].
  revert Hov. unfold beforeUpdate, Sim.allBodies.
  destruct (findSun s (Sim.world s)) as [sun |] eqn:Hsun.
  2:{ intros _. repeat split; auto. intros p' Hp. left. by exists p'. }
  set (s1 := fold_left (gravityEach M sun) (Sim.world s) s).
  set (s2 := fold_left (lockedAndEscapeEach sun) (Sim.world s) s1).
  intros Hov.
  destruct (hoverSelect_form pointer sun s2) as (Hh3 & Hw3 & _).
  destruct (escapeLoop_exact sun (Sim.world s) s s1) as (Hov2 & _ & Hw2);
    [apply gravityLoop_onlyVelocities |].
  fold s2 in Hov2, Hw2.
  destruct (gravityLoop_rest M sun (Sim.world s) s) as (Hw1 & Hsel1 & _).
  fold s1 in Hw1, Hsel1.
  rewrite Hw3, Hw2, Hw1.
  split; [apply fold_remove_NoDup |].
  split; [intros x; apply fold_remove_subset |].
  split.
  { intros x Hx Hsx. apply fold_remove_keeps; [done |]. by apply escapes_sun_false. }
  intros p' Hp.
  destruct (hoverSelect_selected pointer sun s2) as [Hsame | (r & b & sb & Hr & Hnew)].
  - rewrite Hsame in Hp. destruct (escapeLoop_selection sun (Sim.world s) s1) as [H | H];
      fold s2 in H; rewrite H in Hp; [| done].
    rewrite Hsel1 in Hp. left. by exists p'.
  - rewrite Hnew in Hp. injection Hp as <-.
    destruct (onlyVelocities_lookup _ _ _ _ Hov2 Hr) as (b0 & Hb0 & E).
    destruct (sameButVelocity_fields _ _ E) as (Hid & _ & _ & _ & Hs & _).
    right. exists r, b0. split; [done |].
    destruct (hoverSnapshot_ident b sb) as [-> ->]. split; congruence.
Qed.

Lemma fold_remove_plain_NoDup l w :
  NoDup w -> NoDup (fold_left Composite.remove l w).
Proof. exact (fold_remove_NoDup (fun _ => true) l w). Qed.

Lemma fold_remove_plain_subset l w x :
  x ∈ fold_left Composite.remove l w -> x ∈ w.
Proof. exact (fold_remove_subset (fun _ => true) l w x). Qed.

Lemma fold_remove_plain_keeps l w x :
  x ∈ w -> x ∉ l -> x ∈ fold_left Composite.remove l w.
Proof.
  revert w; induction l as [| r l IH]; intros w Hx Hl; simpl; [done |].
  apply not_elem_of_cons in Hl as [Hne Hl].
  apply IH; [| done]. by apply remove_other.
Qed.

Lemma collisionStart_stepOk pairs s : stepOk s (collisionStart pairs s).
Proof.
  destruct (collisionStart_exact pairs s) as (Hh & _ & Hw).
  unfold stepOk. rewrite Hh, Hw.
  split; [apply sameIdentities_refl |].
  split; [apply fold_remove_plain_NoDup |].
  split; [intros x; apply fold_remove_plain_subset |].
  split.
  - intros x Hx Hsx. apply fold_remove_plain_keeps; [done |].
    intros ([a b] & _ & Hv)%list_elem_of_omap.
    apply victim_cases in Hv as [Hv _]. congruence.
  - intros p' Hp. left. exists p'. split; [| done].
    destruct (collisionStart_selection pairs s) as [H | H]; rewrite H in Hp; done.
Qed.

Lemma collisionActive_stepOk pairs s : stepOk s (collisionActive pairs s).
Proof.
  destruct (collisionActive_exact pairs s) as (Hov & Hw & Hsel & _).
  unfold stepOk. rewrite Hw, Hsel.
  split; [by apply onlyVelocities_identities |]. repeat split; auto.
  intros p' Hp. left. by exists p'.
Qed.

Lemma engineUpdate_stepOk motion s : stepOk s (engineUpdate motion s).
Proof.
  unfold stepOk, engineUpdate. simpl. split.
  - intros r. rewrite map_lookup_imap.
    destruct (Sim.heap s !! r) as [b |]; [| done].
    simpl. by destruct b.
  - repeat split; auto. intros p' Hp. left. by exists p'.
Qed.

Lemma find_Some_elem {A} (p : A -> bool) l x :
  List.find p l = Some x -> x ∈ l /\ p x = true.
Proof.
  intros H. apply List.find_some in H as [Hin Hp].
  split; [by apply list_elem_of_In | done].
Qed.

Lemma findById_Some s l id r :
  findById s l id = Some r ->
  r ∈ l /\ exists b, Sim.heap s !! r = Some b /\ Body.id b = id.
Proof.
  intros H. apply find_Some_elem in H as [Hin Hp]. split; [done |].
  destruct (Sim.heap s !! r) as [b |]; [| done].
  exists b. split; [done | by apply Nat.eqb_eq].
Qed.

Lemma pollSelected_stepOk s : stepOk s (pollSelected s).
Proof.
  unfold pollSelected, Sim.allBodies.
  destruct (Sim.selectedBody s) as [sel |] eqn:Hsel; [| apply stepOk_refl].
  destruct (findSun s (Sim.world s)) as [sun |]; [| apply stepOk_refl].
  destruct (findById s (Sim.world s) (CelestialBodyProperties.id sel))
    as [r |] eqn:Hfind.
  2:{ by apply stepOk_select. }
  destruct (Sim.heap s !! r) as [body |] eqn:Hr; [| apply stepOk_refl].
  destruct (Sim.heap s !! sun) as [sunBody |]; [| apply stepOk_refl].
  apply stepOk_select; [done | done |].
  simpl. intros p' [= <-]. by exists r, body.
Qed.

Lemma commitToBody_ident sel ev body : ident (commitToBody sel ev body) = ident body.
Proof.
  destruct body as [id st pos vel m im dens ar rad fs isSun nm lk lv col dt].
  unfold commitToBody, oldRadiusOf, applyLocked, Body.scale, ident.
  destruct (JS.truthy_flag (CelestialBodyProperties.isSun sel)); simpl.
  - scale_cases rad.
  - destruct (EditingValues.isLocked ev); [| destruct lv as [v |]]; simpl;
      scale_cases rad.
Qed.

Lemma update_identities r f s :
  (forall b, ident (f b) = ident b) ->
  sameIdentities (Sim.heap s) (Sim.heap (Sim.update r f s)).
Proof.
  intros Hf. unfold Sim.update.
  destruct (Sim.heap s !! r) as [b |] eqn:Hr; [| apply sameIdentities_refl].
  simpl. by eapply sameIdentities_insert.
Qed.

Lemma doneClick_stepOk s : stepOk s (doneClick s).
Proof.
  unfold doneClick.
  destruct (Sim.selectedBody s) as [sel |] eqn:Hsel; [| apply stepOk_refl].
  destruct (Sim.editingValues s) as [ev |]; [| by apply stepOk_same].
  set (s' := match findById s (Sim.allBodies s) (CelestialBodyProperties.id sel) with
             | Some r => Sim.update r (commitToBody sel ev) s
             | None => s
             end).
  assert (sameIdentities (Sim.heap s) (Sim.heap s') /\ Sim.world s' = Sim.world s)
    as [Hi Hw].
  { subst s'. destruct (findById s _ _) as [r |].
    - split; [apply update_identities, commitToBody_ident | apply update_rest].
    - split; [apply sameIdentities_refl | done]. }
  unfold stepOk. simpl. rewrite Hw. split; [done |]. repeat split; auto.
  intros p' [= <-]. left. by exists sel.
Qed.

Lemma deleteClick_stepOk n s :
  good n s -> sunSelected s = false -> stepOk s (deleteClick s).
Proof.
  intros (_ & _ & _ & Hagree & _) Hplanet. unfold deleteClick, sunSelected in *.
  destruct (Sim.selectedBody s) as [sel |] eqn:Hsel; [| apply stepOk_refl].
  destruct (findById s (Sim.allBodies s) (CelestialBodyProperties.id sel))
    as [r |] eqn:Hfind; [| apply stepOk_refl].
  apply findById_Some in Hfind as (_ & b & Hr & Hid).
  unfold stepOk. simpl. split; [apply sameIdentities_refl |].
  split; [apply remove_NoDup |]. split; [intros x; apply remove_subset |].
  split; [| done].
  intros x Hx Hsx. apply remove_other; [done |]. intros ->.
  unfold isSunAt in Hsx. rewrite Hr in Hsx.
  rewrite (Hagree sel r b eq_refl Hr Hid) in Hsx. congruence.
Qed.

Lemma planetClick_stepOk planet s : stepOk s (planetClick planet s).
Proof.
  unfold planetClick.
  destruct (findSun s (Sim.allBodies s)) as [sun |]; [| apply stepOk_refl].
  destruct (Sim.heap s !! planet) as [pb |] eqn:Hp; [| apply stepOk_refl].
  destruct (Sim.heap s !! sun) as [sb |]; [| apply stepOk_refl].
  apply stepOk_select.
  - by destruct (Sim.isEditing s).
  - by destruct (Sim.isEditing s).
  - simpl. intros p' [= <-]. by exists planet, pb.
Qed.

Lemma createPlanet_ident M outlineArea draws distance size override next :
  ident (fst (createPlanet M outlineArea draws distance size override next))
  = (default next override, false).
Proof. reflexivity. Qed.

Lemma addBody_good n body s :
  good n s -> ident body = (n, false) -> good (S n) (addBody body s).
Proof.
  intros ([Hnd Hobj] & Huniq & Hbelow & Hagree & Hsb & Hin0 & (sb & Hs0 & Hid0) & Hone)
         Hbody.
  unfold ident in Hbody. injection Hbody as Hid Hsun.
  unfold addBody. set (r := fresh (dom (Sim.heap s))).
  assert (Hfresh : Sim.heap s !! r = None).
  { apply not_elem_of_dom. apply is_fresh. }
  assert (Hnew : forall x b, <[r := body]> (Sim.heap s) !! x = Some b ->
                   (x = r /\ b = body) \/ (x <> r /\ Sim.heap s !! x = Some b)).
  { intros x b. destruct (decide (r = x)) as [<- | Hne].
    - rewrite lookup_insert_eq. intros [= <-]. by left.
    - rewrite lookup_insert_ne by done. by right. }
  assert (Hout : r ∉ Sim.world s).
  { intros Hr. destruct (Hobj r Hr) as [b Hb]. congruence. }
  split; [split |]; simpl.
  { apply NoDup_app. split; [done |]. split; [| apply NoDup_singleton].
    intros x Hx ->%list_elem_of_singleton. done. }
  { intros x [Hx | ->%list_elem_of_singleton]%elem_of_app.
    - destruct (Hobj x Hx) as [b Hb]. exists b.
      rewrite lookup_insert_ne; [done |]. intros <-. congruence.
    - rewrite lookup_insert_eq. by eexists. }
  split.
  { intros r1 r2 b1 b2 H1 H2 E.
    destruct (Hnew _ _ H1) as [[-> ->] | [Hne1 Hb1]],
             (Hnew _ _ H2) as [[-> ->] | [Hne2 Hb2]]; [done | | |].
    - apply Hbelow in Hb2. lia.
    - apply Hbelow in Hb1. lia.
    - by eapply Huniq. }
  split.
  { intros x b Hx. destruct (Hnew _ _ Hx) as [[-> ->] | [_ Hb]]; [lia |].
    apply Hbelow in Hb. lia. }
  split.
  { intros p x b Hsel Hx E. destruct (Hnew _ _ Hx) as [[-> ->] | [_ Hb]].
    - apply Hsb in Hsel. lia.
    - by eapply Hagree. }
  split; [intros p Hsel; apply Hsb in Hsel; lia |].
  split; [apply elem_of_app; by left |].
  assert (H0 : r <> 0) by (intros E; rewrite E in Hfresh; congruence).
  split.
  { exists sb. split; [| done]. simpl. by rewrite lookup_insert_ne. }
  intros x. rewrite <- Hone. unfold isSunAt. simpl.
  destruct (decide (r = x)) as [<- | Hne].
  - rewrite lookup_insert_eq, Hfresh, Hsun. done.
  - by rewrite lookup_insert_ne.
Qed.

Lemma constraintMouseDown_stepOk bodiesAtPoint a :
  stepOk (App.sim a) (App.sim (constraintMouseDown bodiesAtPoint a)).
Proof.
  unfold constraintMouseDown.
  set (s := App.sim a).
  destruct (head bodiesAtPoint) as [clicked |].
  2:{ simpl. apply stepOk_select; [| | intros p'];
        by destruct (App.isEditingRef a). }
  destruct (findSun s (Sim.allBodies s)) as [sun |].
  2:{ simpl. apply stepOk_select; [| | intros p'];
        by destruct (App.isEditingRef a). }
  destruct (Sim.heap s !! clicked) as [cb |] eqn:Hc.
  2:{ simpl. apply stepOk_select; [| | intros p'];
        by destruct (App.isEditingRef a). }
  destruct (Sim.heap s !! sun) as [sb |].
  2:{ simpl. apply stepOk_select; [| | intros p'];
        by destruct (App.isEditingRef a). }
  simpl.
  match goal with |- context [if ?c then closeForm s else s] => destruct c end;
    (apply stepOk_select; [done | done |]);
    simpl; intros p' [= <-]; by exists clicked, cb.
Qed.

Lemma canvasMouseDown_stepOk a : stepOk (App.sim a) (App.sim (canvasMouseDown a)).
Proof.
  unfold canvasMouseDown.
  destruct (grabModeRef && bool_decide (is_Some (Sim.selectedBodyRef (App.sim a))));
    by apply stepOk_same.
Qed.

Lemma constraintMouseDown_next bodiesAtPoint a :
  App.nextPlanetNumber (constraintMouseDown bodiesAtPoint a) = App.nextPlanetNumber a.
Proof.
  unfold constraintMouseDown.
  match goal with |- context [match ?c with Some _ => _ | None => _ end] =>
    destruct c as [[cb sb] |] end; reflexivity.
Qed.

Lemma canvasMouseDown_next a :
  App.nextPlanetNumber (canvasMouseDown a) = App.nextPlanetNumber a.
Proof.
  unfold canvasMouseDown.
  by destruct (grabModeRef && bool_decide (is_Some (Sim.selectedBodyRef (App.sim a)))).
Qed.

(** Every handler but that of [Add Planet] is such a step, and leaves
    the planet counter alone. *)
Lemma handle_stepOk M outlineArea e a :
  invariant a ->
  (forall draws, e <> AddPlanetButton draws) ->
  stepOk (App.sim a) (App.sim (handle M outlineArea e a))
  /\ App.nextPlanetNumber (handle M outlineArea e a) = App.nextPlanetNumber a.
Proof.
  intros [Hgood _] Hnot.
  assert (Hbuf : forall f, stepOk (App.sim a) (bufferField f (App.sim a))).
  { intros f. unfold bufferField. destruct (Sim.editingValues (App.sim a));
      [by apply stepOk_same | apply stepOk_refl]. }
  destruct e; try solve [exfalso; eapply Hnot; reflexivity]; simpl;
    try (destruct (Sim.isEditing (App.sim a)) eqn:Hed; simpl);
    (split;
      [| first [reflexivity | apply constraintMouseDown_next
                | apply canvasMouseDown_next
                | solve [repeat case_match; reflexivity]]]);
    try apply stepOk_refl.
  - apply engineUpdate_stepOk.
  - apply engineUpdate_stepOk.
  - apply beforeUpdate_stepOk.
  - apply beforeUpdate_stepOk.
  - apply collisionStart_stepOk.
  - apply collisionStart_stepOk.
  - apply collisionActive_stepOk.
  - apply collisionActive_stepOk.
  - by apply stepOk_same.
  - by apply stepOk_same.
  - apply constraintMouseDown_stepOk.
  - apply constraintMouseDown_stepOk.
  - apply canvasMouseDown_stepOk.
  - apply canvasMouseDown_stepOk.
  - by apply stepOk_same.
  - by apply stepOk_same.
  - apply pollSelected_stepOk.
  - apply pollSelected_stepOk.
  - unfold editClick. destruct (Sim.selectedBody (App.sim a));
      [by apply stepOk_same | apply stepOk_refl].
  - apply Hbuf.
  - apply Hbuf.
  - apply Hbuf.
  - apply Hbuf.
  - apply Hbuf.
  - apply doneClick_stepOk.
  - destruct (sunSelected (App.sim a)) eqn:Hsun; [apply stepOk_refl |].
    by eapply deleteClick_stepOk.
  - case_match; [apply planetClick_stepOk | apply stepOk_refl].
  - case_match; [apply planetClick_stepOk | apply stepOk_refl].
Qed.

Lemma render_invariant a :
  good (App.nextPlanetNumber a) (App.sim a) -> invariant (App.render a).
Proof.
  intros Hgood. split; [| reflexivity]. simpl.
  eapply good_step; [exact Hgood |]. by apply stepOk_same.
Qed.

Lemma addPlanetClick_good M outlineArea draws a :
  invariant a ->
  good (App.nextPlanetNumber (addPlanetClick M outlineArea draws a))
       (App.sim (addPlanetClick M outlineArea draws a)).
Proof.
  intros [Hgood Href]. unfold addPlanetClick.
  pose proof (createPlanet_ident M outlineArea draws None None None
                (App.createPlanetRef a)) as Hid.
  destruct (createPlanet M outlineArea draws None None None (App.createPlanetRef a))
    as [planet counted] eqn:Hcreate.
  assert (counted = true) as ->.
  { unfold createPlanet in Hcreate. by injection Hcreate as _ <-. }
  simpl in *. apply addBody_good; [done |]. by rewrite Hid, Href.
Qed.

(** The invariant holds after an event when it held before it. *)
Lemma dispatch_invariant M outlineArea a e :
  invariant a -> invariant (dispatch M outlineArea a e).
Proof.
  intros Hinv. unfold dispatch. apply render_invariant.
  destruct e; [.. | by apply addPlanetClick_good];
    (match goal with
     | |- good _ (App.sim (handle _ _ ?e _)) =>
         destruct (handle_stepOk M outlineArea e a Hinv) as [Hstep Hn];
         [intros ?; discriminate |];
         rewrite Hn; destruct Hinv as [Hgood _]; by eapply good_step
     end).
Qed.

Lemma run_invariant M outlineArea events a :
  invariant a -> invariant (run M outlineArea events a).
Proof.
  unfold run. revert a; induction events as [| e events IH]; intros a Hinv;
    simpl; [done |].
  apply IH. by apply dispatch_invariant.
Qed.

Lemma mount_invariant M outlineArea d1 d2 d3 d4 :
  invariant (mount M outlineArea d1 d2 d3 d4).
Proof.
  split; [| reflexivity]. unfold mount. cbv zeta.
  set (sun := createSun outlineArea).
  set (p1 := fst (createPlanet M outlineArea d1 (Some 100%float) (Some 10%float) (Some 1) 1)).
  set (p2 := fst (createPlanet M outlineArea d2 (Some 150%float) (Some 15%float) (Some 2) 1)).
  set (p3 := fst (createPlanet M outlineArea d3 (Some 200%float) (Some 16%float) (Some 3) 1)).
  set (p4 := fst (createPlanet M outlineArea d4 (Some 250%float) (Some 12%float) (Some 4) 1)).
  assert (Hheap : forall r b,
            (<[0 := sun]> (<[1 := p1]> (<[2 := p2]> (<[3 := p3]>
               (<[4 := p4]> (∅ : gmap nat Body.t))))))
              !! r = Some b ->
            ident b = (r, bool_decide (r = 0))).
  { intros r b Hr.
    repeat (apply lookup_insert_Some in Hr as [[<- <-] | [_ Hr]]; [reflexivity |]).
    by rewrite lookup_empty in Hr. }
  unfold good. simpl.
  split; [split; [compute_done |] |].
  { intros r Hr.
    repeat (apply elem_of_cons in Hr as [-> | Hr]; [by eexists |]).
    by apply elem_of_nil in Hr. }
  split.
  { intros r1 r2 b1 b2 H1 H2 E. apply Hheap in H1, H2.
    unfold ident in H1, H2. congruence. }
  split.
  { intros r b Hr. pose proof (Hheap r b Hr) as E. unfold ident in E.
    injection E as -> _.
    repeat (apply lookup_insert_Some in Hr as [[<- <-] | [_ Hr]]; [lia |]).
    by rewrite lookup_empty in Hr. }
  split; [done |]. split; [done |].
  split; [compute_done |].
  split; [by exists sun |].
  intros r. unfold isSunAt. simpl.
  destruct (_ !! r) as [b |] eqn:Hr.
  - apply Hheap in Hr. unfold ident in Hr. injection Hr as _ ->.
    by rewrite bool_decide_eq_true.
  - split; [done |]. intros ->. done.
Qed.

Lemma NoDup_omap {A B} (f : A -> option B) l :
  NoDup l ->
  (forall x y b, x ∈ l -> y ∈ l -> f x = Some b -> f y = Some b -> x = y) ->
  NoDup (omap f l).
Proof.
  induction 1 as [| x l Hx Hnd IH]; intros Hinj; csimpl; [constructor |].
  assert (Hrest : NoDup (omap f l)).
  { apply IH. intros y z b Hy Hz. apply Hinj; by right. }
  destruct (f x) as [b |] eqn:Hfx; [| done].
  constructor; [| done].
  intros (y & Hy & Hfy)%list_elem_of_omap. apply Hx.
  assert (x = y) as -> by (apply (Hinj x y b); [by left | by right | done | done]).
  done.
Qed.

Lemma good_worldIds n s : good n s -> NoDup (worldIds s).
Proof.
  intros ([Hnd _] & Huniq & _). unfold worldIds. apply NoDup_omap; [done |].
  intros x y id _ _ Hx Hy.
  destruct (Sim.heap s !! x) as [bx |] eqn:Ex; [| done].
  destruct (Sim.heap s !! y) as [by' |] eqn:Ey; [| done].
  simpl in Hx, Hy. eapply Huniq; eauto. congruence.
Qed.

Lemma good_findSun n s : good n s -> findSun s (Sim.world s) = Some 0.
Proof.
  intros (_ & _ & _ & _ & _ & Hin & _ & Hone). unfold findSun.
  destruct (List.find (isSunAt s) (Sim.world s)) as [r |] eqn:Hfind.
  - apply find_Some_elem in Hfind as [_ Hr]. f_equal. by apply Hone.
  - rewrite find_none_iff in Hfind. specialize (Hfind 0 Hin).
    assert (isSunAt s 0 = true) by (by apply Hone). congruence.
Qed.

(** X10.  From the mounted component, whatever events follow, the world
    lists each body once and only bodies that exist, no two bodies of the
    world have the same id, every id is below the planet counter, and
    the counter that the next [Add Planet] will use is the current one:
    added planets get ids that no body ever had. *)
Theorem ids_stay_unique
  (M : Math.t) (outlineArea : float -> float) (d1 d2 d3 d4 : Draws.t)
  (events : list Event) :
  let a := run M outlineArea events (mount M outlineArea d1 d2 d3 d4) in
  wellFormed (App.sim a)
  /\ NoDup (worldIds (App.sim a))
  /\ idsBelow (App.nextPlanetNumber a) (Sim.heap (App.sim a))
  /\ App.createPlanetRef a = App.nextPlanetNumber a.
Proof.
  pose proof (run_invariant M outlineArea events _
                (mount_invariant M outlineArea d1 d2 d3 d4)) as [Hgood Href].
  cbv zeta. split; [apply Hgood |]. split; [by eapply good_worldIds |].
  split; [apply Hgood | done].
Qed.

(** X11.  From the mounted component, whatever events follow, the sun
    is in the world, it is the body [findSun] returns, it has id 0, and
    no other body is a sun: no step, collision, edit or button removes or
    replaces it. *)
Theorem sun_is_never_removed
  (M : Math.t) (outlineArea : float -> float) (d1 d2 d3 d4 : Draws.t)
  (events : list Event) :
  let s := App.sim (run M outlineArea events (mount M outlineArea d1 d2 d3 d4)) in
  findSun s (Sim.world s) = Some 0
  /\ 0 ∈ Sim.world s
  /\ (exists sunBody, Sim.heap s !! 0 = Some sunBody /\ Body.id sunBody = 0)
  /\ forall r, isSunAt s r = true <-> r = 0.
Proof.
  pose proof (run_invariant M outlineArea events _
                (mount_invariant M outlineArea d1 d2 d3 d4)) as [Hgood _].
  cbv zeta. split; [by eapply good_findSun |].
  apply Hgood.
Qed.

(** * Locked planets over a run *)

Lemma lockedKept_same s s' :
  Sim.heap s' = Sim.heap s -> Sim.world s' = Sim.world s -> lockedKept s s'.
Proof. intros Hh Hw x. unfold isLockedAt. by rewrite Hh, Hw. Qed.

Lemma isLockedAt_onlyVelocities s s' r :
  onlyVelocities (Sim.heap s) (Sim.heap s') -> isLockedAt s' r = isLockedAt s r.
Proof.
  intros H. unfold isLockedAt. specialize (H r).
  destruct (Sim.heap s !! r) as [b |], (Sim.heap s' !! r) as [b' |]; try done.
  by destruct (sameButVelocity_fields _ _ H) as (_ & _ & _ & _ & _ & -> & _).
Qed.

Lemma escapes_locked_false s sun r : isLockedAt s r = true -> escapes s sun r = false.
Proof.
  unfold isLockedAt, escapes. destruct (Sim.heap s !! r) as [b |]; [| done].
  intros ->. destruct (Sim.heap s !! sun); [| done].
  by rewrite andb_false_r.
Qed.

Lemma beforeUpdate_world_fold M pointer s sun :
  findSun s (Sim.world s) = Some sun ->
  Sim.world (beforeUpdate M pointer s)
  = fold_left (fun w r => if escapes s sun r then Composite.remove w r else w)
      (Sim.world s) (Sim.world s).
Proof.
  intros Hsun. unfold beforeUpdate, Sim.allBodies. rewrite Hsun.
  destruct (hoverSelect_form pointer sun
              (fold_left (lockedAndEscapeEach sun) (Sim.world s)
                 (fold_left (gravityEach M sun) (Sim.world s) s)))
    as (_ & -> & _).
  destruct (escapeLoop_exact sun (Sim.world s) s
              (fold_left (gravityEach M sun) (Sim.world s) s))
    as (_ & _ & ->); [apply gravityLoop_onlyVelocities |].
  by destruct (gravityLoop_rest M sun (Sim.world s) s) as (-> & _).
Qed.

Lemma beforeUpdate_lockedKept M pointer s : lockedKept s (beforeUpdate M pointer s).
Proof.
  intros x Hx Hl. split.
  - destruct (findSun s (Sim.world s)) as [sun |] eqn:Hsun.
    + rewrite (beforeUpdate_world_fold M pointer s sun Hsun).
      apply fold_remove_keeps; [done | by apply escapes_locked_false].
    + unfold beforeUpdate, Sim.allBodies. by rewrite Hsun.
  - rewrite (isLockedAt_onlyVelocities s); [done | apply beforeUpdate_frames].
Qed.

Lemma collisionActive_lockedKept pairs s : lockedKept s (collisionActive pairs s).
Proof.
  destruct (collisionActive_exact pairs s) as (Hov & Hw & _).
  intros x Hx Hl. rewrite Hw. split; [done |].
  by rewrite (isLockedAt_onlyVelocities s).
Qed.

Lemma engineUpdate_lockedKept motion s : lockedKept s (engineUpdate motion s).
Proof.
  intros x Hx Hl. split; [done |]. revert Hl.
  unfold isLockedAt, engineUpdate. simpl. rewrite map_lookup_imap.
  destruct (Sim.heap s !! x) as [b |]; [| done]. simpl. by destruct b.
Qed.

Lemma addBody_lockedKept body s : lockedKept s (addBody body s).
Proof.
  intros x Hx Hl. unfold addBody. simpl. split; [apply elem_of_app; by left |].
  revert Hl. unfold isLockedAt. simpl.
  destruct (Sim.heap s !! x) as [b |] eqn:Hb; [| done].
  rewrite lookup_insert_ne; [by rewrite Hb |].
  intros E. rewrite <- E in Hb.
  assert (Sim.heap s !! fresh (dom (Sim.heap s)) = None)
    by apply not_elem_of_dom, is_fresh.
  congruence.
Qed.

Lemma pollSelected_same s :
  Sim.heap (pollSelected s) = Sim.heap s /\ Sim.world (pollSelected s) = Sim.world s.
Proof. unfold pollSelected. by repeat case_match. Qed.

Lemma constraintMouseDown_same bodiesAtPoint a :
  Sim.heap (App.sim (constraintMouseDown bodiesAtPoint a)) = Sim.heap (App.sim a)
  /\ Sim.world (App.sim (constraintMouseDown bodiesAtPoint a)) = Sim.world (App.sim a).
Proof. unfold constraintMouseDown. by repeat case_match. Qed.

Lemma planetClick_same planet s :
  Sim.heap (planetClick planet s) = Sim.heap s
  /\ Sim.world (planetClick planet s) = Sim.world s.
Proof. unfold planetClick. by repeat case_match. Qed.

Lemma bufferField_same f s :
  Sim.heap (bufferField f s) = Sim.heap s /\ Sim.world (bufferField f s) = Sim.world s.
Proof. unfold bufferField. by case_match. Qed.

Lemma handle_lockedKept M outlineArea e a :
  sparesLocked e = true ->
  lockedKept (App.sim a) (App.sim (handle M outlineArea e a)).
Proof.
  intros He. destruct e; try discriminate He; unfold handle;
    try (destruct (Sim.isEditing (App.sim a)); [| by apply lockedKept_same]);
    try (apply lockedKept_same; apply bufferField_same).
  - apply engineUpdate_lockedKept.
  - apply beforeUpdate_lockedKept.
  - apply collisionActive_lockedKept.
  - by apply lockedKept_same.
  - by apply lockedKept_same.
  - apply lockedKept_same; apply constraintMouseDown_same.
  - unfold canvasMouseDown. case_match; by apply lockedKept_same.
  - by apply lockedKept_same.
  - apply lockedKept_same; apply pollSelected_same.
  - destruct (Sim.isEditing (App.sim a)); [by apply lockedKept_same |].
    unfold editClick. simpl. case_match; by apply lockedKept_same.
  - case_match; [| by apply lockedKept_same].
    apply lockedKept_same; apply planetClick_same.
  - unfold addPlanetClick. simpl. apply addBody_lockedKept.
Qed.

(** X12.  Over any run of events without a starting collision and
    without the [Done] and [Delete] buttons, a locked body of the world
    stays in the world and stays locked: the escape test never removes
    it, however far from the sun the engine takes it, and no pointer
    event, poll or form input touches it. *)
Theorem locked_planets_survive
  (M : Math.t) (outlineArea : float -> float) (events : list Event)
  (a : App.t) (x : nat) :
  Forall (fun e => sparesLocked e = true) events ->
  x ∈ Sim.world (App.sim a) ->
  isLockedAt (App.sim a) x = true ->
  x ∈ Sim.world (App.sim (run M outlineArea events a))
  /\ isLockedAt (App.sim (run M outlineArea events a)) x = true.
Proof.
  unfold run. intros Hev. revert a.
  induction Hev as [| e events He _ IH]; intros a Hx Hl; simpl; [done |].
  destruct (handle_lockedKept M outlineArea e a He x Hx Hl) as [Hx' Hl'].
  by apply IH.
Qed.

Lemma locked_planets_survive_witness :
  2 ∈ Sim.world
        (App.sim (run hostOnAxis roughArea
                    [BeforeUpdate []; EngineUpdate drift; CollisionActive [(1, 2)];
                     AfterUpdate; Poll; BeforeUpdate [2]]
                    (appOf system 4)))
  /\ isLockedAt
       (App.sim (run hostOnAxis roughArea
                   [BeforeUpdate []; EngineUpdate drift; CollisionActive [(1, 2)];
                    AfterUpdate; Poll; BeforeUpdate [2]]
                   (appOf system 4)))
       2 = true.
Proof.
  exact (locked_planets_survive hostOnAxis roughArea
           [BeforeUpdate []; EngineUpdate drift; CollisionActive [(1, 2)];
            AfterUpdate; Poll; BeforeUpdate [2]]
           (appOf system 4) 2
           ltac:(repeat constructor) ltac:(compute_done) eq_refl).
Defined.

(** * The edit form and the pointer *)

Lemma commitToBody_name sel ev body :
  Body.name (commitToBody sel ev body) = Some (EditingValues.name ev).
Proof.
  destruct body as [id st pos vel m im dens ar rad fs isSun nm lk lv col dt].
  unfold commitToBody, oldRadiusOf, applyLocked, Body.scale.
  destruct (JS.truthy_flag (CelestialBodyProperties.isSun sel)); simpl.
  - scale_cases rad.
  - destruct (EditingValues.isLocked ev); [| destruct lv as [v |]]; simpl;
      scale_cases rad.
Qed.

Lemma dispatch_done_sim M outlineArea a :
  Sim.isEditing (App.sim a) = true ->
  App.sim (dispatch M outlineArea a DoneButton) = Sim.syncRefs (doneClick (App.sim a)).
Proof. intros H. unfold dispatch, handle. by rewrite H. Qed.

(** X13.  An edit left open when its body disappears is applied to the
    next body the user selects.  In a state whose form is open while
    nothing is selected (a collision, the escape test or the poll cleared
    the selection; none of them closes the form), a click on a body
    selects it and keeps the form and its buffer, and [Done] then writes
    the buffer of the vanished body to the body just selected: its name
    and its radius become the buffered ones. *)
Theorem orphaned_edit_reaches_next_selection
  (M : Math.t) (outlineArea : float -> float) (a : App.t)
  (q sun : nat) (qb sb : Body.t) (ev : EditingValues.t) :
  Sim.isEditing (App.sim a) = true ->
  App.isEditingRef a = true ->
  Sim.editingValues (App.sim a) = Some ev ->
  Sim.selectedBodyRef (App.sim a) = None ->
  findSun (App.sim a) (Sim.world (App.sim a)) = Some sun ->
  Sim.heap (App.sim a) !! sun = Some sb ->
  Sim.heap (App.sim a) !! q = Some qb ->
  findById (App.sim a) (Sim.world (App.sim a)) (Body.id qb) = Some q ->
  let clicked := dispatch M outlineArea a (ConstraintMouseDown [q]) in
  let done := dispatch M outlineArea clicked DoneButton in
  Sim.isEditing (App.sim clicked) = true
  /\ Sim.editingValues (App.sim clicked) = Some ev
  /\ Sim.selectedBody (App.sim clicked) = Some (snapshotOf qb sb)
  /\ Sim.heap (App.sim done) !! q = Some (commitToBody (snapshotOf qb sb) ev qb)
  /\ (forall b, Sim.heap (App.sim done) !! q = Some b ->
        Body.name b = Some (EditingValues.name ev)
        /\ Body.circleRadius b = Some (EditingValues.size ev / 2)%float)
  /\ Sim.isEditing (App.sim done) = false.
Proof.
  intros Hed Hedref Hev Href Hsun Hsb Hq Hfind.
  assert (Hclick : App.sim (dispatch M outlineArea a (ConstraintMouseDown [q]))
                   = Sim.syncRefs
                       (Sim.setSelectedBody (Some (snapshotOf qb sb)) (App.sim a))).
  { unfold dispatch, handle, constraintMouseDown, Sim.allBodies. cbv zeta.
    change (head [q]) with (Some q).
    rewrite Hsun, Hq, Hsb, Hedref, Href. reflexivity. }
  cbv zeta. rewrite Hclick.
  assert (Hdone : App.sim (dispatch M outlineArea
                     (dispatch M outlineArea a (ConstraintMouseDown [q])) DoneButton)
                  = Sim.syncRefs
                      (doneClick
                         (Sim.syncRefs
                            (Sim.setSelectedBody (Some (snapshotOf qb sb))
                               (App.sim a))))).
  { rewrite dispatch_done_sim; rewrite Hclick; [reflexivity | exact Hed]. }
  rewrite Hdone.
  assert (Hbody : Sim.heap
                    (Sim.syncRefs
                       (doneClick
                          (Sim.syncRefs
                             (Sim.setSelectedBody (Some (snapshotOf qb sb))
                                (App.sim a))))) !! q
                  = Some (commitToBody (snapshotOf qb sb) ev qb)).
  { change (Sim.heap (Sim.syncRefs ?s)) with (Sim.heap s).
    apply (doneClick_body _ (snapshotOf qb sb) ev q qb);
      [reflexivity | exact Hev | exact Hfind | exact Hq]. }
  split; [done |]. split; [done |]. split; [done |]. split; [done |].
  split.
  { intros b Hb. rewrite Hbody in Hb. injection Hb as <-.
    split; [apply commitToBody_name | apply commitToBody_radius]. }
  reflexivity.
Qed.

Lemma orphaned_edit_reaches_next_selection_witness :
  let done :=
    dispatch hostOnAxis roughArea
      (dispatch hostOnAxis roughArea orphanedEdit (ConstraintMouseDown [1]))
      DoneButton in
  Body.circleRadius <$> Sim.heap (App.sim orphanedEdit) !! 1 = Some (Some 15%float)
  /\ Body.isLocked <$> Sim.heap (App.sim orphanedEdit) !! 1 = Some None
  /\ Body.circleRadius <$> Sim.heap (App.sim done) !! 1 = Some (Some 10%float)
  /\ Body.isLocked <$> Sim.heap (App.sim done) !! 1 = Some (Some true).
Proof.
  pose proof (orphaned_edit_reaches_next_selection hostOnAxis roughArea orphanedEdit
                1 0 inner theSun
                {| EditingValues.name := "Planet"; EditingValues.mass := 20;
                   EditingValues.size := 20; EditingValues.color := "#3366cc";
                   EditingValues.isLocked := true |}
                eq_refl eq_refl eq_refl eq_refl eq_refl eq_refl eq_refl eq_refl)
    as (_ & _ & _ & Hdone & _).
  cbv zeta. rewrite Hdone. repeat split; reflexivity.
Defined.

Lemma inputs_keep M outlineArea inputs a :
  Forall (fun e => isFormInput e = true) inputs ->
  Sim.isEditing (App.sim a) = true ->
  App.isEditingRef a = true ->
  Sim.selectedBodyRef (App.sim a) = Sim.selectedBody (App.sim a) ->
  let a' := run M outlineArea inputs a in
  Sim.isEditing (App.sim a') = true
  /\ App.isEditingRef a' = true
  /\ Sim.selectedBodyRef (App.sim a') = Sim.selectedBody (App.sim a)
  /\ Sim.selectedBody (App.sim a') = Sim.selectedBody (App.sim a)
  /\ Sim.heap (App.sim a') = Sim.heap (App.sim a)
  /\ Sim.world (App.sim a') = Sim.world (App.sim a).
Proof.
  unfold run. intros Hin. revert a.
  induction Hin as [| e inputs He _ IH]; intros a Hed Hedref Href; simpl; [done |].
  assert (Hstep :
    let a1 := dispatch M outlineArea a e in
    Sim.isEditing (App.sim a1) = true
    /\ App.isEditingRef a1 = true
    /\ Sim.selectedBodyRef (App.sim a1) = Sim.selectedBody (App.sim a1)
    /\ Sim.selectedBody (App.sim a1) = Sim.selectedBody (App.sim a)
    /\ Sim.heap (App.sim a1) = Sim.heap (App.sim a)
    /\ Sim.world (App.sim a1) = Sim.world (App.sim a)).
  { destruct e; try discriminate He; unfold dispatch, handle; rewrite Hed;
      unfold nameChange, massChange, colorChange, lockedChange, sizeChange,
        bufferField; simpl;
      destruct (Sim.editingValues (App.sim a)); simpl; by rewrite ?Hed. }
  destruct Hstep as (Hed1 & Hedref1 & Href1 & Hsel1 & Hh1 & Hw1).
  destruct (IH _ Hed1 Hedref1 Href1) as (H1 & H2 & H3 & H4 & H5 & H6).
  repeat split; congruence.
Qed.

(** X14.  The edits of the form stay in its buffer: whatever is typed
    into the fields of an open form, a click on empty space, or on a body
    other than the selected one, closes the form and drops the buffer, and
    the bodies and the world are what they were before the typing. *)
Theorem click_away_discards_edits
  (M : Math.t) (outlineArea : float -> float) (a : App.t)
  (inputs : list Event) (bodiesAtPoint : list nat) :
  Forall (fun e => isFormInput e = true) inputs ->
  Sim.isEditing (App.sim a) = true ->
  App.isEditingRef a = true ->
  Sim.selectedBodyRef (App.sim a) = Sim.selectedBody (App.sim a) ->
  (forall r clickedBody,
     head bodiesAtPoint = Some r -> Sim.heap (App.sim a) !! r = Some clickedBody ->
     exists sel, Sim.selectedBody (App.sim a) = Some sel
                 /\ CelestialBodyProperties.id sel <> Body.id clickedBody) ->
  let a' :=
    dispatch M outlineArea (run M outlineArea inputs a)
      (ConstraintMouseDown bodiesAtPoint) in
  Sim.heap (App.sim a') = Sim.heap (App.sim a)
  /\ Sim.world (App.sim a') = Sim.world (App.sim a)
  /\ Sim.isEditing (App.sim a') = false
  /\ Sim.editingValues (App.sim a') = None
  /\ App.isEditingRef a' = false.
Proof.
  intros Hin Hed Hedref Href Hother.
  destruct (inputs_keep M outlineArea inputs a Hin Hed Hedref Href)
    as (Hed' & Hedref' & Href' & Hsel' & Hh' & Hw').
  set (a1 := run M outlineArea inputs a) in *.
  cbv zeta. rewrite <- Hh', <- Hw'.
  unfold dispatch, handle, constraintMouseDown, Sim.allBodies. cbv zeta.
  rewrite Hedref'.
  destruct (head bodiesAtPoint) as [r |] eqn:Hhead; [| done].
  destruct (findSun (App.sim a1) (Sim.world (App.sim a1))) as [sun |]; [| done].
  destruct (Sim.heap (App.sim a1) !! r) as [cb |] eqn:Hr; [| done].
  destruct (Sim.heap (App.sim a1) !! sun) as [sb |]; [| done].
  rewrite Hh' in Hr. destruct (Hother r cb eq_refl Hr) as (sel & Hsel & Hne).
  rewrite Href', Hsel.
  apply Nat.eqb_neq in Hne. rewrite Hne. done.
Qed.

Lemma click_away_discards_edits_witness :
  let a' :=
    dispatch hostOnAxis roughArea
      (run hostOnAxis roughArea
         [NameInput "Vulcan"; SizeInput 60; LockedInput false] editingContact)
      (ConstraintMouseDown [1]) in
  Sim.heap (App.sim a') = Sim.heap (App.sim editingContact)
  /\ Sim.world (App.sim a') = Sim.world (App.sim editingContact)
  /\ Sim.isEditing (App.sim a') = false
  /\ Sim.editingValues (App.sim a') = None
  /\ App.isEditingRef a' = false.
Proof.
  apply (click_away_discards_edits hostOnAxis roughArea editingContact
           [NameInput "Vulcan"; SizeInput 60; LockedInput false] [1]).
  - repeat constructor.
  - reflexivity.
  - reflexivity.
  - reflexivity.
  - intros r cb [= <-] Hr. vm_compute in Hr. injection Hr as <-.
    eexists. split; [reflexivity |]. vm_compute. lia.
Defined.

(** * The write-through form over a run of edits *)

Lemma findById_update s l id r f :
  (forall b, Body.id (f b) = Body.id b) ->
  findById (Sim.update r f s) l id = findById s l id.
Proof.
  intros Hf. unfold findById. apply find_ext_bool. intros x.
  unfold Sim.update. destruct (Sim.heap s !! r) as [b |] eqn:Hr; [| done].
  simpl. destruct (decide (r = x)) as [<- | Hne].
  - by rewrite lookup_insert_eq, Hr, Hf.
  - by rewrite lookup_insert_ne.
Qed.

Lemma resizeBody_id size body : Body.id (WriteThrough.resizeBody size body) = Body.id body.
Proof.
  destruct body as [id st pos vel m im dens ar rad fs isSun nm lk lv col dt].
  unfold WriteThrough.resizeBody, oldRadiusOf, Body.scale. simpl.
  scale_cases rad.
Qed.

(** What a write-through field handler leaves for the next one. *)
Lemma writeField_next inBuffer inSnapshot onBody s sel ev r body :
  (forall p, CelestialBodyProperties.id (inSnapshot p) = CelestialBodyProperties.id p) ->
  (forall b, Body.id (onBody b) = Body.id b) ->
  Sim.selectedBody s = Some sel ->
  Sim.editingValues s = Some ev ->
  findById s (Sim.allBodies s) (CelestialBodyProperties.id sel) = Some r ->
  Sim.heap s !! r = Some body ->
  let s' := WriteThrough.writeField inBuffer inSnapshot onBody s in
  Sim.selectedBody s' = Some (inSnapshot sel)
  /\ Sim.editingValues s' = Some (inBuffer ev)
  /\ findById s' (Sim.allBodies s') (CelestialBodyProperties.id (inSnapshot sel))
     = Some r
  /\ Sim.heap s' !! r = Some (onBody body).
Proof.
  intros Hsnap Hbody Hsel Hev Hfind Hr. cbv zeta.
  split; [| split; [| split]].
  - unfold WriteThrough.writeField. rewrite Hsel, Hev, Hfind.
    by destruct (update_rest r onBody
                   (Sim.setSelectedBody (Some (inSnapshot sel))
                      (Sim.setEditingValues (Some (inBuffer ev)) s)))
      as (_ & -> & _).
  - unfold WriteThrough.writeField. rewrite Hsel, Hev, Hfind.
    by destruct (update_rest r onBody
                   (Sim.setSelectedBody (Some (inSnapshot sel))
                      (Sim.setEditingValues (Some (inBuffer ev)) s)))
      as (_ & _ & _ & -> & _).
  - rewrite Hsnap. unfold WriteThrough.writeField, Sim.allBodies in *.
    rewrite Hsel, Hev, Hfind.
    destruct (update_rest r onBody
                (Sim.setSelectedBody (Some (inSnapshot sel))
                   (Sim.setEditingValues (Some (inBuffer ev)) s)))
      as (-> & _).
    rewrite findById_update by done. exact Hfind.
  - by apply writeField_body with (sel := sel) (ev := ev).
Qed.

(** X15.  In the write-through form the mass and the size of a body are
    independent over any run of edits, in any order: after the run the
    body's mass is the mass last typed (its own when none was typed) and
    its radius is half the size last typed (its own when none was typed). *)
Theorem writeThrough_mass_and_size_independent
  (edits : list FieldEdit) (s : Sim.t) (sel : CelestialBodyProperties.t)
  (ev : EditingValues.t) (r : nat) (body : Body.t) :
  Sim.selectedBody s = Some sel ->
  Sim.editingValues s = Some ev ->
  findById s (Sim.allBodies s) (CelestialBodyProperties.id sel) = Some r ->
  Sim.heap s !! r = Some body ->
  exists body',
    Sim.heap (fold_left (fun s e => writeEdit e s) edits s) !! r = Some body'
    /\ Body.mass body' = lastMass edits (Body.mass body)
    /\ Body.circleRadius body' = lastRadius edits (Body.circleRadius body).
Proof.
  revert s sel ev body; induction edits as [| e edits IH];
    intros s sel ev body Hsel Hev Hfind Hr; simpl.
  { by exists body. }
  destruct e as [parsed | parsed]; simpl.
  - destruct (writeField_next
                (EditingValues.with_mass parsed)
                (fun p => CelestialBodyProperties.mk
                   (CelestialBodyProperties.id p) (CelestialBodyProperties.name p)
                   parsed (CelestialBodyProperties.size p)
                   (CelestialBodyProperties.color p)
                   (CelestialBodyProperties.orbitalVelocity p)
                   (CelestialBodyProperties.isSun p) (CelestialBodyProperties.isLocked p))
                (WriteThrough.remassBody parsed) s sel ev r body)
      as (Hsel' & Hev' & Hfind' & Hr'); try done.
    destruct (IH _ _ _ _ Hsel' Hev' Hfind' Hr') as (body' & Hb & Hm & Hrad).
    exists body'. split; [exact Hb |]. split; [exact Hm | exact Hrad].
  - destruct (writeField_next
                (EditingValues.with_size parsed)
                (fun p => CelestialBodyProperties.mk
                   (CelestialBodyProperties.id p) (CelestialBodyProperties.name p)
                   (CelestialBodyProperties.mass p) parsed
                   (CelestialBodyProperties.color p)
                   (CelestialBodyProperties.orbitalVelocity p)
                   (CelestialBodyProperties.isSun p) (CelestialBodyProperties.isLocked p))
                (WriteThrough.resizeBody parsed) s sel ev r body)
      as (Hsel' & Hev' & Hfind' & Hr'); try done.
    { apply resizeBody_id. }
    destruct (IH _ _ _ _ Hsel' Hev' Hfind' Hr') as (body' & Hb & Hm & Hrad).
    exists body'. split; [exact Hb |]. split; [exact Hm | exact Hrad].
Qed.

Lemma writeThrough_mass_and_size_independent_witness :
  exists body',
    Sim.heap
      (fold_left (fun s e => writeEdit e s) [SizeEdit 60; MassEdit 50; SizeEdit 20]
         (editClick planetPicked)) !! 1 = Some body'
    /\ Body.mass body' = lastMass [SizeEdit 60; MassEdit 50; SizeEdit 20] (Body.mass inner)
    /\ Body.circleRadius body'
       = lastRadius [SizeEdit 60; MassEdit 50; SizeEdit 20] (Body.circleRadius inner).
Proof.
  exact (writeThrough_mass_and_size_independent
           [SizeEdit 60; MassEdit 50; SizeEdit 20] (editClick planetPicked)
           (snapshotOf inner theSun)
           {| EditingValues.name := "Planet"; EditingValues.mass := 30;
              EditingValues.size := 30; EditingValues.color := "#3366cc";
              EditingValues.isLocked := false |}
           1 inner eq_refl eq_refl eq_refl eq_refl).
Defined.

(** * The two orientations of the tangential component *)

Lemma binary_round_aux_opp prec emax s m e l :
  binary_round_aux prec emax (negb s) m e l = SFopp (binary_round_aux prec emax s m e l).
Proof.
  unfold binary_round_aux.
  destruct (shr_fexp prec emax m e l) as [mrs' e'].
  destruct (shr_fexp prec emax _ e' loc_Exact) as [mrs'' e''].
  destruct (shr_m mrs''); [reflexivity | | reflexivity].
  destruct (e'' <=? emax - prec)%Z; reflexivity.
Qed.

Lemma binary_round_opp prec emax s m e :
  binary_round prec emax (negb s) m e = SFopp (binary_round prec emax s m e).
Proof.
  unfold binary_round. destruct (shl_align m e _) as [mz ez].
  apply binary_round_aux_opp.
Qed.

Lemma SFmul_opp_r prec emax a b :
  SFmul prec emax a (SFopp b) = SFopp (SFmul prec emax a b).
Proof.
  destruct a as [sa | sa | | sa ma ea], b as [sb | sb | | sb mb eb]; simpl;
    try reflexivity; try (by destruct sa, sb).
  rewrite <- binary_round_aux_opp. by destruct sa, sb.
Qed.

Lemma mirrored_normalize prec emax m e :
  mirrored (binary_normalize prec emax m e false)
           (binary_normalize prec emax (- m) e false).
Proof.
  destruct m as [| q | q]; simpl.
  - right. by exists false, false.
  - left. apply (binary_round_opp prec emax false).
  - left. rewrite <- (binary_round_opp prec emax true). reflexivity.
Qed.

(** [-a + b] mirrors [a - b]. *)
Lemma mirrored_add_opp prec emax a b :
  mirrored (SFsub prec emax a b) (SFadd prec emax (SFopp a) b).
Proof.
  destruct a as [sa | sa | | sa ma ea], b as [sb | sb | | sb mb eb];
    try (left; reflexivity);
    try (left; by destruct sa, sb);
    try (left; by destruct sa);
    try (left; by destruct sb).
  - right. destruct sa, sb; by eexists _, _.
  - unfold SFsub, SFadd, SFopp.
    replace (cond_Zopp (negb sa) (Z.pos (shl_align ma ea (Z.min ea eb)).1)
             + cond_Zopp sb (Z.pos (shl_align mb eb (Z.min ea eb)).1))%Z
      with (- (cond_Zopp sa (Z.pos (shl_align ma ea (Z.min ea eb)).1)
               - cond_Zopp sb (Z.pos (shl_align mb eb (Z.min ea eb)).1)))%Z.
    + apply mirrored_normalize.
    + destruct sa; simpl; lia.
Qed.

Lemma mirrored_abs p q : mirrored p q -> SFabs q = SFabs p.
Proof.
  intros [-> | (s & s' & -> & ->)]; [| reflexivity].
  by destruct p.
Qed.

Lemma mirrored_ltb p q :
  mirrored p q ->
  SFltb (S754_zero false) q = SFltb p (S754_zero false)
  /\ SFltb q (S754_zero false) = SFltb (S754_zero false) p.
Proof.
  intros [-> | (s & s' & -> & ->)]; [| done].
  destruct p as [s | s | | s m e]; try done; by destruct s.
Qed.

(** X16.  The sibling variants take the tangential component with the
    orientation opposite to this one: for a body that is neither locked
    nor static the two diagnostics agree on the radial component and on
    the magnitude of the tangential one, and the tangential component is
    positive in one exactly when it is negative in the other.  The
    panel's suffix is computed in the same way in all variants, so where
    one says [(ccw)] for a moving planet the other says [(cw)]. *)
Theorem tangential_orientation_is_mirrored (body sun : Body.t) :
  JS.truthy_flag (Body.isLocked body) = false ->
  Body.isStatic body = false ->
  let here := calculateOrbitalVelocity body sun in
  let there := calculateOrbitalVelocityUnguarded body sun in
  OrbitalVelocity.radial there = OrbitalVelocity.radial here
  /\ PrimFloat.abs (OrbitalVelocity.tangential there)
     = PrimFloat.abs (OrbitalVelocity.tangential here)
  /\ PrimFloat.ltb 0 (OrbitalVelocity.tangential there)
     = PrimFloat.ltb (OrbitalVelocity.tangential here) 0
  /\ PrimFloat.ltb (OrbitalVelocity.tangential there) 0
     = PrimFloat.ltb 0 (OrbitalVelocity.tangential here)
  /\ (PrimFloat.ltb 0 (OrbitalVelocity.tangential here) = true ->
      tangentialSuffix (OrbitalVelocity.tangential here) = "(ccw)"%string
      /\ tangentialSuffix (OrbitalVelocity.tangential there) = "(cw)"%string).
Proof.
  intros Hl Hst. unfold calculateOrbitalVelocity, calculateOrbitalVelocityUnguarded.
  rewrite Hl, Hst. cbv zeta. simpl orb. cbv iota.
  simpl OrbitalVelocity.radial. simpl OrbitalVelocity.tangential.
  set (vx := Vector.x (Body.velocity body)).
  set (vy := Vector.y (Body.velocity body)).
  set (dx := (Vector.x (Body.position body) - Vector.x (Body.position sun))%float).
  set (dy := (Vector.y (Body.position body) - Vector.y (Body.position sun))%float).
  set (d := PrimFloat.sqrt (dx * dx + dy * dy)).
  set (rx := (dx / d)%float). set (ry := (dy / d)%float).
  assert (Hm : mirrored (Prim2SF (vx * ry - vy * rx)%float)
                        (Prim2SF (vx * - ry + vy * rx)%float)).
  { rewrite sub_spec, add_spec, !mul_spec, opp_spec.
    unfold SF64mul. rewrite SFmul_opp_r. apply mirrored_add_opp. }
  assert (Habs : PrimFloat.abs (vx * - ry + vy * rx) = PrimFloat.abs (vx * ry - vy * rx)).
  { apply Prim2SF_inj. rewrite !FloatAxioms.abs_spec. by apply mirrored_abs. }
  destruct (mirrored_ltb _ _ Hm) as [Hpos Hneg].
  assert (Hp : PrimFloat.ltb 0 (vx * - ry + vy * rx) = PrimFloat.ltb (vx * ry - vy * rx) 0).
  { by rewrite !FloatAxioms.ltb_spec, Prim2SF_zero. }
  assert (Hn : PrimFloat.ltb (vx * - ry + vy * rx) 0 = PrimFloat.ltb 0 (vx * ry - vy * rx)).
  { by rewrite !FloatAxioms.ltb_spec, Prim2SF_zero. }
  split; [reflexivity |]. split; [exact Habs |]. split; [exact Hp |].
  split; [exact Hn |].
  intros Hccw. unfold tangentialSuffix. rewrite Hccw. split; [reflexivity |].
  rewrite Hp.
  replace (PrimFloat.ltb (vx * ry - vy * rx) 0) with false; [reflexivity |].
  symmetry. revert Hccw. rewrite !FloatAxioms.ltb_spec, Prim2SF_zero.
  destruct (Prim2SF (vx * ry - vy * rx)) as [s | s | | s m e]; try done;
    by destruct s.
Qed.

Lemma tangential_orientation_is_mirrored_witness :
  let here := calculateOrbitalVelocity grabbed theSun in
  let there := calculateOrbitalVelocityUnguarded grabbed theSun in
  OrbitalVelocity.radial there = OrbitalVelocity.radial here
  /\ PrimFloat.abs (OrbitalVelocity.tangential there)
     = PrimFloat.abs (OrbitalVelocity.tangential here)
  /\ PrimFloat.ltb 0 (OrbitalVelocity.tangential there)
     = PrimFloat.ltb (OrbitalVelocity.tangential here) 0
  /\ PrimFloat.ltb (OrbitalVelocity.tangential there) 0
     = PrimFloat.ltb 0 (OrbitalVelocity.tangential here)
  /\ (PrimFloat.ltb 0 (OrbitalVelocity.tangential here) = true ->
      tangentialSuffix (OrbitalVelocity.tangential here) = "(ccw)"%string
      /\ tangentialSuffix (OrbitalVelocity.tangential there) = "(cw)"%string).
Proof. exact (tangential_orientation_is_mirrored grabbed theSun eq_refl eq_refl). Defined.

(** X17.  Without the guard, the diagnostic of a body whose centre is
    the sun's is NaN in both components, locked or static or not: in the
    sibling variants that is what a click on the sun stores in the
    snapshot, the sun being compared with itself. *)
Theorem unguarded_diagnostic_at_the_centre_is_nan (body sun : Body.t) :
  Body.position body = Body.position sun ->
  JS.is_finite (Vector.x (Body.position sun)) = true ->
  JS.is_finite (Vector.y (Body.position sun)) = true ->
  calculateOrbitalVelocityUnguarded body sun
  = {| OrbitalVelocity.radial := nan; OrbitalVelocity.tangential := nan |}.
Proof.
  intros Hpos Hx Hy. unfold calculateOrbitalVelocityUnguarded.
  rewrite Hpos, !(sub_diag_finite _ Hx), !(sub_diag_finite _ Hy).
  cbv zeta.
  change (0 / PrimFloat.sqrt (0 * 0 + 0 * 0))%float with nan.
  change (- nan)%float with nan.
  by rewrite !nan_mul_r.
Qed.

Lemma unguarded_diagnostic_at_the_centre_is_nan_witness :
  calculateOrbitalVelocityUnguarded theSun theSun
  = {| OrbitalVelocity.radial := nan; OrbitalVelocity.tangential := nan |}
  /\ calculateOrbitalVelocity theSun theSun
     = {| OrbitalVelocity.radial := 0; OrbitalVelocity.tangential := 0 |}.
Proof.
  split; [| reflexivity].
  exact (unguarded_diagnostic_at_the_centre_is_nan theSun theSun
           eq_refl eq_refl eq_refl).
Defined.

(** * The Delete button *)

(** X18.  [Delete] removes from the world the body that has the
    selection's id, and no other; it clears the selection and closes the
    form, and it changes no object.  When no body of the world has that
    id, it does nothing at all: the stale selection stays. *)
Theorem deleteClick_removes_the_selected (s : Sim.t) (sel : CelestialBodyProperties.t) :
  NoDup (Sim.world s) ->
  Sim.selectedBody s = Some sel ->
  match findById s (Sim.world s) (CelestialBodyProperties.id sel) with
  | Some r =>
      (forall x, x ∈ Sim.world (deleteClick s) <-> x ∈ Sim.world s /\ x <> r)
      /\ (exists b, Sim.heap s !! r = Some b
                    /\ Body.id b = CelestialBodyProperties.id sel)
      /\ Sim.heap (deleteClick s) = Sim.heap s
      /\ Sim.selectedBody (deleteClick s) = None
      /\ Sim.isEditing (deleteClick s) = false
      /\ Sim.editingValues (deleteClick s) = None
  | None => deleteClick s = s
  end.
Proof.
  intros Hnd Hsel. unfold deleteClick, Sim.allBodies. rewrite Hsel.
  destruct (findById s (Sim.world s) (CelestialBodyProperties.id sel))
    as [r |] eqn:Hfind; [| done].
  apply findById_Some in Hfind as (Hin & b & Hr & Hid).
  split; [| split; [by exists b | done]].
  intros x. simpl. split.
  - intros Hx. split; [by eapply remove_subset |].
    intros ->. by apply (remove_gone (Sim.world s) r).
  - intros [Hx Hne]. by apply remove_other.
Qed.

Lemma deleteClick_removes_the_selected_witness :
  (forall x, x ∈ Sim.world (deleteClick system) <-> x ∈ Sim.world system /\ x <> 3)
  /\ (exists b, Sim.heap system !! 3 = Some b
                /\ Body.id b = CelestialBodyProperties.id (snapshotOf runaway theSun))
  /\ Sim.heap (deleteClick system) = Sim.heap system
  /\ Sim.selectedBody (deleteClick system) = None
  /\ Sim.isEditing (deleteClick system) = false
  /\ Sim.editingValues (deleteClick system) = None.
Proof.
  exact (deleteClick_removes_the_selected system (snapshotOf runaway theSun)
           ltac:(compute_done) eq_refl).
Defined.

(** * The step as a whole *)

(** X1.  A step that finds the sun removes from the world exactly the
    bodies that pass the escape test on the state the step starts from
    (not a sun, not locked, further than 5000 from the sun), whether or
    not they are selected; the bodies that stay keep their order. *)
Theorem beforeUpdate_removes_exactly_the_escaped
  (M : Math.t) (pointer : Pointer.t) (s : Sim.t) (sun : nat) :
  NoDup (Sim.world s) ->
  findSun s (Sim.world s) = Some sun ->
  Sim.world (beforeUpdate M pointer s)
  = List.filter (fun r => negb (escapes s sun r)) (Sim.world s).
Proof.
  intros Hnd Hsun. rewrite (beforeUpdate_world_fold M pointer s sun Hsun).
  by apply fold_remove_self.
Qed.

Lemma beforeUpdate_removes_exactly_the_escaped_witness :
  Sim.world (beforeUpdate hostOnAxis pointerUp system) = [0; 1; 2].
Proof.
  exact (eq_trans
           (beforeUpdate_removes_exactly_the_escaped hostOnAxis pointerUp system 0
              ltac:(compute_done) eq_refl)
           eq_refl).
Defined.

(** X2.  A step changes nothing of a body but its velocity (id,
    position, mass, radius, name, colour and lock flag stay), makes no
    object and loses none, and leaves the edit form, the held flag, the
    body the mouse constraint holds and the selection ref alone. *)
Theorem beforeUpdate_changes_only_velocities
  (M : Math.t) (pointer : Pointer.t) (s : Sim.t) :
  onlyVelocities (Sim.heap s) (Sim.heap (beforeUpdate M pointer s))
  /\ formOf (beforeUpdate M pointer s) = formOf s.
Proof. exact (beforeUpdate_frames M pointer s). Qed.

(** * The first variant's ids *)

(** X19.  In the earliest variant the four planets of the mount effect
    all get id 1 and the name "Planet 1": ids are not unique from the
    start, and a lookup by id finds the first planet whichever of the
    four was meant. *)
Theorem first_variant_planets_share_an_id
  (M : Math.t) (outlineArea : float -> float) (d1 d2 d3 d4 : Draws.t) :
  let s := mountFirst M outlineArea d1 d2 d3 d4 in
  (forall r b, Sim.heap s !! r = Some b -> r <> 0 ->
     Body.id b = 1 /\ Body.name b = Some "Planet 1"%string)
  /\ findById s (Sim.world s) 1 = Some 1
  /\ ~ idsUnique (Sim.heap s).
Proof.
  cbv zeta. split; [| split].
  - intros r b Hr Hne. unfold mountFirst in Hr. simpl in Hr.
    apply lookup_insert_Some in Hr as [[<- _] | [_ Hr]]; [done |].
    repeat (apply lookup_insert_Some in Hr as [[_ <-] | [_ Hr]]; [done |]).
    by rewrite lookup_empty in Hr.
  - reflexivity.
  - intros Huniq.
    assert (1 = 2) as E; [| discriminate E].
    eapply (Huniq 1 2); reflexivity.
Qed.

(** * Locked bodies at rest (C9) *)

Lemma setVelocity_sameButVelocity b b' v :
  sameButVelocity b b' -> Body.setVelocity b' v = Body.setVelocity b v.
Proof. unfold sameButVelocity. intros <-. by destruct b'. Qed.

Lemma pinIfLocked_self r s b :
  Sim.heap s !! r = Some b -> JS.truthy_flag (Body.isLocked b) = true ->
  Sim.heap (pinIfLocked r s) !! r = Some (Body.setVelocity b Vector.zero).
Proof.
  intros Hr Hl. unfold pinIfLocked. rewrite Hr, Hl.
  exact (update_self r (fun o => Body.setVelocity o Vector.zero) s b Hr).
Qed.

(** A body that has been brought to rest stays as it is under further
    resets. *)
Lemma pinIfLocked_rested r s x b :
  Sim.heap s !! x = Some (Body.setVelocity b Vector.zero) ->
  Sim.heap (pinIfLocked r s) !! x = Some (Body.setVelocity b Vector.zero).
Proof.
  intros Hx. unfold pinIfLocked.
  destruct (Sim.heap s !! r) as [br |] eqn:Hr; [| done].
  destruct (JS.truthy_flag (Body.isLocked br)); [| done].
  destruct (decide (x = r)) as [-> | Hne].
  - rewrite (update_self r (fun o => Body.setVelocity o Vector.zero) s br Hr).
    rewrite Hx in Hr. injection Hr as <-. by destruct b.
  - by rewrite update_other.
Qed.

Lemma collisionActive_rested pairs s x b :
  Sim.heap s !! x = Some (Body.setVelocity b Vector.zero) ->
  Sim.heap (collisionActive pairs s) !! x = Some (Body.setVelocity b Vector.zero).
Proof.
  unfold collisionActive. revert s; induction pairs as [| [a c] pairs IH];
    intros s Hx; simpl; [done |].
  apply IH. by do 2 apply pinIfLocked_rested.
Qed.

Lemma collisionActive_rests pairs s a c r body :
  (a, c) ∈ pairs -> r = a \/ r = c ->
  Sim.heap s !! r = Some body -> JS.truthy_flag (Body.isLocked body) = true ->
  Sim.heap (collisionActive pairs s) !! r = Some (Body.setVelocity body Vector.zero).
Proof.
  unfold collisionActive. revert s body; induction pairs as [| [a' c'] pairs IH];
    intros s body Hin Hr Hb Hl; simpl.
  - by apply elem_of_nil in Hin.
  - destruct (pinIfLocked_frame a' s r body Hb) as (b1 & Hb1 & E1).
    destruct (sameButVelocity_fields _ _ E1) as (_ & _ & _ & _ & _ & El1 & _).
    apply elem_of_cons in Hin as [[= <- <-] | Hin].
    + apply (collisionActive_rested pairs). destruct Hr as [-> | ->].
      * apply pinIfLocked_rested. by apply pinIfLocked_self.
      * rewrite <- (setVelocity_sameButVelocity body b1 Vector.zero E1).
        apply pinIfLocked_self; [done | congruence].
    + destruct (pinIfLocked_frame c' (pinIfLocked a' s) r b1 Hb1) as (b2 & Hb2 & E2).
      destruct (sameButVelocity_fields _ _ E2) as (_ & _ & _ & _ & _ & El2 & _).
      rewrite <- (setVelocity_sameButVelocity body b2 Vector.zero
                    (sameButVelocity_trans _ _ _ E1 E2)).
      eapply (IH _ b2); try done. congruence.
Qed.

(** C9, as amended.  When a run of [beforeUpdate] that finds the sun
    returns (that is at the start of a step, before the engine integrates
    and solves), every body that was in the world and locked is still in
    the world, is what it was but for its velocity, and has velocity
    exactly [(0, 0)] when its position is finite and its [timeScale]
    finite and above zero: the second loop hands the zero velocity to
    [Matter.Body.setVelocity] for each locked body, whatever its velocity
    was.  When a run of [collisionActive] returns, the same holds of every
    locked body of a pair of the event, and a body of no pair of the
    event is as the engine left it.  [afterUpdate] touches no body. *)
Theorem beforeUpdate_pins_locked
  (M : Math.t) (pointer : Pointer.t) (s : Sim.t) (sun : nat) :
  (wellFormed s ->
   findSun s (Sim.allBodies s) = Some sun ->
   forall r b,
     r ∈ Sim.world s ->
     Sim.heap s !! r = Some b ->
     JS.truthy_flag (Body.isLocked b) = true ->
     r ∈ Sim.world (beforeUpdate M pointer s)
     /\ exists b',
          Sim.heap (beforeUpdate M pointer s) !! r = Some b'
          /\ sameButVelocity b b'
          /\ (steady b = true -> Body.velocity b' = Vector.zero))
  /\ (forall pairs a c r body,
        (a, c) ∈ pairs -> r = a \/ r = c ->
        Sim.heap s !! r = Some body ->
        JS.truthy_flag (Body.isLocked body) = true ->
        exists b',
          Sim.heap (collisionActive pairs s) !! r = Some b'
          /\ sameButVelocity body b'
          /\ (steady body = true -> Body.velocity b' = Vector.zero))
  /\ (forall pairs r body,
        Sim.heap s !! r = Some body ->
        (forall a c, (a, c) ∈ pairs -> r <> a /\ r <> c) ->
        Sim.heap (collisionActive pairs s) !! r = Some body)
  /\ (forall a, App.sim (afterUpdate a) = App.sim a).
Proof.
  split; [| split; [| split]].
  - intros [Hnd Hwf] Hfind r b Hin Hr Hl. unfold beforeUpdate. rewrite Hfind.
    unfold Sim.allBodies.
    set (s1 := fold_left (gravityEach M sun) (Sim.world s) s).
    set (s2 := fold_left (lockedAndEscapeEach sun) (Sim.world s) s1).
    destruct (hoverSelect_rest pointer sun s2) as [-> ->].
    destruct (gravityLoop_rest M sun (Sim.world s) s) as (Hw1 & _ & _).
    fold s1 in Hw1.
    destruct (gravityLoop_frame M sun (Sim.world s) s r b Hr) as (b1 & Hb1 & E1).
    fold s1 in Hb1.
    destruct (sameButVelocity_fields _ _ E1) as (_ & _ & _ & _ & _ & El1 & _).
    assert (Hl1 : JS.truthy_flag (Body.isLocked b1) = true) by congruence.
    split.
    + apply (escapeLoop_locked_kept sun (Sim.world s) s1 r b1); [by rewrite Hw1 | done ..].
    + exists (Body.setVelocity b Vector.zero). split; [| split].
      * rewrite <- (setVelocity_sameButVelocity b b1 Vector.zero E1).
        by apply escapeLoop_pinned.
      * apply sameButVelocity_setVelocity.
      * apply setVelocity_zero.
  - intros pairs a c r body Hin Hr Hb Hl.
    exists (Body.setVelocity body Vector.zero). split; [| split].
    + by eapply collisionActive_rests.
    + apply sameButVelocity_setVelocity.
    + apply setVelocity_zero.
  - intros pairs r body Hr Hout.
    destruct (collisionActive_exact pairs s) as (_ & _ & _ & _ & Hkeep).
    apply Hkeep; [done | by right].
  - reflexivity.
Qed.

Lemma beforeUpdate_pins_locked_witness :
  (2 ∈ Sim.world (beforeUpdate hostOnAxis pointerUp system)
   /\ exists b',
        Sim.heap (beforeUpdate hostOnAxis pointerUp system) !! 2 = Some b'
        /\ sameButVelocity lockedFar b'
        /\ Body.velocity b' = Vector.zero)
  /\ exists b',
       Sim.heap (collisionActive [(1, 2)] contact) !! 2 = Some b'
       /\ sameButVelocity lockedTouching b'
       /\ Body.velocity b' = Vector.zero.
Proof.
  split.
  - destruct (proj1 (beforeUpdate_pins_locked hostOnAxis pointerUp system 0)
                system_wellFormed eq_refl 2 lockedFar
                ltac:(compute_done) eq_refl eq_refl)
      as (Hin & b' & Hb' & E & Hv).
    split; [exact Hin |]. exists b'.
    split; [exact Hb' | split; [exact E | exact (Hv eq_refl)]].
  - destruct (proj1 (proj2 (beforeUpdate_pins_locked hostOnAxis pointerUp contact 0))
                [(1, 2)] 1 2 2 lockedTouching
                ltac:(compute_done) (or_intror eq_refl) eq_refl eq_refl)
      as (b' & Hb' & E & Hv).
    exists b'. split; [exact Hb' | split; [exact E | exact (Hv eq_refl)]].
Defined.

(** C9 as stated fails at the end of a step.  Planet 2 is locked and at
    rest, and planet 1 runs into it.  [beforeUpdate] leaves planet 2 with
    velocity [(0, 0)]; the engine integrates; the contact is new, so it
    is reported through [collisionStart], whose handler removes planets
    that touch the sun and resets nothing; the engine's collision
    response pushes planet 2 on at [(1, 0)]; [collisionActive] has no
    pair to report; [afterUpdate] restores the mouse mask.  The step ends
    with planet 2 locked and moving at [(1, 0)]. *)
Lemma locked_body_moves_at_end_of_step :
  let step :=
    [BeforeUpdate []; EngineUpdate drift; CollisionStart [(1, 2)];
     EngineUpdate recoil; CollisionActive []; AfterUpdate] in
  let started := App.sim (run hostOnAxis roughArea [BeforeUpdate []] (appOf firstContact 3)) in
  let ended := App.sim (run hostOnAxis roughArea step (appOf firstContact 3)) in
  ((Sim.heap firstContact !! 2) ≫= Body.isLocked = Some true
   /\ Body.velocity <$> Sim.heap started !! 2 = Some Vector.zero)
  /\ 2 ∈ Sim.world ended
  /\ (Sim.heap ended !! 2) ≫= Body.isLocked = Some true
  /\ Body.velocity <$> Sim.heap ended !! 2 = Some {| Vector.x := 1; Vector.y := 0 |}
  /\ Body.velocity <$> Sim.heap ended !! 2 <> Some Vector.zero.
Proof.
  cbv zeta. split; [split; reflexivity |]. split; [compute_done |].
  split; [reflexivity |]. split; [reflexivity |].
  intros H.
  apply (f_equal (fun o => match o with
                           | Some v => PrimFloat.eqb (Vector.x v) 0
                           | None => false
                           end)) in H.
  vm_compute in H. discriminate H.
Qed.

(** The condition on the position is needed: for a locked body at an
    infinite abscissa the library stores [Infinity - Infinity]. *)
Example setVelocity_zero_at_infinity :
  steady lockedAdrift = false
  /\ Body.velocity (Body.setVelocity lockedAdrift Vector.zero)
     = {| Vector.x := nan; Vector.y := 0 |}.
Proof. split; reflexivity. Qed.
